(** * GOG library synchronisation: a shallow embedding and its properties

    The development embeds the GOG library module of the launcher
    (class [GOGLibrary] with [sync], [refreshInstalled],
    [changeGameInstallPath], [listUpdateableGames],
    [checkForLinuxInstallerUpdate], [checkForGameUpdate],
    [gogToUnifiedInfo], and the free function [getGogdlCommand]).

    Conventions of the embedding:
    - JavaScript objects that are shared and mutated live on an explicit
      object heap; references are heap locations.
    - The three persisted stores hold plain values: reading a store yields
      freshly allocated objects, writing it snapshots the objects written.
    - Network collaborators are an environment record of response
      functions; a rejected promise is the [Throw] outcome.
    - [undefined] and [null] of an optional field are [None].
    - An asynchronous function runs to completion: the interleaving of
      concurrent calls is not part of the embedding.
    [getInstallInfo], [importGame] and [runGogdlCommand] drive the external
    downloader process and are not embedded. *)

From Stdlib Require Import String Ascii ZArith List Lia DecimalString.
From stdpp Require Import base option list gmap strings.
Import ListNotations.

Local Open Scope string_scope.

(** ** JavaScript string primitives used by the module *)

Module JsString.

(** [s.startsWith(p)] *)
Definition startsWith (s p : string) : bool := String.prefix p s.

(** [s.includes(sub)]: some suffix of [s] starts with [sub]. *)
Fixpoint includes (s sub : string) : bool :=
  match s with
  | EmptyString => String.prefix sub EmptyString
  | String _ s' => String.prefix sub s || includes s' sub
  end.

(** [arr.join(sep)] *)
Definition join (sep : string) (arr : list string) : string :=
  String.concat sep arr.

(** A string is truthy when it is not empty. *)
Definition truthy (s : string) : bool :=
  match s with EmptyString => false | String _ _ => true end.

(** Drop the first [n] characters. *)
Fixpoint drop_chars (n : nat) (s : string) : string :=
  match n, s with
  | O, _ => s
  | S _, EmptyString => EmptyString
  | S n', String _ s' => drop_chars n' s'
  end.

(** [s.replace(pat, rep)] with a string pattern: only the first
    occurrence is replaced. *)
Fixpoint replace (s pat rep : string) : string :=
  if String.prefix pat s then rep ++ drop_chars (String.length pat) s
  else match s with
       | EmptyString => EmptyString
       | String c s' => String c (replace s' pat rep)
       end.

(** The characters of a string. *)
Fixpoint chars (s : string) : list ascii :=
  match s with
  | EmptyString => []
  | String c s' => c :: chars s'
  end.

(** [String(n)] for an integral number. *)
Definition of_number (n : Z) : string :=
  NilZero.string_of_int (Z.to_int n).

End JsString.

Import JsString.

Definition dquote : string := String (ascii_of_nat 34) EmptyString.
Definition space : string := String (ascii_of_nat 32) EmptyString.

(** ** [getGogdlCommand]

    [getGOGdlBin] is imported from the utilities module; the path obtained
    by joining the values it returns is the parameter [gogdlBinPath]. *)

Definition quoteIfSpaced (gogdlFullPath : string) : string :=
  if includes gogdlFullPath space
  then dquote ++ gogdlFullPath ++ dquote
  else gogdlFullPath.

Definition keepPart (val : string) : bool :=
  truthy val && negb (startsWith val "--token").

Definition getGogdlCommand (gogdlBinPath : string)
    (commandParts : list string) : string :=
  let commandParts := List.filter keepPart commandParts in
  let gogdlFullPath := quoteIfSpaced gogdlBinPath in
  join space (gogdlFullPath :: commandParts).


(** ** Data model *)

(** Heap locations: a reference to a JavaScript object. *)
Abbreviation loc := nat (only parsing).

(** [InstalledInfo]: a locally installed title.  Optional fields of the
    interface are options. *)
Record InstalledInfo := mkInstalledInfo {
  appName : option string;
  install_path : string;
  executable : string;
  install_size : string;
  is_dlc : bool;
  version : option string;
  platform : string;
  buildId : option string;
  installedWithDLCs : option bool;
  versionEtag : option string
}.

Definition set_install_path (p : string) (i : InstalledInfo) : InstalledInfo :=
  {| appName := appName i; install_path := p; executable := executable i;
     install_size := install_size i; is_dlc := is_dlc i;
     version := version i; platform := platform i; buildId := buildId i;
     installedWithDLCs := installedWithDLCs i;
     versionEtag := versionEtag i |}.

Record Requirement := mkRequirement {
  req_title : string;
  req_minimum : string;
  req_recommended : option string
}.

Record About := mkAbout {
  description : option string;
  shortDescription : string
}.

Record ExtraInfo := mkExtraInfo {
  about : About;
  reqs : list Requirement
}.

(** [GameInfo], the unified record, over the representation [I] of its
    [install] field: a nested value in a persisted store, a reference on
    the object heap. *)
Record GameInfoOf (I : Type) := mkGameInfo {
  runner : string;
  store_url : string;
  developer : string;
  app_name : string;
  art_logo : option string;
  art_cover : string;
  art_square : string;
  cloud_save_enabled : bool;
  compatible_apps : list string;
  extra : ExtraInfo;
  folder_name : string;
  install : I;
  is_game : bool;
  is_installed : bool;
  is_ue_asset : bool;
  is_ue_plugin : bool;
  is_ue_project : bool;
  namespace : string;
  save_folder : string;
  title : string;
  canRunOffline : bool;
  is_mac_native : bool;
  is_linux_native : bool
}.

Arguments mkGameInfo {I}.
Arguments runner {I}.
Arguments store_url {I}.
Arguments developer {I}.
Arguments app_name {I}.
Arguments art_logo {I}.
Arguments art_cover {I}.
Arguments art_square {I}.
Arguments cloud_save_enabled {I}.
Arguments compatible_apps {I}.
Arguments extra {I}.
Arguments folder_name {I}.
Arguments install {I}.
Arguments is_game {I}.
Arguments is_installed {I}.
Arguments is_ue_asset {I}.
Arguments is_ue_plugin {I}.
Arguments is_ue_project {I}.
Arguments namespace {I}.
Arguments save_folder {I}.
Arguments title {I}.
Arguments canRunOffline {I}.
Arguments is_mac_native {I}.
Arguments is_linux_native {I}.

(** The persisted form and the heap form of a unified record. *)
Abbreviation GameInfo := (GameInfoOf InstalledInfo) (only parsing).
Abbreviation GameObj := (GameInfoOf loc) (only parsing).

(** Replace the [install] field, possibly changing its representation. *)
Definition with_install {I J : Type} (j : J) (g : GameInfoOf I) : GameInfoOf J :=
  mkGameInfo (runner g) (store_url g) (developer g) (app_name g)
    (art_logo g) (art_cover g) (art_square g) (cloud_save_enabled g)
    (compatible_apps g) (extra g) (folder_name g) j (is_game g)
    (is_installed g) (is_ue_asset g) (is_ue_plugin g) (is_ue_project g)
    (namespace g) (save_folder g) (title g) (canRunOffline g)
    (is_mac_native g) (is_linux_native g).

Definition set_is_installed {I : Type} (b : bool) (g : GameInfoOf I) : GameInfoOf I :=
  mkGameInfo (runner g) (store_url g) (developer g) (app_name g)
    (art_logo g) (art_cover g) (art_square g) (cloud_save_enabled g)
    (compatible_apps g) (extra g) (folder_name g) (install g) (is_game g)
    b (is_ue_asset g) (is_ue_plugin g) (is_ue_project g)
    (namespace g) (save_folder g) (title g) (canRunOffline g)
    (is_mac_native g) (is_linux_native g).

(** [GOGGameInfo]: an entry of the remote catalog ([gog_title] is its
    [title] field). *)
Record WorksOn := mkWorksOn {
  Windows : bool;
  Mac : bool;
  Linux : bool
}.

Record GOGGameInfo := mkGOGGameInfo {
  id : Z;
  gog_title : string;
  slug : string;
  url : string;
  image : string;
  worksOn : WorksOn
}.

(** One page of [getFilteredProducts]. *)
Record CatalogPage := mkCatalogPage {
  products : option (list GOGGameInfo);
  totalPages : nat;
  totalProducts : Z;
  moviesCount : Z
}.

(** Payload of the secondary metadata API (gamesdb). *)
Record GamesdbGame := mkGamesdbGame {
  developers : list string;            (* the [name] of each developer *)
  vertical_cover_url_format : string;
  summary_default : option string      (* [summary['*']] *)
}.

Record GamesdbData := mkGamesdbData {
  game : option GamesdbGame;
  etag : option string
}.

(** A gamesdb response: the [etag] response header and the payload. *)
Record GamesdbResponse := mkGamesdbResponse {
  headers_etag : option string;
  gamesdb_data : GamesdbData
}.

(** Payload of the per-title detail API: [_links.boxArtImage.href]. *)
Record GamesData := mkGamesData {
  links_boxArtImage_href : option string
}.

(** Payload of the downloads listing. *)
Record Installer := mkInstaller {
  os : string;
  installer_version : option string;
  language : string
}.

Record ProductData := mkProductData {
  downloads_installers : option (list Installer)
}.

(** Payload of the build listing. *)
Record BuildItem := mkBuildItem { link : option string }.
Record BuildsData := mkBuildsData { items : option (list BuildItem) }.

(** What an HTTP exchange produces before axios validates the status. *)
Inductive RawResponse (A : Type) : Type :=
  | NetworkError (message : string)
  | HttpResponse (status : nat) (data : A).
Arguments NetworkError {A}.
Arguments HttpResponse {A}.

Record Credentials := mkCredentials { access_token : string }.

Record CatalogHeaders := mkCatalogHeaders {
  Authorization : string;
  User_Agent : string
}.

(** The collaborators of the module: the session, the remote services,
    and the constant [fallBackImage]. *)
Record Env := mkEnv {
  isLoggedIn : bool;
  getCredentials : option Credentials;
  (* GET of a catalog URL with the session headers *)
  getFilteredProducts : string -> CatalogHeaders -> RawResponse CatalogPage;
  (* GET of a gamesdb URL with an optional [If-None-Match] header *)
  gamesdbRelease : string -> option string -> RawResponse GamesdbResponse;
  (* GET of an [api.gog.com/v2/games] URL *)
  gamesV2 : string -> RawResponse GamesData;
  (* GET of an [api.gog.com/products] URL *)
  productsApi : string -> RawResponse ProductData;
  (* GET of a build-listing URL *)
  buildsApi : string -> RawResponse BuildsData;
  (* GET of a build's metadata link with an optional [If-None-Match] *)
  buildMeta : option string -> option string -> RawResponse unit;
  fallBackImage : string
}.

(** ** Outcomes and the state of the module *)

Inductive JsError :=
  | TypeError (message : string)
  | AxiosError (message : string).

Inductive Outcome (A : Type) : Type :=
  | Ok (a : A)
  | Throw (e : JsError).
Arguments Ok {A}.
Arguments Throw {A}.

Inductive LogLevel := LDebug | LInfo | LWarning | LError.
Inductive LogPrefix := PGog | PBackend | PLegendary | PNone.

Record LogEntry := mkLogEntry {
  level : LogLevel;
  log_prefix : LogPrefix;
  message : list string
}.

Record LibraryStore := mkLibraryStore {
  games : option (list GameInfo);
  totalGames : option Z;
  totalMovies : option Z
}.

(** A JavaScript [Map]: keys are unique and keep their insertion order. *)
Definition JSMap (K V : Type) := list (K * V).

Record State := mkState {
  libraryStore : LibraryStore;
  apiInfoCache : gmap string GamesdbData;
  installedGamesStore : option (list InstalledInfo);
  gameHeap : list GameObj;
  installHeap : list InstalledInfo;
  library : JSMap string loc;
  installedGames : JSMap (option string) loc;
  log : list LogEntry
}.


Definition set_log (l : list LogEntry) (st : State) : State :=
  mkState (libraryStore st) (apiInfoCache st) (installedGamesStore st)
    (gameHeap st) (installHeap st) (library st) (installedGames st) l.

Definition set_gameHeap (h : list GameObj) (st : State) : State :=
  mkState (libraryStore st) (apiInfoCache st) (installedGamesStore st)
    h (installHeap st) (library st) (installedGames st) (log st).

Definition set_installHeap (h : list InstalledInfo) (st : State) : State :=
  mkState (libraryStore st) (apiInfoCache st) (installedGamesStore st)
    (gameHeap st) h (library st) (installedGames st) (log st).

Definition set_library (m : JSMap string loc) (st : State) : State :=
  mkState (libraryStore st) (apiInfoCache st) (installedGamesStore st)
    (gameHeap st) (installHeap st) m (installedGames st) (log st).

Definition set_installedGames (m : JSMap (option string) loc) (st : State) : State :=
  mkState (libraryStore st) (apiInfoCache st) (installedGamesStore st)
    (gameHeap st) (installHeap st) (library st) m (log st).

Definition set_libraryStore (s : LibraryStore) (st : State) : State :=
  mkState s (apiInfoCache st) (installedGamesStore st)
    (gameHeap st) (installHeap st) (library st) (installedGames st) (log st).

Definition set_apiInfoCache (c : gmap string GamesdbData) (st : State) : State :=
  mkState (libraryStore st) c (installedGamesStore st)
    (gameHeap st) (installHeap st) (library st) (installedGames st) (log st).

Definition set_installedGamesStore (a : option (list InstalledInfo)) (st : State) : State :=
  mkState (libraryStore st) (apiInfoCache st) a
    (gameHeap st) (installHeap st) (library st) (installedGames st) (log st).

(** Computations of the module: they read and update the state and either
    return or throw. *)
Definition M (A : Type) : Type := State -> Outcome (A * State).

Definition ret {A : Type} (a : A) : M A := fun st => Ok (a, st).

Definition bind {A B : Type} (c : M A) (k : A -> M B) : M B :=
  fun st =>
    match c st with
    | Ok (a, st') => k a st'
    | Throw e => Throw e
    end.

Definition throw {A : Type} (e : JsError) : M A := fun _ => Throw e.

Definition gets {A : Type} (f : State -> A) : M A := fun st => Ok (f st, st).

Definition modify (f : State -> State) : M unit := fun st => Ok (tt, f st).

(** Lift a computation that does not touch the state. *)
Definition lift {A : Type} (o : Outcome A) : M A :=
  fun st => match o with Ok a => Ok (a, st) | Throw e => Throw e end.

Declare Scope js_scope.
Delimit Scope js_scope with js.
Notation "'let*' x ':=' c 'in' k" := (bind c (fun x => k))
  (at level 10, x pattern, c at level 100, k at level 200) : js_scope.
Notation "c ';;' k" := (bind c (fun _ => k))
  (at level 100, k at level 200, right associativity) : js_scope.

Local Open Scope js_scope.

(** [for (const x of xs) { acc = body(acc, x) }] *)
Fixpoint forOf {A B : Type} (body : B -> A -> M B) (xs : list A) (acc : B) : M B :=
  match xs with
  | [] => ret acc
  | x :: xs' => let* acc' := body acc x in forOf body xs' acc'
  end.

(** *** The logger *)

Definition logWith (lv : LogLevel) (msg : list string) (p : LogPrefix) : M unit :=
  modify (fun st => set_log (log st ++ [mkLogEntry lv p msg]) st).

Definition logDebug := logWith LDebug.
Definition logInfo := logWith LInfo.
Definition logWarning := logWith LWarning.
Definition logError := logWith LError.

(** *** The object heap *)

Definition allocInstall (i : InstalledInfo) : M loc :=
  fun st => Ok (length (installHeap st),
                set_installHeap (installHeap st ++ [i]) st).

Definition allocGame (g : GameObj) : M loc :=
  fun st => Ok (length (gameHeap st),
                set_gameHeap (gameHeap st ++ [g]) st).

(** Reading a property through a reference. *)
Definition readGame (l : loc) : M GameObj :=
  fun st =>
    match gameHeap st !! l with
    | Some g => Ok (g, st)
    | None => Throw (TypeError "Cannot read properties of undefined")
    end.

Definition readInstall (l : loc) : M InstalledInfo :=
  fun st =>
    match installHeap st !! l with
    | Some i => Ok (i, st)
    | None => Throw (TypeError "Cannot read properties of undefined")
    end.

(** Assigning properties through a reference. *)
Definition writeGame (l : loc) (f : GameObj -> GameObj) : M unit :=
  fun st =>
    match gameHeap st !! l with
    | Some g => Ok (tt, set_gameHeap (<[l := f g]> (gameHeap st)) st)
    | None => Throw (TypeError "Cannot set properties of undefined")
    end.

Definition writeInstall (l : loc) (f : InstalledInfo -> InstalledInfo) : M unit :=
  fun st =>
    match installHeap st !! l with
    | Some i => Ok (tt, set_installHeap (<[l := f i]> (installHeap st)) st)
    | None => Throw (TypeError "Cannot set properties of undefined")
    end.

(** *** JavaScript [Map] operations *)

Section JSMapOps.
Context {K V : Type} `{EqDecision K}.

Fixpoint map_get (k : K) (m : JSMap K V) : option V :=
  match m with
  | [] => None
  | (k', v) :: m' => if decide (k' = k) then Some v else map_get k m'
  end.

(** [set] overwrites the value of a present key in place and appends an
    absent key. *)
Fixpoint map_set (k : K) (v : V) (m : JSMap K V) : JSMap K V :=
  match m with
  | [] => [(k, v)]
  | (k', v') :: m' =>
      if decide (k' = k) then (k', v) :: m' else (k', v') :: map_set k v m'
  end.

Definition map_values (m : JSMap K V) : list V := List.map snd m.
Definition map_keys (m : JSMap K V) : list K := List.map fst m.
End JSMapOps.

(** *** Reading and writing the persisted stores *)

(** Deserialising a unified record allocates the record and its [install]
    object. *)
Definition reviveGame (g : GameInfo) : M loc :=
  let* i := allocInstall (install g) in
  allocGame (with_install i g).

Fixpoint mapM {A B : Type} (f : A -> M B) (xs : list A) : M (list B) :=
  match xs with
  | [] => ret []
  | x :: xs' => let* y := f x in let* ys := mapM f xs' in ret (y :: ys)
  end.

(** [libraryStore.get('games')] *)
Definition libraryStore_get_games : M (option (list loc)) :=
  let* stored := gets (fun st => games (libraryStore st)) in
  match stored with
  | None => ret None
  | Some gs => let* ls := mapM reviveGame gs in ret (Some ls)
  end.

(** Serialising a unified record reads the record and its [install]
    object. *)
Definition snapshotGame (l : loc) : M GameInfo :=
  let* g := readGame l in
  let* i := readInstall (install g) in
  ret (with_install i g).

(** [libraryStore.set('games', gamesObjects)] *)
Definition libraryStore_set_games (gamesObjects : list loc) : M unit :=
  let* gs := mapM snapshotGame gamesObjects in
  modify (fun st =>
    set_libraryStore
      (mkLibraryStore (Some gs) (totalGames (libraryStore st))
         (totalMovies (libraryStore st))) st).

Definition libraryStore_set_totalGames (n : Z) : M unit :=
  modify (fun st =>
    set_libraryStore
      (mkLibraryStore (games (libraryStore st)) (Some n)
         (totalMovies (libraryStore st))) st).

Definition libraryStore_set_totalMovies (n : Z) : M unit :=
  modify (fun st =>
    set_libraryStore
      (mkLibraryStore (games (libraryStore st))
         (totalGames (libraryStore st)) (Some n)) st).

(** ** axios *)

(** The default [validateStatus] of axios. *)
Definition defaultValidateStatus (status : nat) : bool :=
  (200 <=? status)%nat && (status <? 300)%nat.

(** [axios.get]: the promise is fulfilled with the response when the
    status is accepted and rejected otherwise. *)
Definition axios_get {A : Type} (validateStatus : nat -> bool)
    (raw : RawResponse A) : Outcome (nat * A) :=
  match raw with
  | NetworkError msg => Throw (AxiosError msg)
  | HttpResponse status data =>
      if validateStatus status then Ok (status, data)
      else Throw (AxiosError "Request failed with status code")
  end.

Definition error_message (e : JsError) : string :=
  match e with TypeError m => m | AxiosError m => m end.

(** A value interpolated into a template literal. *)
Definition interpolate (o : option string) : string :=
  match o with Some s => s | None => "undefined" end.

(** [x || ''] for a string that may be undefined. *)
Definition or_empty (o : option string) : string :=
  match o with Some s => s | None => EmptyString end.

(** An optional string used as a condition: undefined and the empty string
    are falsy. *)
Definition truthy_opt (o : option string) : bool :=
  match o with Some s => truthy s | None => false end.

(** ** [GOGLibrary] *)

(** [installedGamesStore.get('installed') || []], as fresh objects. *)
Definition installedGamesStore_get_objects : M (list loc) :=
  let* stored := gets installedGamesStore in
  mapM allocInstall (default [] stored).

(** [refreshInstalled] *)
Definition refreshInstalled : M unit :=
  let* installedArray := installedGamesStore_get_objects in
  modify (set_installedGames []);;
  forOf (fun _ value =>
           let* v := readInstall value in
           modify (fun st =>
             set_installedGames
               (map_set (appName v) value (installedGames st)) st))
        installedArray tt.

(** [getGamesdbData(store, game_id, etag)]: the pair [(isUpdated, data)]. *)
Definition getGamesdbData (env : Env) (store game_id : string)
    (etag : option string) : bool * GamesdbData :=
  let url := "https://gamesdb.gog.com/platforms/" ++ store
             ++ "/external_releases/" ++ game_id in
  let headers := if truthy_opt etag then etag else None in
  match axios_get defaultValidateStatus (gamesdbRelease env url headers) with
  | Throw _ => (false, mkGamesdbData None None)
  | Ok (_, response) =>
      let resEtag := headers_etag response in
      (bool_decide (etag = resEtag),
       mkGamesdbData (game (gamesdb_data response)) resEtag)
  end.

(** [getGamesData(appName, lang)]: [null] when the request fails. *)
Definition getGamesData (env : Env) (appName : string)
    (lang : option string) : option GamesData :=
  let url := "https://api.gog.com/v2/games/" ++ appName
             ++ match lang with
                | Some l => l
                | None => "?locale=" ++ interpolate lang
                end in
  match axios_get defaultValidateStatus (gamesV2 env url) with
  | Throw _ => None
  | Ok (_, data) => Some data
  end.

(** The [install] object literal of a new unified record. *)
Definition emptyInstall : InstalledInfo :=
  {| appName := None; install_path := EmptyString;
     executable := EmptyString; install_size := EmptyString;
     is_dlc := false; version := None; platform := EmptyString;
     buildId := None; installedWithDLCs := None; versionEtag := None |}.

(** The object literal built by [gogToUnifiedInfo] from the entry, the
    values [(developer, verticalCover, horizontalCover, description)] it
    derived, and the [install] object. *)
Definition unifiedObject {I : Type} (info : GOGGameInfo)
    (derived : option string * string * string * option string)
    (installObject : I) : GameInfoOf I :=
  let '(developer, verticalCover, horizontalCover, description) := derived in
  {| runner := "gog";
     store_url := "https://gog.com" ++ url info;
     developer := or_empty developer;
     app_name := of_number (id info);
     art_logo := None;
     art_cover := horizontalCover;
     art_square := verticalCover;
     cloud_save_enabled := false;
     compatible_apps := [];
     extra := {| about := {| description := description;
                             shortDescription := EmptyString |};
                 reqs := [] |};
     folder_name := EmptyString;
     install := installObject;
     is_game := true;
     is_installed := false;
     is_ue_asset := false;
     is_ue_plugin := false;
     is_ue_project := false;
     namespace := slug info;
     save_folder := EmptyString;
     title := gog_title info;
     canRunOffline := true;
     is_mac_native := Mac (worksOn info);
     is_linux_native := Linux (worksOn info) |}.

(** [gogToUnifiedInfo(info, gamesdbData)] *)
Definition gogToUnifiedInfo (env : Env) (info : GOGGameInfo)
    (gamesdbData : option GamesdbData) : M loc :=
  let* derived :=
    match gamesdbData ≫= game with
    | Some g =>
        let developer := join ", " (developers g) in
        let verticalCover :=
          replace (replace (vertical_cover_url_format g) "{formatter}" EmptyString)
                  "{ext}" "jpg" in
        let horizontalCover := "https:" ++ image info ++ ".jpg" in
        ret (Some developer, verticalCover, horizontalCover, summary_default g)
    | None =>
        logWarning
          ["Unable to get covers from gamesdb for " ++ gog_title info
           ++ ". Trying to get it from api.gog.com"] PGog;;
        let apiData := getGamesData env (of_number (id info)) None in
        let* verticalCover :=
          match apiData ≫= links_boxArtImage_href with
          | Some href => ret href
          | None =>
              logWarning
                ["Couldn't get info from api.gog.com, Using fallback vertical image"]
                PGog;;
              ret (fallBackImage env)
          end in
        let horizontalCover := "https:" ++ image info ++ ".jpg" in
        ret (None, verticalCover, horizontalCover, None)
    end in
  let* installObject := allocInstall emptyInstall in
  allocGame (unifiedObject info derived installObject).

(** The catalog URL of the first page ([None]) and of page [p]. *)
Definition catalogUrl (page : option nat) : string :=
  "https://embed.gog.com/account/getFilteredProducts?mediaType=1&sortBy=title"
  ++ match page with
     | None => EmptyString
     | Some p => "&page=" ++ of_number (Z.of_nat p)
     end.

Definition catalogHeaders (credentials : Credentials) : CatalogHeaders :=
  {| Authorization := "Bearer " ++ access_token credentials;
     User_Agent := "GOGGalaxyClient/2.0.45.61 (GOG Galaxy)" |}.

(** The page loop of [sync]: pages [2 .. numberOfPages], one after the
    other; a failing request rejects. *)
Definition fetchFurtherPages (env : Env) (headers : CatalogHeaders)
    (numberOfPages : nat) (firstPage : list GOGGameInfo) : M (list GOGGameInfo) :=
  forOf (fun (gameApiArray : list GOGGameInfo) page =>
           logInfo ["Getting data for page"; of_number (Z.of_nat page)] PGog;;
           let* pageData :=
             lift (axios_get defaultValidateStatus
                     (getFilteredProducts env (catalogUrl (Some page)) headers)) in
           match products (snd pageData) with
           | Some ps => ret (gameApiArray ++ ps)%list
           | None => ret gameApiArray
           end)
        (seq 2 (numberOfPages - 1)) firstPage.

(** [gamesArray.find((value) => value.app_name == key)] *)
Fixpoint findGame (key : string) (gamesArray : list loc) : M (option loc) :=
  match gamesArray with
  | [] => ret None
  | l :: rest =>
      let* value := readGame l in
      if String.eqb (app_name value) key then ret (Some l)
      else findGame key rest
  end.

(** The body of the reconciliation loop of [sync] for one catalog entry;
    [gamesObjects] is the array being built. *)
Definition syncEntry (env : Env) (gamesArray : option (list loc))
    (gamesObjects : list loc) (game : GOGGameInfo) : M (list loc) :=
  let key := of_number (id game) in
  let* found :=
    match gamesArray with
    | Some arr => findGame key arr
    | None => ret None
    end in
  let* unifiedObject :=
    match found with
    | Some u => ret u
    | None =>
        let* cached := gets (fun st => apiInfoCache st !! key) in
        let* apiData :=
          match cached with
          | Some d => ret d
          | None =>
              let data := snd (getGamesdbData env "gog" key None) in
              modify (fun st =>
                set_apiInfoCache (<[key := data]> (apiInfoCache st)) st);;
              ret data
          end in
        gogToUnifiedInfo env game (Some apiData)
    end in
  let gamesObjects := (gamesObjects ++ [unifiedObject])%list in
  let* installedInfo :=
    gets (fun st => map_get (Some key) (installedGames st)) in
  (* Object.assign({}, unifiedObject) *)
  let* source := readGame unifiedObject in
  let* copyObject := allocGame source in
  match installedInfo with
  | Some i =>
      writeGame copyObject (set_is_installed true);;
      writeGame copyObject (with_install i)
  | None => ret tt
  end;;
  modify (fun st => set_library (map_set key copyObject (library st)) st);;
  ret gamesObjects.

(** [sync] *)
Definition sync (env : Env) : M unit :=
  if negb (isLoggedIn env) then ret tt
  else
    refreshInstalled;;
    match getCredentials env with
    | None => ret tt
    | Some credentials =>
        let headers := catalogHeaders credentials in
        logInfo ["Getting GOG library"] PGog;;
        let* games :=
          match axios_get defaultValidateStatus
                  (getFilteredProducts env (catalogUrl None) headers) with
          | Ok (_, data) => ret (Some data)
          | Throw e =>
              logError ["There was an error getting games library data";
                        error_message e] PGog;;
              ret None
          end in
        match games with
        | None => logError ["There was an error Loading games library"] PGog
        | Some games =>
            let* gameApiArray :=
              match products games with
              | Some ps =>
                  let numberOfPages := totalPages games in
                  logInfo ["Number of library pages:";
                           of_number (Z.of_nat numberOfPages)] PGog;;
                  fetchFurtherPages env headers numberOfPages ps
              | None => ret []
              end in
            let* gamesArray := libraryStore_get_games in
            let* gamesObjects :=
              forOf (syncEntry env gamesArray) gameApiArray [] in
            libraryStore_set_games gamesObjects;;
            libraryStore_set_totalGames (totalProducts games);;
            libraryStore_set_totalMovies (moviesCount games);;
            logInfo ["Saved games data"] PGog
        end
    end.

(** [getGameInfo(slug)] *)
Definition getGameInfo (slug : string) : M (option loc) :=
  gets (fun st => map_get slug (library st)).

(** [arr.findIndex(pred)]: [None] stands for [-1]. *)
Fixpoint findIndex {A : Type} (pred : A -> bool) (arr : list A) : option nat :=
  match arr with
  | [] => None
  | x :: arr' => if pred x then Some 0%nat else S <$> findIndex pred arr'
  end.

(** [value.appName == appName] *)
Definition appName_is (appName' : string) (value : InstalledInfo) : bool :=
  bool_decide (appName value = Some appName').

(** [changeGameInstallPath(appName, newInstallPath)].  The array read from
    the Installed Store is local to the call; the cached record and its
    [install] object are shared and are updated through their
    references. *)
Definition changeGameInstallPath (appName' newInstallPath : string) : M unit :=
  let* cachedGameData := gets (fun st => map_get appName' (library st)) in
  let* stored := gets installedGamesStore in
  let installedArray := default [] stored in
  let gameIndex := findIndex (appName_is appName') installedArray in
  let* installedArray :=
    match gameIndex with
    | Some i => ret (alter (set_install_path newInstallPath) i installedArray)
    | None => throw (TypeError "Cannot set properties of undefined")
    end in
  let* cached :=
    match cachedGameData with
    | Some c => readGame c
    | None => throw (TypeError "Cannot read properties of undefined")
    end in
  writeInstall (install cached) (set_install_path newInstallPath);;
  modify (set_installedGamesStore (Some installedArray)).

(** [getProductApi(appName, expand)]: the response, [null] on an error. *)
Definition getProductApi (env : Env) (appName' : option string)
    (expand : option (list string)) : option (nat * ProductData) :=
  let isExpanded :=
    match expand with
    | Some e => (0 <? length e)%nat
    | None => false
    end in
  let expandString :=
    "?expand=" ++ (if isExpanded then join "," (default [] expand)
                   else EmptyString) in
  let url := "https://api.gog.com/products/" ++ interpolate appName'
             ++ (if isExpanded then expandString else EmptyString) in
  match axios_get defaultValidateStatus (productsApi env url) with
  | Ok r => Some r
  | Throw _ => None
  end.

(** The loop of [checkForLinuxInstallerUpdate]: the comparison at the
    first installer for Linux, [undefined] ([None]) when there is none. *)
Fixpoint firstLinuxInstaller (installers : list Installer)
    (version' : option string) : option bool :=
  match installers with
  | [] => None
  | installer :: rest =>
      if String.eqb (os installer) "linux"
      then Some (bool_decide (installer_version installer = version'))
      else firstLinuxInstaller rest version'
  end.

(** [checkForLinuxInstallerUpdate(appName, version)] *)
Definition checkForLinuxInstallerUpdate (env : Env) (appName' : option string)
    (version' : option string) : Outcome (option bool) :=
  match getProductApi env appName' (Some ["downloads"]) with
  | None => Ok (Some false)
  | Some (_, data) =>
      match downloads_installers data with
      | Some installers => Ok (firstLinuxInstaller installers version')
      | None => Throw (TypeError "installers is not iterable")
      end
  end.

(** The status check passed to axios by [checkForGameUpdate]. *)
Definition validateStatus_200_304 (status : nat) : bool :=
  (status =? 200)%nat || (status =? 304)%nat.

(** The [If-None-Match] header of the conditional request. *)
Definition ifNoneMatch (etag' : option string) : option string :=
  if truthy_opt etag' then etag' else None.

(** [buildData.data?.items[0]?.link] *)
Definition firstBuildLink (buildData : BuildsData) : Outcome (option string) :=
  match items buildData with
  | None => Throw (TypeError "Cannot read properties of undefined")
  | Some [] => Ok None
  | Some (item :: _) => Ok (link item)
  end.

(** The build-listing URL of a title on a platform. *)
Definition buildsUrl (appName' : option string) (platform' : string) : string :=
  "https://content-system.gog.com/products/" ++ interpolate appName'
  ++ "/os/" ++ platform' ++ "/builds?generation=2".

(** [checkForGameUpdate(appName, etag, platform)] *)
Definition checkForGameUpdate (env : Env) (appName' etag' : option string)
    (platform' : string) : Outcome bool :=
  match axios_get defaultValidateStatus
          (buildsApi env (buildsUrl appName' platform')) with
  | Throw e => Throw e
  | Ok (_, buildData) =>
      match firstBuildLink buildData with
      | Throw e => Throw e
      | Ok metaUrl =>
          let headers := ifNoneMatch etag' in
          match axios_get validateStatus_200_304
                  (buildMeta env metaUrl headers) with
          | Throw e => Throw e
          | Ok (status, _) => Ok (status =? 200)%nat
          end
      end
  end.

(** [!x] for a value that is a boolean or undefined. *)
Definition not_js (x : option bool) : bool :=
  match x with Some b => negb b | None => true end.

(** The body of the loop of [listUpdateableGames] for one installed
    title. *)
Definition checkInstalled (env : Env) (updateable : list (option string))
    (ref : loc) : M (list (option string)) :=
  let* game := readInstall ref in
  if String.eqb (platform game) "linux" then
    let* upToDate :=
      lift (checkForLinuxInstallerUpdate env (appName game) (version game)) in
    if not_js upToDate then ret (updateable ++ [appName game])%list
    else ret updateable
  else
    let* hasUpdate :=
      lift (checkForGameUpdate env (appName game) (versionEtag game)
              (platform game)) in
    if hasUpdate then ret (updateable ++ [appName game])%list
    else ret updateable.

(** [listUpdateableGames()] *)
Definition listUpdateableGames (env : Env) : M (list (option string)) :=
  let* installed := gets (fun st => map_values (installedGames st)) in
  let* updateable := forOf (checkInstalled env) installed [] in
  logInfo ["Found " ++ of_number (Z.of_nat (length updateable))
           ++ " game(s) to update"] PGog;;
  ret updateable.

(** ** [GOGLibrary]: the installer listing *)

(** [getLinuxInstallersLanguages(appName)] *)
Definition getLinuxInstallersLanguages (env : Env) (appName' : option string)
    : Outcome (list string) :=
  match getProductApi env appName' (Some ["downloads"]) with
  | Some (_, data) =>
      match downloads_installers data with
      | Some installers =>
          let linuxInstallers :=
            List.filter (fun value => String.eqb (os value) "linux") installers in
          Ok (List.map language linuxInstallers)
      | None => Throw (TypeError "Cannot read properties of undefined")
      end
  | None => Ok ["en-US"]
  end.

(** What [getLinuxInstallerInfo] resolves to: an object with the version,
    [null] when the listing cannot be fetched, [undefined] when the loop
    ends without a Linux installer. *)
Inductive LinuxInstallerInfo :=
  | InstallerVersion (version' : option string)
  | InstallerNull
  | InstallerUndefined.

(** The loop of [getLinuxInstallerInfo]. *)
Fixpoint firstLinuxVersion (installers : list Installer) : LinuxInstallerInfo :=
  match installers with
  | [] => InstallerUndefined
  | installer :: rest =>
      if String.eqb (os installer) "linux"
      then InstallerVersion (installer_version installer)
      else firstLinuxVersion rest
  end.

(** [getLinuxInstallerInfo(appName)] *)
Definition getLinuxInstallerInfo (env : Env) (appName' : option string)
    : M LinuxInstallerInfo :=
  match getProductApi env appName' (Some ["downloads"]) with
  | Some (_, data) =>
      match downloads_installers data with
      | Some installers => ret (firstLinuxVersion installers)
      | None => throw (TypeError "installers is not iterable")
      end
  | None =>
      logError ["Couldn't get installer info"] PNone;;
      ret InstallerNull
  end.

(** ** [GOGLibrary]: system requirements *)

(** The [_embedded.supportedOperatingSystems] member of a payload of the
    per-title detail API. *)
Record RequirementItem := mkRequirementItem {
  item_name : string;
  item_description : option string
}.

Record RequirementSet := mkRequirementSet {
  set_requirements : list RequirementItem
}.

Record SupportedOperatingSystem := mkSupportedOperatingSystem {
  operatingSystem_name : string;
  systemRequirements : list RequirementSet
}.

(** The URL [getGamesData] requests. *)
Definition gamesDataUrl (appName' : string) (lang : option string) : string :=
  "https://api.gog.com/v2/games/" ++ appName'
  ++ match lang with
     | Some l => l
     | None => "?locale=" ++ interpolate lang
     end.

(** The loop of [createReqsArray] from index [i] on: one entry per minimum
    requirement with a description, the recommended description taken at
    the same index. *)
Fixpoint reqsFrom (i : nat) (minimum : list RequirementItem)
    (recommended : option RequirementSet) : list Requirement :=
  match minimum with
  | [] => []
  | item :: rest =>
      let title' := replace (item_name item) ":" EmptyString in
      let recommended' :=
        match recommended with
        | Some r =>
            match set_requirements r !! i with
            | Some item' => item_description item'
            | None => None
            end
        | None => None
        end in
      match item_description item with
      | Some minimum' =>
          if truthy minimum'
          then mkRequirement title' minimum' recommended'
               :: reqsFrom (S i) rest recommended
          else reqsFrom (S i) rest recommended
      | None => reqsFrom (S i) rest recommended
      end
  end.

(** [createReqsArray(appName, os)]; [embedded] gives, for the URL of a
    payload, its [_embedded.supportedOperatingSystems] member. *)
Definition createReqsArray (env : Env)
    (embedded : string -> option (list SupportedOperatingSystem))
    (appName' os' : string) : Outcome (list Requirement) :=
  match getGamesData env appName' None with
  | None => Throw (TypeError "Cannot read properties of null")
  | Some _ =>
      match embedded (gamesDataUrl appName' None) with
      | None => Throw (TypeError "Cannot read properties of undefined")
      | Some operatingSystems =>
          match List.find (fun value => String.eqb (operatingSystem_name value) os')
                  operatingSystems with
          | None => Ok []
          | Some requirements =>
              match systemRequirements requirements with
              | [] => Ok []
              | minimum :: others =>
                  let recommended := head others in
                  Ok (reqsFrom 0 (set_requirements minimum) recommended)
              end
          end
      end
  end.

(** ** The external downloader *)

Definition newline : string := String (ascii_of_nat 10) EmptyString.

Inductive Stream := Stdout | Stderr.

(** How a child process ends: it closes, or it cannot be run. *)
Inductive Ending :=
  | Closed
  | Failed (error' : string).

(** A run of the child process: the data events in the order they arrive,
    and how the run ends. *)
Record ChildRun := mkChildRun {
  chunks : list (Stream * string);
  ending : Ending
}.

(** The JSON document the downloader prints for [info]. *)
Record GogdlInfo := mkGogdlInfo {
  info_folder_name : string;
  info_dlcs : list string;
  info_versionName : string;
  info_buildId : string;
  info_disk_size : Z;
  info_download_size : Z;
  info_languages : list string;
  info_versionEtag : string
}.

(** The [goggame-<id>.info] document. *)
Record PlayTask := mkPlayTask {
  isPrimary : bool;
  workingDir : option string;
  task_path : string
}.

Record InfoFile := mkInfoFile {
  playTasks : option (list PlayTask)
}.

(** The host of the module: the platform, the downloader binary
    ([getGOGdlBin] and the path joined from its values), the process
    environment, the behaviour of a spawned child, the library functions
    [String.prototype.trim], [JSON.parse], [path.join] and [prettyBytes],
    and the file system apart from the content of its regular files:
    which paths are directories, which paths can be written or created
    (the directory exists and the permissions allow it), and the
    exception [fs] raises for an operation that fails on a path. *)
Record Host := mkHost {
  isMac : bool;
  gogdlBin : string;
  gogdlDir : string;
  gogdlFullPath : string;
  process_env : list (string * string);
  spawn : string -> list string -> string -> list (string * string) -> ChildRun;
  trim : string -> string;
  JSON_parse_info : string -> Outcome GogdlInfo;
  JSON_parse_infoFile : string -> Outcome InfoFile;
  path_join : string -> string -> string;
  prettyBytes : Z -> string;
  isDirectory : string -> bool;
  writable : string -> bool;
  fsError : string -> JsError
}.

(** The regular files of the host, by path. *)
Abbreviation Files := (gmap string string) (only parsing).

(** [existsSync(path)]: the path is a regular file or a directory; no
    entry has the empty path. *)
Definition existsSync (host : Host) (files : Files) (path : option string)
    : bool :=
  match path with
  | Some p =>
      truthy p && (bool_decide (is_Some (files !! p)) || isDirectory host p)
  | None => false
  end.

(** Whether a write to the path succeeds. *)
Definition canWrite (host : Host) (path : string) : bool :=
  negb (isDirectory host path) && writable host path.

(** [writeFileSync(path, data)] throws on a path that cannot be written. *)
Definition writeFileSync (host : Host) (path data : string) (files : Files)
    : Outcome Files :=
  if canWrite host path then Ok (<[path := data]> files)
  else Throw (fsError host path).

(** [appendFileSync(path, data)] creates the file when it is absent, and
    throws on a path that cannot be written. *)
Definition appendFileSync (host : Host) (path data : string) (files : Files)
    : Outcome Files :=
  if canWrite host path
  then Ok (<[path := default EmptyString (files !! path) ++ data]> files)
  else Throw (fsError host path).

(** [readFileSync(path)] throws on a path that is not a regular file. *)
Definition readFileSync (host : Host) (files : Files) (path : string)
    : Outcome string :=
  match files !! path with
  | Some content => Ok content
  | None => Throw (fsError host path)
  end.

(** *** Promises

    A promise of the module is resolved, is rejected, or never settles. *)
Inductive Settlement (A : Type) : Type :=
  | Resolved (a : A)
  | Rejected (e : JsError)
  | Pending.
Arguments Resolved {A}.
Arguments Rejected {A}.
Arguments Pending {A}.

(** Asynchronous computations of the module: they read and update the
    state, and settle or not. *)
Definition Async (A : Type) : Type := State -> Settlement (A * State).

Definition resolve {A : Type} (a : A) : Async A := fun st => Resolved (a, st).

(** [await]: the caller goes on when the promise is resolved, is rejected
    with it, and waits forever for a promise that never settles. *)
Definition await {A B : Type} (c : Async A) (k : A -> Async B) : Async B :=
  fun st =>
    match c st with
    | Resolved (a, st') => k a st'
    | Rejected e => Rejected e
    | Pending => Pending
    end.

(** Synchronous code inside an asynchronous function: an exception
    rejects the promise of the function. *)
Definition run {A : Type} (c : M A) : Async A :=
  fun st =>
    match c st with
    | Ok r => Resolved r
    | Throw e => Rejected e
    end.

(** The event handlers of a promise executor: an exception thrown by a
    handler is caught by nobody, and the promise never settles. *)
Definition listen {A : Type} (o : Outcome A) : Async A :=
  fun st =>
    match o with
    | Ok a => Resolved (a, st)
    | Throw _ => Pending
    end.

Declare Scope async_scope.
Delimit Scope async_scope with async.
Notation "'let*' x ':=' c 'in' k" := (await c (fun x => k))
  (at level 10, x pattern, c at level 100, k at level 200) : async_scope.
Notation "c ';;' k" := (await c (fun _ => k))
  (at level 100, k at level 200, right associativity) : async_scope.

Record ExecResult := mkExecResult {
  stdout : string;
  stderr : string;
  fullCommand : string;
  error : option string
}.

(** The data handlers of [runGogdlCommand] that write the log file, over
    the events of a run. *)
Fixpoint logChunks (host : Host) (logFile : string)
    (events : list (Stream * string)) (files : Files) : Outcome Files :=
  match events with
  | [] => Ok files
  | event :: rest =>
      match appendFileSync host logFile (snd event) files with
      | Ok files' => logChunks host logFile rest files'
      | Throw e => Throw e
      end
  end.

Definition collected (host : Host) (stream : Stream)
    (events : list (Stream * string)) : list string :=
  List.map (fun event => trim host (snd event))
    (List.filter (fun event =>
                    match fst event, stream with
                    | Stdout, Stdout | Stderr, Stderr => true
                    | _, _ => false
                    end) events).

Local Open Scope async_scope.

(** [runGogdlCommand(commandParts, logFile, env)] over the files of the
    host.  The log file is emptied before the promise is made, outside
    its [catch]; the data handlers append to it. *)
Definition runGogdlCommand (host : Host) (commandParts : list string)
    (logFile : option string) (env : option (list (string * string)))
    (files : Files) : Async (ExecResult * Files) :=
  let commandParts := List.filter truthy commandParts in
  let safeCommand := getGogdlCommand (gogdlFullPath host) commandParts in
  run (logDebug ["Running GOGDL command:"; safeCommand] PGog);;
  run (if truthy_opt logFile
       then logDebug ["Logging to file"; dquote ++ interpolate logFile ++ dquote]
              PGog
       else ret tt);;
  let* files :=
    run (if existsSync host files logFile
         then lift (writeFileSync host (interpolate logFile) EmptyString files)
         else ret files) in
  let child :=
    spawn host (gogdlBin host) commandParts (gogdlDir host)
      (default (process_env host) env) in
  let* files :=
    if truthy_opt logFile
    then listen (logChunks host (interpolate logFile) (chunks child) files)
    else resolve files in
  match ending child with
  | Closed =>
      resolve ({| stdout := join newline (collected host Stdout (chunks child));
                  stderr := join newline (collected host Stderr (chunks child));
                  fullCommand := safeCommand;
                  error := None |}, files)
  | Failed error' =>
      run (logError ["Error running GOGDL command " ++ dquote ++ safeCommand
                     ++ dquote ++ ": " ++ error'] PLegendary);;
      resolve ({| stdout := EmptyString; stderr := EmptyString;
                  fullCommand := safeCommand; error := Some error' |}, files)
  end.

(** ** [GOGLibrary]: install information and import *)

Record InstallInfoGame := mkInstallInfoGame {
  ig_app_name : string;
  ig_title : string;
  ig_owned_dlc : list string;
  ig_version : string;
  ig_launch_options : list string;
  ig_buildId : string
}.

Record InstallInfoManifest := mkInstallInfoManifest {
  im_disk_size : Z;
  im_download_size : Z;
  im_app_name : string;
  im_install_tags : list string;
  im_launch_exe : string;
  im_languages : list string;
  im_versionEtag : string
}.

(** [InstallInfo]; the members [platform_versions] and [prerequisites] are
    always [null]. *)
Record InstallInfo := mkInstallInfo {
  info_game : InstallInfoGame;
  info_manifest : InstallInfoManifest
}.

Definition set_folder_name {I : Type} (f : string) (g : GameInfoOf I) : GameInfoOf I :=
  mkGameInfo (runner g) (store_url g) (developer g) (app_name g)
    (art_logo g) (art_cover g) (art_square g) (cloud_save_enabled g)
    (compatible_apps g) (extra g) f (install g) (is_game g)
    (is_installed g) (is_ue_asset g) (is_ue_plugin g) (is_ue_project g)
    (namespace g) (save_folder g) (title g) (canRunOffline g)
    (is_mac_native g) (is_linux_native g).

(** The argument vector [getInstallInfo] builds. *)
Definition infoCommandParts (appName' token os' : string) : list string :=
  ["info"; appName'; "--token=" ++ token; "--lang=en-US"; "--os"; os'].

(** [getInstallInfo(appName)]; [None] is the [undefined] it returns
    without credentials. *)
Definition getInstallInfo (host : Host) (env : Env) (appName' : string)
    (files : Files) : Async (option InstallInfo * Files) :=
  match getCredentials env with
  | None =>
      run (logError ["No credentials, cannot get install info"] PNone);;
      resolve (None, files)
  | Some credentials =>
      let* gameData := run (gets (fun st => map_get appName' (library st))) in
      let* os' :=
        run (if isMac host then
               match gameData with
               | Some g =>
                   (let* o := readGame g in
                    ret (if is_mac_native o then "osx" else "windows"))%js
               | None => throw (TypeError "Cannot read properties of undefined")
               end
             else ret "windows") in
      let commandParts :=
        infoCommandParts appName' (access_token credentials) os' in
      let command := getGogdlCommand (gogdlFullPath host) commandParts in
      run (logInfo ["Getting game metadata:"; command] PGog);;
      let* res := runGogdlCommand host commandParts None None files in
      let files := snd res in
      run (match error (fst res) with
           | Some e =>
               logError ["Failed to get game metadata for"; appName' ++ ":"; e]
                 PGog
           | None => ret tt
           end);;
      let* gogInfo := run (lift (JSON_parse_info host (stdout (fst res)))) in
      let* stored := run (gets (fun st => games (libraryStore st))) in
      let* libraryArray :=
        run (match stored with
             | Some a => ret a
             | None => throw (TypeError "Cannot read properties of undefined")
             end) in
      let gameObjectIndex :=
        findIndex (fun value => String.eqb (app_name value) appName')
          libraryArray in
      let* libraryArray :=
        run (match gameObjectIndex with
             | Some i =>
                 ret (alter (set_folder_name (info_folder_name gogInfo)) i
                        libraryArray)
             | None => throw (TypeError "Cannot set properties of undefined")
             end) in
      let* g :=
        run (match gameData with
             | Some g => ret g
             | None => throw (TypeError "Cannot set properties of undefined")
             end) in
      let* cached := run (readGame g) in
      run (writeGame g (set_folder_name (info_folder_name gogInfo)));;
      run (modify (fun st =>
             set_libraryStore
               (mkLibraryStore (Some libraryArray) (totalGames (libraryStore st))
                  (totalMovies (libraryStore st))) st));;
      run (modify (fun st => set_library (map_set appName' g (library st)) st));;
      resolve (Some {| info_game :=
                         {| ig_app_name := appName';
                            ig_title := title cached;
                            ig_owned_dlc := info_dlcs gogInfo;
                            ig_version := info_versionName gogInfo;
                            ig_launch_options := [];
                            ig_buildId := info_buildId gogInfo |};
                       info_manifest :=
                         {| im_disk_size := info_disk_size gogInfo;
                            im_download_size := info_download_size gogInfo;
                            im_app_name := appName';
                            im_install_tags := [];
                            im_launch_exe := EmptyString;
                            im_languages := info_languages gogInfo;
                            im_versionEtag := info_versionEtag gogInfo |} |},
               files)
  end.

Local Close Scope async_scope.

(** [GOGImportData] *)
Record GOGImportData := mkGOGImportData {
  import_appName : string;
  import_versionName : string;
  import_platform : string;
  import_buildId : string;
  import_installedWithDlcs : bool
}.

(** [installedGamesStore.set('installed', Array.from(this.installedGames.values()))] *)
Definition installedGamesStore_set_from_map : M unit :=
  let* refs := gets (fun st => map_values (installedGames st)) in
  let* values := mapM readInstall refs in
  modify (set_installedGamesStore (Some values)).

Local Open Scope async_scope.

(** [importGame(data, path)] *)
Definition importGame (host : Host) (env : Env) (data : GOGImportData)
    (path : string) (files : Files) : Async (unit * Files) :=
  let* got := getInstallInfo host env (import_appName data) files in
  let files := snd got in
  let* info :=
    run (match fst got with
         | Some info => ret info
         | None => throw (TypeError "Cannot read properties of undefined")
         end) in
  let* installInfo :=
    run (allocInstall
           {| appName := Some (import_appName data);
              install_path := path;
              executable := EmptyString;
              install_size := prettyBytes host (im_disk_size (info_manifest info));
              is_dlc := false;
              version := Some (import_versionName data);
              platform := import_platform data;
              buildId := Some (import_buildId data);
              installedWithDLCs := Some (import_installedWithDlcs data);
              versionEtag := None |}) in
  run (modify (fun st =>
         set_installedGames
           (map_set (Some (import_appName data)) installInfo (installedGames st))
           st));;
  let* gameData :=
    run (gets (fun st => map_get (import_appName data) (library st))) in
  match gameData with
  | None => run (throw (TypeError "Cannot set properties of undefined"))
  | Some g =>
      run (writeGame g (with_install installInfo));;
      run (writeGame g (set_is_installed true));;
      run (modify (fun st =>
             set_library (map_set (import_appName data) g (library st)) st));;
      run installedGamesStore_set_from_map;;
      resolve (tt, files)
  end.

Local Close Scope async_scope.

(** [getExecutable(appName)] over the files of the host. *)
Definition getExecutable (host : Host) (appName' : string) (files : Files)
    : M string :=
  let* gameInfo := getGameInfo appName' in
  let infoFileName := "goggame-" ++ appName' ++ ".info" in
  let* g :=
    match gameInfo with
    | Some c => readGame c
    | None => throw (TypeError "Cannot read properties of null")
    end in
  let* i := readInstall (install g) in
  let infoFilePath := path_join host (install_path i) infoFileName in
  if existsSync host files (Some infoFilePath) then
    logInfo ["Loading playTask data from " ++ infoFilePath] PBackend;;
    let* fileData := lift (readFileSync host files infoFilePath) in
    let* jsonData := lift (JSON_parse_infoFile host fileData) in
    let* tasks :=
      match playTasks jsonData with
      | Some l => ret l
      | None => throw (TypeError "Cannot read properties of undefined")
      end in
    match List.find isPrimary tasks with
    | Some primary =>
        match workingDir primary with
        | Some dir =>
            if truthy dir then ret (path_join host dir (task_path primary))
            else ret (task_path primary)
        | None => ret (task_path primary)
        end
    | None => throw (TypeError "Cannot read properties of undefined")
    end
  else ret EmptyString.

(** ** Reference functions

    State-free readings of the code above, used to state its
    properties. *)

(** The value a heap reference to a unified record denotes: the record
    with its [install] object read through. *)
Definition snapshot (st : State) (l : loc) : option GameInfo :=
  g ← gameHeap st !! l;
  i ← installHeap st !! install g;
  Some (with_install i g).

(** The decision of the loop of [listUpdateableGames] for one installed
    title: whether its identifier is pushed. *)
Definition needsUpdate (env : Env) (game : InstalledInfo) : Outcome bool :=
  if String.eqb (platform game) "linux" then
    match checkForLinuxInstallerUpdate env (appName game) (version game) with
    | Ok upToDate => Ok (not_js upToDate)
    | Throw e => Throw e
    end
  else checkForGameUpdate env (appName game) (versionEtag game) (platform game).

(** The in-memory installed map is well formed when its keys are distinct
    and every key is the [appName] of the object it refers to. *)
Definition installed_wf (st : State) : Prop :=
  NoDup (map_keys (installedGames st))
  /\ forall k ref, (k, ref) ∈ installedGames st ->
       exists g, installHeap st !! ref = Some g /\ appName g = k.

(** The values [gogToUnifiedInfo] derives from the secondary metadata, or
    from the per-title detail API and the fallback image without it. *)
Definition derivedValues (env : Env) (info : GOGGameInfo)
    (gamesdbData : option GamesdbData)
    : option string * string * string * option string :=
  match gamesdbData ≫= game with
  | Some g =>
      (Some (join ", " (developers g)),
       replace (replace (vertical_cover_url_format g) "{formatter}" EmptyString)
               "{ext}" "jpg",
       "https:" ++ image info ++ ".jpg",
       summary_default g)
  | None =>
      (None,
       match getGamesData env (of_number (id info)) None
             ≫= links_boxArtImage_href with
       | Some href => href
       | None => fallBackImage env
       end,
       "https:" ++ image info ++ ".jpg",
       None)
  end.

(** The value of the record [gogToUnifiedInfo] returns. *)
Definition unifiedValue (env : Env) (info : GOGGameInfo)
    (gamesdbData : option GamesdbData) : GameInfo :=
  unifiedObject info (derivedValues env info gamesdbData) emptyInstall.

(** The secondary metadata [sync] uses for a title: the cached payload, or
    the one it fetches. *)
Definition apiDataFor (env : Env) (cache : gmap string GamesdbData)
    (key : string) : GamesdbData :=
  match cache !! key with
  | Some d => d
  | None => snd (getGamesdbData env "gog" key None)
  end.

(** The first record of a persisted catalog array with a given
    identifier. *)
Definition findStored (key : string) (stored : option (list GameInfo))
    : option GameInfo :=
  stored ≫= List.find (fun v => String.eqb (app_name v) key).

(** The record [sync] persists for a catalog entry, given the catalog
    array and the metadata cache it started from. *)
Definition persistedValue (env : Env) (stored : option (list GameInfo))
    (cache : gmap string GamesdbData) (game : GOGGameInfo) : GameInfo :=
  match findStored (of_number (id game)) stored with
  | Some r => r
  | None =>
      unifiedValue env game
        (Some (apiDataFor env cache (of_number (id game))))
  end.

(** The catalog entries pages [pages] add to [acc]. *)
Fixpoint furtherPages (env : Env) (headers : CatalogHeaders)
    (pages : list nat) (acc : list GOGGameInfo) : Outcome (list GOGGameInfo) :=
  match pages with
  | [] => Ok acc
  | page :: rest =>
      match axios_get defaultValidateStatus
              (getFilteredProducts env (catalogUrl (Some page)) headers) with
      | Throw e => Throw e
      | Ok (_, data) =>
          furtherPages env headers rest
            (match products data with
             | Some ps => (acc ++ ps)%list
             | None => acc
             end)
      end
  end.

(** The merged catalog array, given the first page. *)
Definition remoteCatalog (env : Env) (headers : CatalogHeaders)
    (first : CatalogPage) : Outcome (list GOGGameInfo) :=
  match products first with
  | Some ps => furtherPages env headers (seq 2 (totalPages first - 1)) ps
  | None => Ok []
  end.



(** The identifier of a catalog entry. *)
Definition entryKey (game : GOGGameInfo) : string := of_number (id game).

Definition pageLog (page : nat) : LogEntry :=
  mkLogEntry LInfo PGog ["Getting data for page"; of_number (Z.of_nat page)].

(** The metadata cache during a [sync] that started from [cache0]: a
    present entry is the payload [sync] uses for the title, and only
    entries absent from [cache0] can be absent. *)
Definition cache_ok (env : Env) (cache0 : gmap string GamesdbData)
    (s : State) : Prop :=
  (forall key d, apiInfoCache s !! key = Some d -> d = apiDataFor env cache0 key)
  /\ (forall key, apiInfoCache s !! key = None -> cache0 !! key = None).

(** The array [sync] read from the Library Store: its references denote
    the stored records. *)
Definition array_ok (stored : option (list GameInfo))
    (gamesArray : option (list loc)) (s : State) : Prop :=
  match stored, gamesArray with
  | Some gs, Some ls => Forall2 (fun l v => snapshot s l = Some v) ls gs
  | None, None => True
  | _, _ => False
  end.

(** Two installed records that agree on every field but [install_path]. *)
Definition same_but_install_path (r r' : InstalledInfo) : Prop :=
  appName r' = appName r
  /\ executable r' = executable r
  /\ install_size r' = install_size r
  /\ is_dlc r' = is_dlc r
  /\ version r' = version r
  /\ platform r' = platform r
  /\ buildId r' = buildId r
  /\ installedWithDLCs r' = installedWithDLCs r
  /\ versionEtag r' = versionEtag r.

(** Whether a log entry mentions a text. *)
Definition mentions (text : string) (entry : LogEntry) : bool :=
  existsb (fun m => includes m text) (message entry).

(** The installed map [refreshInstalled] builds over the records
    allocated from [base] on. *)
Fixpoint buildInstalled (base : nat) (rs : list InstalledInfo)
    (m : JSMap (option string) loc) : JSMap (option string) loc :=
  match rs with
  | [] => m
  | r :: rs' => buildInstalled (S base) rs' (map_set (appName r) base m)
  end.

(** The index of the last record with a given [appName]. *)
Fixpoint lastIndex (k : option string) (rs : list InstalledInfo) : option nat :=
  match rs with
  | [] => None
  | r :: rs' =>
      match lastIndex k rs' with
      | Some i => Some (S i)
      | None => if decide (appName r = k) then Some 0%nat else None
      end
  end.

(** The record the installed map holds for a key. *)
Definition installedRecord (st : State) (k : option string)
    : option InstalledInfo :=
  i ← map_get k (installedGames st); installHeap st !! i.

(** The cached record of a title. *)
Definition cachedRecord (st : State) (k : string) : option GameObj :=
  c ← map_get k (library st); gameHeap st !! c.

(** The data of the events of a run, in order. *)
Definition chunkData (events : list (Stream * string)) : string :=
  String.concat EmptyString (List.map snd events).

(** Whether the check of the installed object behind a reference asks
    for an update. *)
Definition wantsUpdate (env : Env) (st : State) (ref : loc) : bool :=
  match installHeap st !! ref with
  | Some g =>
      match needsUpdate env g with
      | Ok b => b
      | Throw _ => false
      end
  | None => false
  end.

(** The keys of the installed map whose check asks for an update, in the
    order of the map. *)
Definition updateableKeys (env : Env) (st : State) : list (option string) :=
  List.map fst
    (List.filter (fun kv => wantsUpdate env st (snd kv)) (installedGames st)).

(** The description of the recommended requirement at an index:
    [recommended && recommended.requirements[i]?.description]. *)
Definition recommendedAt (recommended : option RequirementSet) (i : nat)
    : option string :=
  r ← recommended; item ← set_requirements r !! i; item_description item.

(** An environment with another session. *)
Definition withSession (loggedIn : bool) (credentials : option Credentials)
    (env : Env) : Env :=
  {| isLoggedIn := loggedIn;
     getCredentials := credentials;
     getFilteredProducts := getFilteredProducts env;
     gamesdbRelease := gamesdbRelease env;
     gamesV2 := gamesV2 env;
     productsApi := productsApi env;
     buildsApi := buildsApi env;
     buildMeta := buildMeta env;
     fallBackImage := fallBackImage env |}.

(** * Sample inputs *)

Definition sampleInfoCommand (token : string) : list string :=
  ["info"; "123"; "--token=" ++ token; "--lang=en-US"].

Definition linuxTitle (name ver : string) : InstalledInfo :=
  {| appName := Some name; install_path := "/games/" ++ name;
     executable := "start.sh"; install_size := "1 GB"; is_dlc := false;
     version := Some ver; platform := "linux"; buildId := None;
     installedWithDLCs := Some false; versionEtag := None |}.

Definition windowsTitle (name tag : string) : InstalledInfo :=
  {| appName := Some name; install_path := "/games/" ++ name;
     executable := "game.exe"; install_size := "2 GB"; is_dlc := false;
     version := Some "1.0"; platform := "windows"; buildId := Some "b1";
     installedWithDLCs := Some false; versionEtag := Some tag |}.

Definition emptyState : State :=
  mkState (mkLibraryStore None None None) ∅ None [] [] [] [] [].

(** A server for the update checks: title 10 lists a Linux installer of
    version 1.0, title 11 one of version 1.1, title 12 cannot be fetched,
    title 13 lists no Linux installer; the build metadata of every title
    has the entity tag [v2]. *)
Definition updateEnv : Env :=
  {| isLoggedIn := true;
     getCredentials := Some (mkCredentials "token");
     getFilteredProducts := fun _ _ => NetworkError "offline";
     gamesdbRelease := fun _ _ => NetworkError "offline";
     gamesV2 := fun _ => NetworkError "offline";
     productsApi := fun url =>
       if String.eqb url "https://api.gog.com/products/10?expand=downloads"
       then HttpResponse 200
              (mkProductData (Some [mkInstaller "windows" (Some "2.0") "en-US";
                                    mkInstaller "linux" (Some "1.0") "en-US"]))
       else if String.eqb url "https://api.gog.com/products/11?expand=downloads"
       then HttpResponse 200
              (mkProductData (Some [mkInstaller "linux" (Some "1.1") "en-US"]))
       else if String.eqb url "https://api.gog.com/products/13?expand=downloads"
       then HttpResponse 200
              (mkProductData (Some [mkInstaller "windows" (Some "1.0") "en-US"]))
       else NetworkError "offline";
     buildsApi := fun _ =>
       HttpResponse 200 (mkBuildsData (Some [mkBuildItem (Some "https://cdn/meta")]));
     buildMeta := fun _ header =>
       if bool_decide (header = Some "v2") then HttpResponse 304 tt
       else HttpResponse 200 tt;
     fallBackImage := "fallback.jpg" |}.

Definition updateStore : list InstalledInfo :=
  [linuxTitle "10" "1.0"; linuxTitle "11" "1.0"; linuxTitle "12" "1.0";
   linuxTitle "13" "1.0"; windowsTitle "20" "v2"; windowsTitle "21" "v1"].

(** The module state after [refreshInstalled] on that Installed Store. *)
Definition updateState : State :=
  Eval vm_compute in
    match refreshInstalled (set_installedGamesStore (Some updateStore) emptyState) with
    | Ok (_, st) => st
    | Throw _ => emptyState
    end.

(** A catalog server with two pages and three titles; the secondary
    metadata knows every title. *)
Definition catalogEntry (n : Z) (name : string) : GOGGameInfo :=
  {| id := n; gog_title := name; slug := "slug-" ++ name;
     url := "/game/" ++ name; image := "//images.gog.com/" ++ name;
     worksOn := mkWorksOn true false true |}.

Definition syncEnv : Env :=
  {| isLoggedIn := true;
     getCredentials := Some (mkCredentials "token");
     getFilteredProducts := fun url _ =>
       if String.eqb url (catalogUrl None)
       then HttpResponse 200
              (mkCatalogPage (Some [catalogEntry 1 "One"]) 2 3 0)
       else if String.eqb url (catalogUrl (Some 2%nat))
       then HttpResponse 200
              (mkCatalogPage (Some [catalogEntry 2 "Two"; catalogEntry 3 "Three"])
                 2 3 0)
       else NetworkError "no such page";
     gamesdbRelease := fun _ _ =>
       HttpResponse 200
         (mkGamesdbResponse (Some "e1")
            (mkGamesdbData
               (Some (mkGamesdbGame ["A"; "B"] "https://covers/{formatter}x.{ext}"
                        (Some "A game")))
               None));
     gamesV2 := fun _ => NetworkError "offline";
     productsApi := fun _ => NetworkError "offline";
     buildsApi := fun _ => NetworkError "offline";
     buildMeta := fun _ _ => NetworkError "offline";
     fallBackImage := "fallback.jpg" |}.

(** Title 1 is installed. *)
Definition syncState : State :=
  set_installedGamesStore (Some [windowsTitle "1" "v1"]) emptyState.

(** The module state after [sync] against that server. *)
Definition syncedState : State :=
  Eval vm_compute in
    match sync syncEnv syncState with
    | Ok (_, st) => st
    | Throw _ => emptyState
    end.

(** The module state after the install path of title 1 is changed. *)
Definition movedState : State :=
  Eval vm_compute in
    match changeGameInstallPath "1" "/mnt/games/one" syncedState with
    | Ok (_, st) => st
    | Throw _ => emptyState
    end.


(** A catalog that lists the identifier 1 twice, with different titles. *)
Definition duplicateEnv : Env :=
  {| isLoggedIn := true;
     getCredentials := Some (mkCredentials "token");
     getFilteredProducts := fun url _ =>
       if String.eqb url (catalogUrl None)
       then HttpResponse 200
              (mkCatalogPage (Some [catalogEntry 1 "One"; catalogEntry 1 "Uno"])
                 1 2 0)
       else NetworkError "no such page";
     gamesdbRelease := fun _ _ => NetworkError "offline";
     gamesV2 := fun _ => NetworkError "offline";
     productsApi := fun _ => NetworkError "offline";
     buildsApi := fun _ => NetworkError "offline";
     buildMeta := fun _ _ => NetworkError "offline";
     fallBackImage := "fallback.jpg" |}.

(** The titles of a persisted catalog array. *)
Definition storedTitles (st : State) : option (list string) :=
  List.map title <$> games (libraryStore st).

(** A host whose downloader prints one JSON document for [info] and
    cannot be run for any other command. *)
Definition sampleInfoJson : string := "{folder_name: One}".

Definition sampleGogdlInfo : GogdlInfo :=
  {| info_folder_name := "One"; info_dlcs := ["1001"];
     info_versionName := "1.2"; info_buildId := "b7";
     info_disk_size := 2048; info_download_size := 1024;
     info_languages := ["en-US"]; info_versionEtag := "v2" |}.

Definition sampleHost : Host :=
  {| isMac := false;
     gogdlBin := "gogdl";
     gogdlDir := "/opt/heroic/bin";
     gogdlFullPath := "/opt/heroic/bin/gogdl";
     process_env := [("HOME", "/home/user")];
     spawn := fun _ argv _ _ =>
       match argv with
       | "info" :: _ =>
           mkChildRun [(Stderr, "warming up"); (Stdout, sampleInfoJson)] Closed
       | _ => mkChildRun [(Stderr, "usage")] (Failed "spawn ENOENT")
       end;
     trim := fun s => s;
     JSON_parse_info := fun s =>
       if String.eqb s sampleInfoJson then Ok sampleGogdlInfo
       else Throw (TypeError "Unexpected end of JSON input");
     JSON_parse_infoFile := fun s =>
       if String.eqb s "tasks"
       then Ok (mkInfoFile
                  (Some [mkPlayTask false None "readme.txt";
                         mkPlayTask true (Some "bin") "game.exe";
                         mkPlayTask true None "other.exe"]))
       else Throw (TypeError "Unexpected token");
     path_join := fun a b => a ++ "/" ++ b;
     prettyBytes := fun n => of_number n ++ " B";
     isDirectory := fun p => String.eqb p "/var/log";
     writable := fun p => negb (String.eqb p "/etc/gogdl.log");
     fsError := fun p => TypeError ("EACCES: permission denied, open " ++ p) |}.

(** A host on which the downloader cannot be run. *)
Definition failingHost : Host :=
  {| isMac := false;
     gogdlBin := "gogdl";
     gogdlDir := "/opt/heroic/bin";
     gogdlFullPath := "/opt/heroic/bin/gogdl";
     process_env := [("HOME", "/home/user")];
     spawn := fun _ _ _ _ => mkChildRun [] (Failed "spawn ENOENT");
     trim := trim sampleHost;
     JSON_parse_info := JSON_parse_info sampleHost;
     JSON_parse_infoFile := JSON_parse_infoFile sampleHost;
     path_join := path_join sampleHost;
     prettyBytes := prettyBytes sampleHost;
     isDirectory := isDirectory sampleHost;
     writable := writable sampleHost;
     fsError := fsError sampleHost |}.

Definition sampleImport : GOGImportData :=
  {| import_appName := "2"; import_versionName := "1.2";
     import_platform := "windows"; import_buildId := "b7";
     import_installedWithDlcs := false |}.

(** The module state after [getInstallInfo] for title 2 on [sampleHost]. *)
Definition infoState : State :=
  Eval vm_compute in
    match getInstallInfo sampleHost syncEnv "2" ∅ syncedState with
    | Resolved (_, st) => st
    | _ => emptyState
    end.

(** The module state after title 2 is imported at [/games/two], and the
    files of a host that holds its info file. *)
Definition importedState : State :=
  Eval vm_compute in
    match importGame sampleHost syncEnv sampleImport "/games/two" ∅ syncedState with
    | Resolved (_, st) => st
    | _ => emptyState
    end.

Definition infoFiles : gmap string string :=
  {[ "/games/two/goggame-2.info" := "tasks" ]}.

(** A metadata server that honours the conditional request: it answers
    304 to the current entity tag and the payload to anything else. *)
Definition conditionalEnv : Env :=
  {| isLoggedIn := true;
     getCredentials := Some (mkCredentials "token");
     getFilteredProducts := fun _ _ => NetworkError "offline";
     gamesdbRelease := fun _ header =>
       if bool_decide (header = Some "e2")
       then HttpResponse 304
              (mkGamesdbResponse (Some "e2") (mkGamesdbData None None))
       else HttpResponse 200
              (mkGamesdbResponse (Some "e2")
                 (mkGamesdbData
                    (Some (mkGamesdbGame ["A"] "https://covers/x.{ext}" None))
                    None));
     gamesV2 := fun _ => NetworkError "offline";
     productsApi := fun _ => NetworkError "offline";
     buildsApi := fun _ => NetworkError "offline";
     buildMeta := fun _ _ => NetworkError "offline";
     fallBackImage := "fallback.jpg" |}.

(** The catalog server of [syncEnv], announcing a third page it cannot
    serve. *)
Definition truncatedEnv : Env :=
  {| isLoggedIn := true;
     getCredentials := Some (mkCredentials "token");
     getFilteredProducts := fun url headers =>
       if String.eqb url (catalogUrl None)
       then HttpResponse 200
              (mkCatalogPage (Some [catalogEntry 1 "One"]) 3 3 0)
       else getFilteredProducts syncEnv url headers;
     gamesdbRelease := gamesdbRelease syncEnv;
     gamesV2 := gamesV2 syncEnv;
     productsApi := productsApi syncEnv;
     buildsApi := buildsApi syncEnv;
     buildMeta := buildMeta syncEnv;
     fallBackImage := fallBackImage syncEnv |}.

(** A detail API that answers for every title, and a payload with the
    requirements of Windows: the second minimum requirement has no
    description, and only two recommended requirements are listed. *)
Definition reqsEnv : Env :=
  {| isLoggedIn := true;
     getCredentials := Some (mkCredentials "token");
     getFilteredProducts := fun _ _ => NetworkError "offline";
     gamesdbRelease := fun _ _ => NetworkError "offline";
     gamesV2 := fun _ => HttpResponse 200 (mkGamesData None);
     productsApi := fun _ => NetworkError "offline";
     buildsApi := fun _ => NetworkError "offline";
     buildMeta := fun _ _ => NetworkError "offline";
     fallBackImage := "fallback.jpg" |}.

Definition sampleMinimum : RequirementSet :=
  mkRequirementSet
    [mkRequirementItem "System:" (Some "Windows 7");
     mkRequirementItem "Processor:" None;
     mkRequirementItem "Memory:" (Some "2 GB")].

Definition sampleRecommended : RequirementSet :=
  mkRequirementSet
    [mkRequirementItem "System:" (Some "Windows 10");
     mkRequirementItem "Processor:" (Some "3 GHz")].

Definition sampleEmbedded (url : string)
    : option (list SupportedOperatingSystem) :=
  Some [mkSupportedOperatingSystem "osx" [];
        mkSupportedOperatingSystem "windows" [sampleMinimum; sampleRecommended]].

(** * Properties *)

(** ** Strings *)

Example getGogdlCommand_info :
  getGogdlCommand "/opt/gogdl" (sampleInfoCommand "SECRET")
  = "/opt/gogdl info 123 --lang=en-US".
Proof. reflexivity. Qed.

Example getGogdlCommand_spaced_path :
  getGogdlCommand "/opt/my tools/gogdl" ["update"; EmptyString; "--token"]
  = dquote ++ "/opt/my tools/gogdl" ++ dquote ++ " update".
Proof. reflexivity. Qed.

Example replace_first_only :
  replace "a{x}b{x}" "{x}" "-" = "a-b{x}".
Proof. reflexivity. Qed.

Example of_number_samples :
  of_number 1207658924 = "1207658924" /\ of_number 0 = "0".
Proof. split; reflexivity. Qed.

Lemma prefix_app_sep (sub a b : string) (c : ascii) :
  c ∉ chars sub ->
  String.prefix sub (a ++ String c b) = String.prefix sub a.
Proof.
  revert a. induction sub as [|x sub IH]; intros a Hc;
    [destruct a; reflexivity|].
  simpl in Hc. apply not_elem_of_cons in Hc as [Hx Hsub].
  destruct a as [|y a]; simpl.
  - destruct (ascii_dec x c); [congruence | reflexivity].
  - destruct (ascii_dec x y); [apply IH; assumption | reflexivity].
Qed.

Lemma includes_app_sep (sub a b : string) (c : ascii) :
  c ∉ chars sub ->
  includes (a ++ String c b) sub = includes a sub || includes b sub.
Proof.
  intros Hc. induction a as [|y a IH].
  - change (EmptyString ++ String c b) with (String c b).
    cbn [includes].
    rewrite <- (prefix_app_sep sub EmptyString b c Hc). reflexivity.
  - change (String y a ++ String c b) with (String y (a ++ String c b)).
    cbn [includes]. rewrite IH.
    change (String y (a ++ String c b)) with (String y a ++ String c b).
    rewrite (prefix_app_sep sub (String y a) b c Hc).
    rewrite orb_assoc. reflexivity.
Qed.

Lemma includes_empty (sub : string) :
  sub <> EmptyString -> includes EmptyString sub = false.
Proof. destruct sub; [congruence | reflexivity]. Qed.

(** A needle without a space occurs in a joined command exactly when it
    occurs in one of the joined parts. *)
Lemma includes_join_space (sub : string) (parts : list string) :
  sub <> EmptyString -> ascii_of_nat 32 ∉ chars sub ->
  includes (join space parts) sub = existsb (fun a => includes a sub) parts.
Proof.
  intros Hne Hsp. induction parts as [|a parts IH].
  - simpl. apply includes_empty; assumption.
  - destruct parts as [|b parts].
    + simpl. rewrite orb_false_r. reflexivity.
    + change (join space (a :: b :: parts))
        with (a ++ String (ascii_of_nat 32) (join space (b :: parts))).
      rewrite includes_app_sep by assumption.
      rewrite IH. reflexivity.
Qed.

Lemma includes_quoteIfSpaced (sub path : string) :
  ascii_of_nat 34 ∉ chars sub -> sub <> EmptyString ->
  includes path sub = false -> includes (quoteIfSpaced path) sub = false.
Proof.
  intros Hq Hne Hp. unfold quoteIfSpaced.
  destruct (includes path space); [|assumption].
  change (dquote ++ path ++ dquote)
    with (EmptyString ++ String (ascii_of_nat 34) (path ++ String (ascii_of_nat 34) EmptyString)).
  rewrite !includes_app_sep by assumption.
  rewrite Hp, includes_empty by assumption. reflexivity.
Qed.

Lemma keepPart_not_token (a : string) :
  keepPart a = true -> startsWith a "--token" = false /\ a <> EmptyString.
Proof.
  unfold keepPart. intros H. apply andb_prop in H as [Ht Hs].
  split.
  - apply negb_true_iff. assumption.
  - destruct a; [discriminate | congruence].
Qed.

(** A secret that occurs neither in the binary path nor in any argument
    other than the token arguments does not occur in the command. *)
Lemma getGogdlCommand_hides (path secret : string) (parts : list string) :
  secret <> EmptyString ->
  ascii_of_nat 32 ∉ chars secret -> ascii_of_nat 34 ∉ chars secret ->
  includes path secret = false ->
  (forall a, In a parts -> startsWith a "--token" = false ->
             includes a secret = false) ->
  includes (getGogdlCommand path parts) secret = false.
Proof.
  intros Hne Hsp Hq Hpath Hparts. unfold getGogdlCommand.
  rewrite includes_join_space by assumption.
  simpl. rewrite includes_quoteIfSpaced by assumption. simpl.
  apply not_true_iff_false. intros Hex.
  apply existsb_exists in Hex as (a & Hin & Ha).
  apply filter_In in Hin as [Hin Hkeep].
  apply keepPart_not_token in Hkeep as [Hk _].
  rewrite (Hparts a Hin Hk) in Ha. discriminate.
Qed.

Lemma keepPart_token (t : string) : keepPart ("--token" ++ t) = false.
Proof. destruct t; reflexivity. Qed.

Lemma filter_keepPart_token (pre post : list string) (t : string) :
  List.filter keepPart (pre ++ ("--token" ++ t) :: post)
  = List.filter keepPart (pre ++ post).
Proof.
  rewrite !List.filter_app. cbn [List.filter].
  rewrite keepPart_token. reflexivity.
Qed.

(** C5: the command string is built from the quoted binary path and the
    arguments that are non-empty and do not start with [--token], in
    order; for [info 123 --token=SECRET --lang=en-US] it is the path
    followed by [info 123 --lang=en-US], it contains that text, it does not
    contain [SECRET] (the binary path not containing it), and it is the
    same for every value of the token argument. *)
Theorem getGogdlCommand_redacts_token (path : string) :
  (forall parts : list string,
     exists args,
       getGogdlCommand path parts = join space (quoteIfSpaced path :: args)
       /\ args = List.filter keepPart parts
       /\ Forall (fun a => startsWith a "--token" = false) args
       /\ (forall a, In a args <->
                     In a parts /\ a <> EmptyString
                     /\ startsWith a "--token" = false))
  /\ getGogdlCommand path (sampleInfoCommand "SECRET")
     = quoteIfSpaced path ++ " info 123 --lang=en-US"
  /\ includes (getGogdlCommand path (sampleInfoCommand "SECRET"))
       "info 123 --lang=en-US" = true
  /\ (includes path "SECRET" = false ->
      includes (getGogdlCommand path (sampleInfoCommand "SECRET")) "SECRET"
      = false)
  /\ (forall (pre post : list string) (t1 t2 : string),
        getGogdlCommand path (pre ++ ("--token" ++ t1) :: post)
        = getGogdlCommand path (pre ++ ("--token" ++ t2) :: post))
  /\ (forall t1 t2 : string,
        getGogdlCommand path (sampleInfoCommand t1)
        = getGogdlCommand path (sampleInfoCommand t2)).
Proof.
  split; [|split; [|split; [|split; [|split]]]].
  - intros parts. exists (List.filter keepPart parts).
    split; [reflexivity|]. split; [reflexivity|]. split.
    + apply List.Forall_forall. intros a Ha.
      apply filter_In in Ha as [_ Hk].
      apply keepPart_not_token in Hk. tauto.
    + intros a. split.
      * intros Ha. apply filter_In in Ha as [Hin Hk].
        apply keepPart_not_token in Hk. tauto.
      * intros (Hin & Hne & Hs). apply filter_In. split; [assumption|].
        unfold keepPart. rewrite Hs. destruct a; [congruence | reflexivity].
  - reflexivity.
  - change (getGogdlCommand path (sampleInfoCommand "SECRET"))
      with (quoteIfSpaced path
            ++ String (ascii_of_nat 32) "info 123 --lang=en-US").
    induction (quoteIfSpaced path) as [|c q IH].
    + reflexivity.
    + change (String c q ++ String (ascii_of_nat 32) "info 123 --lang=en-US")
        with (String c (q ++ String (ascii_of_nat 32) "info 123 --lang=en-US")).
      cbn [includes]. rewrite IH. apply orb_true_r.
  - intros Hpath. apply getGogdlCommand_hides.
    + discriminate.
    + vm_compute. intros H.
      repeat (apply elem_of_cons in H as [H|H]; [discriminate|]).
      apply elem_of_nil in H. exact H.
    + vm_compute. intros H.
      repeat (apply elem_of_cons in H as [H|H]; [discriminate|]).
      apply elem_of_nil in H. exact H.
    + assumption.
    + intros a Hin Hs. simpl in Hin.
      destruct Hin as [<-|[<-|[<-|[<-|[]]]]]; try reflexivity.
      discriminate.
  - intros pre post t1 t2. unfold getGogdlCommand.
    rewrite !filter_keepPart_token. reflexivity.
  - intros t1 t2. unfold getGogdlCommand.
    change (sampleInfoCommand t1)
      with (app ["info"; "123"] (("--token" ++ ("=" ++ t1)) :: ["--lang=en-US"])).
    change (sampleInfoCommand t2)
      with (app ["info"; "123"] (("--token" ++ ("=" ++ t2)) :: ["--lang=en-US"])).
    rewrite !filter_keepPart_token. reflexivity.
Qed.

Lemma getGogdlCommand_redacts_token_witness :
  includes (getGogdlCommand "/opt/gogdl" (sampleInfoCommand "SECRET")) "SECRET"
  = false.
Proof.
  apply (getGogdlCommand_redacts_token "/opt/gogdl").
  reflexivity.
Defined.

(** ** Computations *)

Lemma bind_Ok_inv {A B : Type} (c : M A) (k : A -> M B) st b st' :
  bind c k st = Ok (b, st') ->
  exists a st1, c st = Ok (a, st1) /\ k a st1 = Ok (b, st').
Proof.
  unfold bind. destruct (c st) as [[a st1]|e]; [|discriminate].
  intros H. exists a, st1. split; [reflexivity | assumption].
Qed.

Lemma bind_Ok {A B : Type} (c : M A) (k : A -> M B) st a st1 :
  c st = Ok (a, st1) -> bind c k st = k a st1.
Proof. unfold bind. intros ->. reflexivity. Qed.

(** A loop whose body always returns and maintains an invariant over the
    elements processed so far returns, in a state satisfying the
    invariant. *)
Lemma forOf_total {A B : Type} (I : list A -> B -> State -> Prop)
    (body : B -> A -> M B) (xs : list A) :
  (forall done x rest acc st,
      xs = (done ++ x :: rest)%list -> I done acc st ->
      exists acc' st', body acc x st = Ok (acc', st')
                       /\ I (done ++ [x])%list acc' st') ->
  forall acc st, I [] acc st ->
  exists r st', forOf body xs acc st = Ok (r, st') /\ I xs r st'.
Proof.
  intros Hbody.
  assert (Hgen : forall rest done acc st,
             xs = (done ++ rest)%list -> I done acc st ->
             exists r st', forOf body rest acc st = Ok (r, st') /\ I xs r st').
  { induction rest as [|x rest IH]; intros done acc st Hxs HI.
    - rewrite app_nil_r in Hxs. subst done. exists acc, st. split; [reflexivity | assumption].
    - destruct (Hbody done x rest acc st Hxs HI) as (acc' & st1 & Hb & HI').
      destruct (IH (done ++ [x])%list acc' st1) as (r & st' & Hr & HIr).
      + rewrite <- app_assoc. exact Hxs.
      + exact HI'.
      + exists r, st'. split; [|exact HIr].
        cbn [forOf]. rewrite (bind_Ok _ _ _ _ _ Hb). exact Hr. }
  intros acc st HI. exact (Hgen xs [] acc st eq_refl HI).
Qed.

(** ** JavaScript maps *)

Section JSMapFacts.
Context {K V : Type} `{EqDecision K}.
Implicit Types (m : JSMap K V) (k : K) (v : V).

Lemma map_get_set_eq m k v : map_get k (map_set k v m) = Some v.
Proof.
  induction m as [|[k' v'] m IH]; simpl.
  - rewrite decide_True; reflexivity.
  - destruct (decide (k' = k)) as [->|Hne]; simpl.
    + rewrite decide_True; reflexivity.
    + rewrite decide_False by assumption. exact IH.
Qed.

Lemma map_get_set_ne m k k' v :
  k <> k' -> map_get k' (map_set k v m) = map_get k' m.
Proof.
  intros Hne. induction m as [|[k0 v0] m IH]; simpl.
  - rewrite decide_False by assumption. reflexivity.
  - destruct (decide (k0 = k)) as [->|Hne0]; simpl.
    + rewrite !decide_False by assumption. reflexivity.
    + destruct (decide (k0 = k')); [reflexivity | exact IH].
Qed.

Lemma map_keys_set m k v :
  map_keys (map_set k v m)
  = if bool_decide (k ∈ map_keys m) then map_keys m
    else (map_keys m ++ [k])%list.
Proof.
  induction m as [|[k' v'] m IH]; simpl; [reflexivity|].
  destruct (decide (k' = k)) as [->|Hne]; simpl.
  - rewrite bool_decide_eq_true_2 by (left). reflexivity.
  - rewrite IH. unfold map_keys. simpl.
    destruct (bool_decide_reflect (k ∈ List.map fst m)) as [Hin|Hnin].
    + rewrite bool_decide_eq_true_2 by (right; exact Hin). reflexivity.
    + rewrite bool_decide_eq_false_2; [reflexivity|].
      intros Hin. apply elem_of_cons in Hin as [->|Hin]; [congruence | contradiction].
Qed.

Lemma map_set_NoDup m k v :
  NoDup (map_keys m) -> NoDup (map_keys (map_set k v m)).
Proof.
  intros Hnd. rewrite map_keys_set.
  destruct (bool_decide_reflect (k ∈ map_keys m)) as [Hin|Hnin]; [assumption|].
  apply NoDup_app. split; [assumption|]. split.
  - intros x Hx Hx'. apply list_elem_of_singleton in Hx'. subst x. contradiction.
  - apply NoDup_singleton.
Qed.

Lemma elem_of_map_set m k v k' v' :
  (k', v') ∈ map_set k v m -> (k' = k /\ v' = v) \/ (k', v') ∈ m.
Proof.
  induction m as [|[k0 v0] m IH]; simpl; intros Hin.
  - apply list_elem_of_singleton in Hin. injection Hin as -> ->. left. done.
  - destruct (decide (k0 = k)) as [->|Hne].
    + apply elem_of_cons in Hin as [Heq|Hin].
      * injection Heq as -> ->. left. done.
      * right. right. exact Hin.
    + apply elem_of_cons in Hin as [Heq|Hin].
      * right. rewrite Heq. left.
      * destruct (IH Hin) as [?|?]; [left; assumption | right; right; assumption].
Qed.

Lemma map_get_Some_elem m k v : map_get k m = Some v -> (k, v) ∈ m.
Proof.
  induction m as [|[k0 v0] m IH]; simpl; [discriminate|].
  destruct (decide (k0 = k)) as [->|Hne].
  - intros [= ->]. left.
  - intros H. right. exact (IH H).
Qed.

Lemma NoDup_keys_functional m k v v' :
  NoDup (map_keys m) -> (k, v) ∈ m -> (k, v') ∈ m -> v = v'.
Proof.
  induction m as [|[k0 v0] m IH]; intros Hnd Hin Hin'.
  - apply elem_of_nil in Hin. contradiction.
  - unfold map_keys in Hnd. simpl in Hnd.
    apply NoDup_cons in Hnd as [Hnin Hnd].
    assert (Hkey : forall w, (k0, w) ∈ m -> False).
    { intros w Hw. apply Hnin.
      apply list_elem_of_In, in_map_iff. exists (k0, w).
      split; [reflexivity | apply list_elem_of_In; exact Hw]. }
    apply elem_of_cons in Hin as [Heq|Hin];
      apply elem_of_cons in Hin' as [Heq'|Hin'].
    + congruence.
    + injection Heq as -> ->. destruct (Hkey _ Hin').
    + injection Heq' as -> ->. destruct (Hkey _ Hin).
    + exact (IH Hnd Hin Hin').
Qed.

Lemma elem_map_values m v : v ∈ map_values m <-> exists k, (k, v) ∈ m.
Proof.
  unfold map_values. rewrite list_elem_of_In, in_map_iff. split.
  - intros ([k v'] & Heq & Hin). simpl in Heq. subst v'.
    exists k. apply list_elem_of_In. exact Hin.
  - intros (k & Hin). exists (k, v). split; [reflexivity|].
    apply list_elem_of_In. exact Hin.
Qed.
End JSMapFacts.

(** ** The update checker *)

Lemma checkInstalled_needsUpdate env updateable ref st :
  checkInstalled env updateable ref st
  = match installHeap st !! ref with
    | None => Throw (TypeError "Cannot read properties of undefined")
    | Some game =>
        match needsUpdate env game with
        | Ok true => Ok ((updateable ++ [appName game])%list, st)
        | Ok false => Ok (updateable, st)
        | Throw e => Throw e
        end
    end.
Proof.
  unfold checkInstalled, needsUpdate, bind, readInstall, lift.
  destruct (installHeap st !! ref) as [game|]; [|reflexivity].
  destruct (String.eqb (platform game) "linux").
  - destruct (checkForLinuxInstallerUpdate env (appName game) (version game))
      as [r|e]; [|reflexivity].
    destruct (not_js r); reflexivity.
  - destruct (checkForGameUpdate env (appName game) (versionEtag game)
                (platform game)) as [[]|e]; reflexivity.
Qed.

Lemma forOf_checkInstalled env refs acc st l st' :
  forOf (checkInstalled env) refs acc st = Ok (l, st') ->
  st' = st
  /\ exists picks, l = (acc ++ picks)%list
     /\ forall a, a ∈ picks <->
          exists ref game, ref ∈ refs /\ installHeap st !! ref = Some game
                           /\ needsUpdate env game = Ok true
                           /\ appName game = a.
Proof.
  revert acc. induction refs as [|ref refs IH]; intros acc Hrun.
  - cbn in Hrun. injection Hrun as <- <-. split; [reflexivity|].
    exists []. split; [rewrite app_nil_r; reflexivity|].
    intros a. split.
    + intros Hin. apply elem_of_nil in Hin. contradiction.
    + intros (r & g & Hin & _). apply elem_of_nil in Hin. contradiction.
  - cbn [forOf] in Hrun.
    apply bind_Ok_inv in Hrun as (acc' & st1 & Hb & Hrun).
    rewrite checkInstalled_needsUpdate in Hb.
    destruct (installHeap st !! ref) as [game|] eqn:Hgame; [|discriminate].
    destruct (needsUpdate env game) as [[]|e] eqn:Hneed; [| |discriminate];
      injection Hb as <- <-;
      destruct (IH _ Hrun) as (-> & picks & -> & Hpicks);
      (split; [reflexivity|]).
    + exists (appName game :: picks). split.
      { rewrite <- app_assoc. reflexivity. }
      intros a. rewrite elem_of_cons, Hpicks. split.
      * intros [->|(r & g & Hin & Hg & Hn & Ha)].
        -- exists ref, game. split; [left|]. done.
        -- exists r, g. split; [right; exact Hin|]. done.
      * intros (r & g & Hin & Hg & Hn & Ha).
        apply elem_of_cons in Hin as [->|Hin].
        -- left. congruence.
        -- right. exists r, g. done.
    + exists picks. split; [reflexivity|].
      intros a. rewrite Hpicks. split.
      * intros (r & g & Hin & Hg & Hn & Ha).
        exists r, g. split; [right; exact Hin|]. done.
      * intros (r & g & Hin & Hg & Hn & Ha).
        apply elem_of_cons in Hin as [->|Hin].
        -- congruence.
        -- exists r, g. done.
Qed.

(** The identifiers returned by [listUpdateableGames] are those of the
    installed titles whose check asks for an update. *)
Lemma listUpdateableGames_elem env st l st' :
  listUpdateableGames env st = Ok (l, st') ->
  forall a, a ∈ l <->
    exists k ref game, (k, ref) ∈ installedGames st
                       /\ installHeap st !! ref = Some game
                       /\ needsUpdate env game = Ok true
                       /\ appName game = a.
Proof.
  unfold listUpdateableGames. intros Hrun.
  apply bind_Ok_inv in Hrun as (installed & st1 & Hg & Hrun).
  unfold gets in Hg. injection Hg as <- <-.
  apply bind_Ok_inv in Hrun as (upd & st2 & Hloop & Hrun).
  apply forOf_checkInstalled in Hloop as (-> & picks & -> & Hpicks).
  apply bind_Ok_inv in Hrun as ([] & st3 & _ & Hrun).
  unfold ret in Hrun. injection Hrun as <- _.
  intros a. simpl. rewrite Hpicks. split.
  - intros (r & g & Hin & Hrest). apply elem_map_values in Hin as (k & Hin).
    exists k, r, g. done.
  - intros (k & r & g & Hin & Hrest). exists r, g. split; [|done].
    apply elem_map_values. exists k. exact Hin.
Qed.

Lemma firstLinuxInstaller_find installers ver inst :
  List.find (fun i => String.eqb (os i) "linux") installers = Some inst ->
  firstLinuxInstaller installers ver
  = Some (bool_decide (installer_version inst = ver)).
Proof.
  induction installers as [|i rest IH]; simpl; [discriminate|].
  destruct (String.eqb (os i) "linux"); [|exact IH].
  intros [= ->]. reflexivity.
Qed.

Lemma firstLinuxInstaller_none installers ver :
  Forall (fun i => os i <> "linux") installers ->
  firstLinuxInstaller installers ver = None.
Proof.
  induction 1 as [|i rest Hi _ IH]; simpl; [reflexivity|].
  destruct (String.eqb_spec (os i) "linux"); [contradiction | exact IH].
Qed.

(** C6: in the generic branch, once the build listing has been fetched and
    its first metadata link read, the conditional request carries the
    recorded entity tag as [If-None-Match] when there is one, and
    [checkForGameUpdate] returns true exactly for status 200, false exactly
    for status 304, and throws for any other status or a failed request. *)
Theorem checkForGameUpdate_by_status (env : Env)
    (appName' etag' : option string) (platform' : string)
    (s : nat) (buildData : BuildsData) (metaUrl : option string) :
  axios_get defaultValidateStatus (buildsApi env (buildsUrl appName' platform'))
    = Ok (s, buildData) ->
  firstBuildLink buildData = Ok metaUrl ->
  let raw := buildMeta env metaUrl (ifNoneMatch etag') in
  (forall tag, etag' = Some tag -> tag <> EmptyString ->
               ifNoneMatch etag' = Some tag)
  /\ (etag' = None \/ etag' = Some EmptyString -> ifNoneMatch etag' = None)
  /\ (checkForGameUpdate env appName' etag' platform' = Ok true
      <-> exists d, raw = HttpResponse 200 d)
  /\ (checkForGameUpdate env appName' etag' platform' = Ok false
      <-> exists d, raw = HttpResponse 304 d)
  /\ (forall status d, raw = HttpResponse status d ->
        status <> 200%nat -> status <> 304%nat ->
        exists e, checkForGameUpdate env appName' etag' platform' = Throw e)
  /\ (forall msg, raw = NetworkError msg ->
        exists e, checkForGameUpdate env appName' etag' platform' = Throw e).
Proof.
  intros Hbuilds Hlink raw.
  unfold checkForGameUpdate. rewrite Hbuilds, Hlink. fold raw.
  split; [|split; [|split; [|split; [|split]]]].
  - intros tag -> Hne. unfold ifNoneMatch. simpl.
    destruct tag; [congruence | reflexivity].
  - intros [->| ->]; reflexivity.
  - destruct raw as [msg|status []]; simpl.
    + split; [discriminate | intros [d Hd]; discriminate].
    + unfold validateStatus_200_304.
      destruct (Nat.eqb_spec status 200) as [->|H200]; simpl.
      * split; [eauto | reflexivity].
      * destruct (Nat.eqb_spec status 304) as [->|H304]; simpl.
        -- split; [discriminate | intros [d Hd]; discriminate].
        -- split; [discriminate | intros [d [= Hd]]; contradiction].
  - destruct raw as [msg|status []]; simpl.
    + split; [discriminate | intros [d Hd]; discriminate].
    + unfold validateStatus_200_304.
      destruct (Nat.eqb_spec status 200) as [->|H200]; simpl.
      * split; [discriminate | intros [d Hd]; discriminate].
      * destruct (Nat.eqb_spec status 304) as [->|H304]; simpl.
        -- split; [eauto | reflexivity].
        -- split; [discriminate | intros [d [= Hd]]; contradiction].
  - intros status d -> H200 H304. simpl. unfold validateStatus_200_304.
    destruct (Nat.eqb_spec status 200); [contradiction|].
    destruct (Nat.eqb_spec status 304); [contradiction|].
    simpl. eauto.
  - intros msg ->. simpl. eauto.
Qed.

Lemma checkForGameUpdate_by_status_witness :
  checkForGameUpdate updateEnv (Some "21") (Some "v1") "windows" = Ok true
  /\ checkForGameUpdate updateEnv (Some "20") (Some "v2") "windows" = Ok false.
Proof.
  split.
  - apply (checkForGameUpdate_by_status updateEnv (Some "21") (Some "v1")
             "windows" 200
             (mkBuildsData (Some [mkBuildItem (Some "https://cdn/meta")]))
             (Some "https://cdn/meta")); [reflexivity | reflexivity |].
    exists tt. reflexivity.
  - apply (checkForGameUpdate_by_status updateEnv (Some "20") (Some "v2")
             "windows" 200
             (mkBuildsData (Some [mkBuildItem (Some "https://cdn/meta")]))
             (Some "https://cdn/meta")); [reflexivity | reflexivity |].
    exists tt. reflexivity.
Defined.

(** ** [refreshInstalled] *)

Lemma mapM_allocInstall (rs : list InstalledInfo) st :
  mapM allocInstall rs st
  = Ok (seq (length (installHeap st)) (length rs),
        set_installHeap (installHeap st ++ rs) st).
Proof.
  revert st. induction rs as [|r rs IH]; intros st.
  - cbn. unfold ret. rewrite app_nil_r. destruct st; reflexivity.
  - cbn [mapM]. unfold bind at 1. unfold allocInstall at 1.
    unfold bind at 1. rewrite IH. unfold ret. cbn.
    rewrite length_app, Nat.add_1_r, <- app_assoc. reflexivity.
Qed.

(** [refreshInstalled] always returns.  It allocates the records of the
    Installed Store as fresh objects and rebuilds the installed map over
    them: the map is well formed and has an entry for the [appName] of
    every stored record. *)
Lemma refreshInstalled_spec st :
  exists st',
    refreshInstalled st = Ok (tt, st')
    /\ libraryStore st' = libraryStore st
    /\ apiInfoCache st' = apiInfoCache st
    /\ installedGamesStore st' = installedGamesStore st
    /\ gameHeap st' = gameHeap st
    /\ library st' = library st
    /\ log st' = log st
    /\ installHeap st' = (installHeap st ++ default [] (installedGamesStore st))%list
    /\ installed_wf st'
    /\ (forall k ref, (k, ref) ∈ installedGames st' ->
          length (installHeap st) <= ref)
    /\ (forall r, r ∈ default [] (installedGamesStore st) ->
          is_Some (map_get (appName r) (installedGames st'))).
Proof.
  set (rs := default [] (installedGamesStore st)).
  set (base := length (installHeap st)).
  set (H := (installHeap st ++ rs)%list).
  pose (I := fun (done : list loc) (_ : unit) (s : State) =>
     libraryStore s = libraryStore st
     /\ apiInfoCache s = apiInfoCache st
     /\ installedGamesStore s = installedGamesStore st
     /\ gameHeap s = gameHeap st
     /\ library s = library st
     /\ log s = log st
     /\ installHeap s = H
     /\ installed_wf s
     /\ (forall k ref, (k, ref) ∈ installedGames s -> base <= ref)
     /\ (forall ref, ref ∈ done ->
           exists g, H !! ref = Some g
                     /\ is_Some (map_get (appName g) (installedGames s)))).
  destruct (forOf_total I
              (fun _ value =>
                 let* v := readInstall value in
                 modify (fun s =>
                   set_installedGames
                     (map_set (appName v) value (installedGames s)) s))
              (seq base (length rs)))
    with (acc := tt) (st := set_installedGames [] (set_installHeap H st))
    as ([] & st' & Hrun & HI).
  - intros done x rest [] s Hxs (Hl & Hc & Hs & Hg & Hlib & Hlog & Hh & [Hnd Hwf] & Hge & Hcov).
    assert (Hx : x ∈ seq base (length rs)).
    { rewrite Hxs. apply elem_of_app. right. left. }
    apply elem_of_seq in Hx as [Hlo Hhi].
    destruct (lookup_lt_is_Some_2 H x) as [v Hv].
    { unfold H. rewrite length_app. fold base. lia. }
    exists tt. eexists. split.
    + unfold bind, readInstall. rewrite Hh, Hv. reflexivity.
    + unfold I. cbn. repeat split; try assumption.
      * apply map_set_NoDup. exact Hnd.
      * intros k ref Hin. cbn in Hin.
        apply elem_of_map_set in Hin as [[-> ->]|Hin].
        -- exists v. cbn. rewrite Hh. done.
        -- cbn. exact (Hwf k ref Hin).
      * intros k ref Hin.
        apply elem_of_map_set in Hin as [[-> ->]|Hin]; [exact Hlo | eauto].
      * intros ref Hin. apply elem_of_app in Hin as [Hin|Hin].
        -- destruct (Hcov ref Hin) as (g & Hg' & Hsome). exists g.
           split; [exact Hg'|].
           destruct (decide (appName v = appName g)) as [Heq|Hne].
           ++ rewrite <- Heq, map_get_set_eq. eauto.
           ++ rewrite map_get_set_ne by exact Hne. exact Hsome.
        -- apply list_elem_of_singleton in Hin. subst ref. exists v.
           split; [exact Hv|]. rewrite map_get_set_eq. eauto.
  - cbn. repeat split; try reflexivity.
    + apply NoDup_nil_2.
    + intros k ref Hin. apply elem_of_nil in Hin. contradiction.
    + intros k ref Hin. apply elem_of_nil in Hin. contradiction.
    + intros ref Hin. apply elem_of_nil in Hin. contradiction.
  - destruct HI as (Hl & Hc & Hs & Hg & Hlib & Hlog & Hh & Hwf & Hge & Hcov).
    exists st'. split; [|repeat split; try assumption; try apply Hwf].
    + unfold refreshInstalled, installedGamesStore_get_objects.
      unfold bind at 1. unfold bind at 1. unfold gets at 1.
      fold rs. rewrite mapM_allocInstall. fold base. fold H.
      unfold bind at 1. unfold modify at 1. exact Hrun.
    + intros r Hr. apply list_elem_of_lookup in Hr as [i Hi].
      destruct (Hcov (base + i)) as (g & Hg' & Hsome).
      { apply elem_of_seq. apply lookup_lt_Some in Hi. lia. }
      unfold H in Hg'. rewrite lookup_app_r in Hg' by (fold base; lia).
      fold base in Hg'. replace (base + i - base) with i in Hg' by lia.
      rewrite Hi in Hg'. injection Hg' as <-. exact Hsome.
Qed.

Lemma refreshInstalled_wf st st' :
  refreshInstalled st = Ok (tt, st') -> installed_wf st'.
Proof.
  intros Hrun. destruct (refreshInstalled_spec st) as (st2 & Hrun2 & Hrest).
  rewrite Hrun in Hrun2. injection Hrun2 as <-. apply Hrest.
Qed.

(** ** [listUpdateableGames] *)

Lemma needsUpdate_linux_found env g s data installers inst :
  platform g = "linux" ->
  getProductApi env (appName g) (Some ["downloads"]) = Some (s, data) ->
  downloads_installers data = Some installers ->
  List.find (fun i => String.eqb (os i) "linux") installers = Some inst ->
  needsUpdate env g
  = Ok (negb (bool_decide (installer_version inst = version g))).
Proof.
  intros Hp Hapi Hins Hfind.
  unfold needsUpdate, checkForLinuxInstallerUpdate.
  rewrite Hp, Hapi, Hins. cbn [String.eqb].
  rewrite (firstLinuxInstaller_find _ _ _ Hfind). reflexivity.
Qed.

Lemma needsUpdate_linux_unfetched env g :
  platform g = "linux" ->
  getProductApi env (appName g) (Some ["downloads"]) = None ->
  needsUpdate env g = Ok true.
Proof.
  intros Hp Hapi. unfold needsUpdate, checkForLinuxInstallerUpdate.
  rewrite Hp, Hapi. reflexivity.
Qed.

Lemma needsUpdate_linux_unlisted env g s data installers :
  platform g = "linux" ->
  getProductApi env (appName g) (Some ["downloads"]) = Some (s, data) ->
  downloads_installers data = Some installers ->
  Forall (fun i => os i <> "linux") installers ->
  needsUpdate env g = Ok true.
Proof.
  intros Hp Hapi Hins Hnone. unfold needsUpdate, checkForLinuxInstallerUpdate.
  rewrite Hp, Hapi, Hins, (firstLinuxInstaller_none _ _ Hnone). reflexivity.
Qed.

Lemma checkInstalled_pushes env updateable ref st g :
  installHeap st !! ref = Some g -> needsUpdate env g = Ok true ->
  checkInstalled env updateable ref st
  = Ok ((updateable ++ [appName g])%list, st).
Proof.
  intros Hg Hn. rewrite checkInstalled_needsUpdate, Hg, Hn. reflexivity.
Qed.

(** Against a server that honours the conditional request for the current
    entity tag, the generic branch reports an update exactly when the
    recorded tag is not the current one. *)
Lemma checkForGameUpdate_etag_roundtrip (env : Env)
    (appName' : option string) (platform' recorded current : string)
    (s : nat) (buildData : BuildsData) (metaUrl : option string) :
  axios_get defaultValidateStatus (buildsApi env (buildsUrl appName' platform'))
    = Ok (s, buildData) ->
  firstBuildLink buildData = Ok metaUrl ->
  recorded <> EmptyString ->
  (forall header,
     buildMeta env metaUrl header
     = if bool_decide (header = Some current) then HttpResponse 304 tt
       else HttpResponse 200 tt) ->
  checkForGameUpdate env appName' (Some recorded) platform'
  = Ok (negb (bool_decide (recorded = current))).
Proof.
  intros Hbuilds Hlink Hne Hserver.
  unfold checkForGameUpdate. rewrite Hbuilds, Hlink, Hserver.
  unfold ifNoneMatch. destruct recorded as [|a recorded]; [congruence|].
  cbn [truthy_opt truthy].
  destruct (decide (String a recorded = current)) as [Heq|Hneq].
  - rewrite !bool_decide_eq_true_2 by congruence. reflexivity.
  - rewrite !bool_decide_eq_false_2 by congruence. reflexivity.
Qed.

(** C7: in the Linux branch, for an installed title whose downloads listing
    has an installer for Linux, the title is left out of the list returned
    by [listUpdateableGames] when the version of the first such installer
    equals the recorded version, and is in the list when they differ. *)
Theorem linux_installer_version_decides (env : Env) (st st' : State)
    (l : list (option string)) (k : option string) (ref : loc)
    (g : InstalledInfo) (s : nat) (data : ProductData)
    (installers : list Installer) (inst : Installer) :
  installed_wf st ->
  listUpdateableGames env st = Ok (l, st') ->
  (k, ref) ∈ installedGames st ->
  installHeap st !! ref = Some g ->
  platform g = "linux" ->
  getProductApi env (appName g) (Some ["downloads"]) = Some (s, data) ->
  downloads_installers data = Some installers ->
  List.find (fun i => String.eqb (os i) "linux") installers = Some inst ->
  (installer_version inst = version g -> appName g ∉ l)
  /\ (installer_version inst <> version g -> appName g ∈ l).
Proof.
  intros [Hnd Hwf] Hrun Hin Hg Hp Hapi Hins Hfind.
  pose proof (needsUpdate_linux_found env g s data installers inst
                Hp Hapi Hins Hfind) as Hneed.
  pose proof (listUpdateableGames_elem env st l st' Hrun) as Hl.
  split.
  - intros Heq Hmem. apply Hl in Hmem as (k' & ref' & g' & Hin' & Hg' & Hn' & Ha').
    destruct (Hwf k ref Hin) as (g0 & Hg0 & Hk).
    destruct (Hwf k' ref' Hin') as (g1 & Hg1 & Hk').
    assert (Hkk : k' = k) by congruence.
    rewrite Hkk in Hin'.
    pose proof (NoDup_keys_functional _ _ _ _ Hnd Hin' Hin) as Href.
    rewrite Href, Hg in Hg'. injection Hg' as <-.
    rewrite Hneed, bool_decide_eq_true_2 in Hn' by exact Heq. discriminate.
  - intros Hne. apply Hl. exists k, ref, g. repeat split; try assumption.
    rewrite Hneed, bool_decide_eq_false_2 by exact Hne. reflexivity.
Qed.

Lemma linux_installer_version_decides_witness :
  (Some "10" ∉ [Some "11"; Some "12"; Some "13"; Some "21"])
  /\ (Some "11" ∈ [Some "11"; Some "12"; Some "13"; Some "21"]).
Proof.
  assert (Hwf : installed_wf updateState).
  { apply (refreshInstalled_wf
             (set_installedGamesStore (Some updateStore) emptyState)).
    vm_compute. reflexivity. }
  split.
  - refine (proj1 (linux_installer_version_decides updateEnv updateState _ _
                     (Some "10") 0 (linuxTitle "10" "1.0") 200 _ _
                     (mkInstaller "linux" (Some "1.0") "en-US")
                     Hwf _ _ _ _ _ _ _) _);
      try (vm_compute; reflexivity).
    left.
  - refine (proj2 (linux_installer_version_decides updateEnv updateState _ _
                     (Some "11") 1 (linuxTitle "11" "1.0") 200 _ _
                     (mkInstaller "linux" (Some "1.1") "en-US")
                     Hwf _ _ _ _ _ _ _) _);
      try (vm_compute; reflexivity).
    + right. left.
    + discriminate.
Defined.

(** C10: for an installed Linux title whose downloads listing cannot be
    fetched, [checkForLinuxInstallerUpdate] returns false and the title is
    in the list returned by [listUpdateableGames]; when the listing has no
    installer for Linux the check returns undefined and the title is in the
    list as well.  In both cases the loop pushes the identifier exactly as
    it does for a version mismatch. *)
Theorem linux_unavailable_listing_is_updateable (env : Env) (st st' : State)
    (l : list (option string)) (k : option string) (ref : loc)
    (g : InstalledInfo) :
  listUpdateableGames env st = Ok (l, st') ->
  (k, ref) ∈ installedGames st ->
  installHeap st !! ref = Some g ->
  platform g = "linux" ->
  (getProductApi env (appName g) (Some ["downloads"]) = None ->
     checkForLinuxInstallerUpdate env (appName g) (version g) = Ok (Some false)
     /\ appName g ∈ l
     /\ forall updateable, checkInstalled env updateable ref st
                           = Ok ((updateable ++ [appName g])%list, st))
  /\ (forall s data installers,
        getProductApi env (appName g) (Some ["downloads"]) = Some (s, data) ->
        downloads_installers data = Some installers ->
        Forall (fun i => os i <> "linux") installers ->
        checkForLinuxInstallerUpdate env (appName g) (version g) = Ok None
        /\ appName g ∈ l
        /\ forall updateable, checkInstalled env updateable ref st
                              = Ok ((updateable ++ [appName g])%list, st))
  /\ (forall s data installers inst,
        getProductApi env (appName g) (Some ["downloads"]) = Some (s, data) ->
        downloads_installers data = Some installers ->
        List.find (fun i => String.eqb (os i) "linux") installers = Some inst ->
        installer_version inst <> version g ->
        forall updateable, checkInstalled env updateable ref st
                           = Ok ((updateable ++ [appName g])%list, st)).
Proof.
  intros Hrun Hin Hg Hp.
  pose proof (listUpdateableGames_elem env st l st' Hrun) as Hl.
  split; [|split].
  - intros Hapi.
    pose proof (needsUpdate_linux_unfetched env g Hp Hapi) as Hneed.
    split; [|split].
    + unfold checkForLinuxInstallerUpdate. rewrite Hapi. reflexivity.
    + apply Hl. exists k, ref, g. done.
    + intros updateable. apply checkInstalled_pushes; assumption.
  - intros s data installers Hapi Hins Hnone.
    pose proof (needsUpdate_linux_unlisted env g s data installers
                  Hp Hapi Hins Hnone) as Hneed.
    split; [|split].
    + unfold checkForLinuxInstallerUpdate.
      rewrite Hapi, Hins, (firstLinuxInstaller_none _ _ Hnone). reflexivity.
    + apply Hl. exists k, ref, g. done.
    + intros updateable. apply checkInstalled_pushes; assumption.
  - intros s data installers inst Hapi Hins Hfind Hne updateable.
    apply checkInstalled_pushes; [assumption|].
    rewrite (needsUpdate_linux_found env g s data installers inst
               Hp Hapi Hins Hfind).
    rewrite bool_decide_eq_false_2 by exact Hne. reflexivity.
Qed.

Lemma linux_unavailable_listing_is_updateable_witness :
  (Some "12" ∈ [Some "11"; Some "12"; Some "13"; Some "21"])
  /\ (Some "13" ∈ [Some "11"; Some "12"; Some "13"; Some "21"]).
Proof.
  split.
  - assert (Hin : (Some "12", 2) ∈ installedGames updateState).
    { right. right. left. }
    destruct (linux_unavailable_listing_is_updateable updateEnv updateState
                _ _ (Some "12") 2 (linuxTitle "12" "1.0")
                (eq_refl : listUpdateableGames updateEnv updateState = Ok (_, _))
                Hin eq_refl eq_refl) as (Hfail & _ & _).
    apply Hfail. reflexivity.
  - assert (Hin : (Some "13", 3) ∈ installedGames updateState).
    { right. right. right. left. }
    destruct (linux_unavailable_listing_is_updateable updateEnv updateState
                _ _ (Some "13") 3 (linuxTitle "13" "1.0")
                (eq_refl : listUpdateableGames updateEnv updateState = Ok (_, _))
                Hin eq_refl eq_refl) as (_ & Hnone & _).
    apply (Hnone 200
             (mkProductData (Some [mkInstaller "windows" (Some "1.0") "en-US"]))
             [mkInstaller "windows" (Some "1.0") "en-US"]);
      [reflexivity | reflexivity |].
    repeat constructor. discriminate.
Defined.

(** ** [sync]: failure of the first page *)

(** C4: when the request for the first catalog page fails, [sync] returns
    without throwing, the failure is logged, and the Library Store is left
    as it was. *)
Theorem sync_first_page_failure (env : Env) (st : State)
    (credentials : Credentials) (e : JsError) :
  isLoggedIn env = true ->
  getCredentials env = Some credentials ->
  axios_get defaultValidateStatus
    (getFilteredProducts env (catalogUrl None) (catalogHeaders credentials))
    = Throw e ->
  exists st',
    sync env st = Ok (tt, st')
    /\ libraryStore st' = libraryStore st
    /\ log st'
       = (log st
          ++ [mkLogEntry LInfo PGog ["Getting GOG library"];
              mkLogEntry LError PGog
                ["There was an error getting games library data";
                 error_message e];
              mkLogEntry LError PGog
                ["There was an error Loading games library"]])%list
    /\ apiInfoCache st' = apiInfoCache st
    /\ installedGamesStore st' = installedGamesStore st.
Proof.
  intros Hlogged Hcred Hfail.
  destruct (refreshInstalled_spec st)
    as (st1 & Hrefresh & Hl & Hc & Hs & _ & _ & Hlog & _).
  unfold sync. rewrite Hlogged. cbn [negb].
  rewrite (bind_Ok _ _ _ _ _ Hrefresh), Hcred.
  unfold bind at 1. unfold logInfo at 1, logWith at 1, modify at 1.
  unfold bind at 1. rewrite Hfail.
  unfold bind at 1. unfold logError at 1, logWith at 1, modify at 1.
  unfold ret at 1. unfold logError, logWith, modify.
  eexists. split; [reflexivity|]. cbn.
  rewrite Hlog, <- !app_assoc. done.
Qed.

Lemma sync_first_page_failure_witness :
  exists st',
    sync updateEnv emptyState = Ok (tt, st')
    /\ libraryStore st' = libraryStore emptyState.
Proof.
  destruct (sync_first_page_failure updateEnv emptyState
              (mkCredentials "token") (AxiosError "offline")
              eq_refl eq_refl eq_refl) as (st' & Hrun & Hstore & _).
  exists st'. split; assumption.
Defined.

(** ** [changeGameInstallPath] *)

Lemma findIndex_Some {A : Type} (pred : A -> bool) (arr : list A) (i : nat) :
  findIndex pred arr = Some i ->
  exists x, arr !! i = Some x /\ pred x = true
            /\ forall j y, j < i -> arr !! j = Some y -> pred y = false.
Proof.
  revert i. induction arr as [|a arr IH]; intros i; simpl; [discriminate|].
  destruct (pred a) eqn:Ha.
  - intros [= <-]. exists a. split; [reflexivity|]. split; [assumption|].
    intros j y Hj. lia.
  - destruct (findIndex pred arr) as [i'|]; [|discriminate].
    intros [= <-]. destruct (IH i' eq_refl) as (x & Hx & Hp & Hbefore).
    exists x. split; [exact Hx|]. split; [exact Hp|].
    intros [|j] y Hj Hy.
    + simpl in Hy. congruence.
    + simpl in Hy. apply (Hbefore j y); [lia | exact Hy].
Qed.

Lemma findIndex_None {A : Type} (pred : A -> bool) (arr : list A) :
  findIndex pred arr = None -> forall x, x ∈ arr -> pred x = false.
Proof.
  induction arr as [|a arr IH]; simpl; intros Hnone x Hx.
  - apply elem_of_nil in Hx. contradiction.
  - destruct (pred a) eqn:Ha; [discriminate|].
    destruct (findIndex pred arr); [discriminate|].
    apply elem_of_cons in Hx as [->|Hx]; [assumption | exact (IH eq_refl x Hx)].
Qed.

(** [set_install_path] assigns [install_path] and nothing else. *)
Lemma set_install_path_fields (p : string) (i : InstalledInfo) :
  install_path (set_install_path p i) = p
  /\ appName (set_install_path p i) = appName i
  /\ executable (set_install_path p i) = executable i
  /\ install_size (set_install_path p i) = install_size i
  /\ is_dlc (set_install_path p i) = is_dlc i
  /\ version (set_install_path p i) = version i
  /\ platform (set_install_path p i) = platform i
  /\ buildId (set_install_path p i) = buildId i
  /\ installedWithDLCs (set_install_path p i) = installedWithDLCs i
  /\ versionEtag (set_install_path p i) = versionEtag i.
Proof. repeat split. Qed.

(** The exact effect of [changeGameInstallPath]: it returns exactly when
    the title has a record in the Installed Store and a cached record, and
    then the final state is the initial one with [install_path] assigned in
    the first matching stored record and in the [install] object of the
    cached record. *)
Lemma changeGameInstallPath_effect (appName' newInstallPath : string)
    (st st' : State) :
  changeGameInstallPath appName' newInstallPath st = Ok (tt, st') <->
  exists arr i c g o,
    installedGamesStore st = Some arr
    /\ findIndex (appName_is appName') arr = Some i
    /\ map_get appName' (library st) = Some c
    /\ gameHeap st !! c = Some g
    /\ installHeap st !! install g = Some o
    /\ st' = mkState (libraryStore st) (apiInfoCache st)
               (Some (alter (set_install_path newInstallPath) i arr))
               (gameHeap st)
               (<[install g := set_install_path newInstallPath o]> (installHeap st))
               (library st) (installedGames st) (log st).
Proof.
  unfold changeGameInstallPath, bind, gets, throw, ret, readGame,
    writeInstall, modify.
  destruct (installedGamesStore st) as [arr|] eqn:Hstore; simpl.
  - destruct (findIndex (appName_is appName') arr) as [i|] eqn:Hidx; simpl.
    + destruct (map_get appName' (library st)) as [c|] eqn:Hc; simpl.
      * destruct (gameHeap st !! c) as [g|] eqn:Hg; simpl.
        -- destruct (installHeap st !! install g) as [o|] eqn:Ho; simpl.
           ++ split.
              ** intros [= <-]. exists arr, i, c, g, o.
                 repeat split; assumption.
              ** intros (arr0 & i0 & c0 & g0 & o0 & H1 & H2 & H3 & H4 & H5 & ->).
                 assert (arr0 = arr) by congruence. subst arr0.
                 assert (i0 = i) by congruence. subst i0.
                 assert (c0 = c) by congruence. subst c0.
                 assert (g0 = g) by congruence. subst g0.
                 assert (o0 = o) by congruence. subst o0.
                 destruct st; reflexivity.
           ++ split; [discriminate|].
              intros (arr0 & i0 & c0 & g0 & o0 & H1 & H2 & H3 & H4 & H5 & _).
              simplify_eq.
        -- split; [discriminate|].
           intros (arr0 & i0 & c0 & g0 & o0 & H1 & H2 & H3 & H4 & _).
           simplify_eq.
      * split; [discriminate|].
        intros (arr0 & i0 & c0 & g0 & o0 & H1 & H2 & H3 & _). simplify_eq.
    + split; [discriminate|].
      intros (arr0 & i0 & c0 & g0 & o0 & H1 & H2 & _). simplify_eq.
  - split; [discriminate|].
    intros (arr0 & i0 & c0 & g0 & o0 & H1 & _). simplify_eq.
Qed.

(** C9: [changeGameInstallPath] assigns [install_path] in the first record
    of the Installed Store for the title and in the [install] object of the
    cached record, and nothing else: the Library Store, the metadata
    cache, the unified records, both in-memory maps, the other stored
    records and the other fields of the matching record are as before. *)
Theorem changeGameInstallPath_frame (appName' newInstallPath : string)
    (st st' : State) :
  changeGameInstallPath appName' newInstallPath st = Ok (tt, st') ->
  libraryStore st' = libraryStore st
  /\ apiInfoCache st' = apiInfoCache st
  /\ gameHeap st' = gameHeap st
  /\ library st' = library st
  /\ installedGames st' = installedGames st
  /\ (exists arr arr' i r r',
        installedGamesStore st = Some arr
        /\ installedGamesStore st' = Some arr'
        /\ length arr' = length arr
        /\ arr !! i = Some r /\ appName r = Some appName'
        /\ arr' !! i = Some r'
        /\ install_path r' = newInstallPath /\ same_but_install_path r r'
        /\ forall j, j <> i -> arr' !! j = arr !! j)
  /\ (exists c g o o',
        map_get appName' (library st) = Some c
        /\ gameHeap st !! c = Some g
        /\ installHeap st !! install g = Some o
        /\ length (installHeap st') = length (installHeap st)
        /\ installHeap st' !! install g = Some o'
        /\ install_path o' = newInstallPath /\ same_but_install_path o o'
        /\ forall j, j <> install g ->
             installHeap st' !! j = installHeap st !! j).
Proof.
  intros Hrun. apply changeGameInstallPath_effect in Hrun
    as (arr & i & c & g & o & Hstore & Hidx & Hc & Hg & Ho & ->).
  cbn. repeat (split; [reflexivity|]).
  apply findIndex_Some in Hidx as (r & Hr & Hpred & _).
  split.
  - exists arr, (alter (set_install_path newInstallPath) i arr), i, r,
      (set_install_path newInstallPath r).
    split; [exact Hstore|]. split; [reflexivity|].
    split; [apply length_alter|]. split; [exact Hr|].
    split; [unfold appName_is in Hpred; apply bool_decide_eq_true in Hpred; exact Hpred|].
    split; [rewrite list_lookup_alter_eq, Hr; reflexivity|].
    split; [reflexivity|]. split; [repeat split|].
    intros j Hj. apply list_lookup_alter_ne. congruence.
  - exists c, g, o, (set_install_path newInstallPath o).
    split; [exact Hc|]. split; [exact Hg|]. split; [exact Ho|].
    split; [apply length_insert|].
    split; [apply list_lookup_insert_eq; apply lookup_lt_Some in Ho; exact Ho|].
    split; [reflexivity|]. split; [repeat split|].
    intros j Hj. apply list_lookup_insert_ne. congruence.
Qed.

(** [changeGameInstallPath] returns whenever the title has a stored record
    and a cached record. *)
Lemma changeGameInstallPath_returns (appName' newInstallPath : string)
    (st : State) arr r c g o :
  installedGamesStore st = Some arr ->
  r ∈ arr -> appName r = Some appName' ->
  map_get appName' (library st) = Some c ->
  gameHeap st !! c = Some g ->
  installHeap st !! install g = Some o ->
  exists st', changeGameInstallPath appName' newInstallPath st = Ok (tt, st').
Proof.
  intros Hstore Hr Hname Hc Hg Ho.
  destruct (findIndex (appName_is appName') arr) as [i|] eqn:Hidx.
  - eexists. apply changeGameInstallPath_effect.
    exists arr, i, c, g, o. repeat split; eassumption.
  - pose proof (findIndex_None _ _ Hidx r Hr) as Hfalse.
    unfold appName_is in Hfalse.
    rewrite bool_decide_eq_true_2 in Hfalse by exact Hname. discriminate.
Qed.

Lemma changeGameInstallPath_frame_witness :
  exists st',
    changeGameInstallPath "1" "/mnt/games/one" syncedState = Ok (tt, st')
    /\ libraryStore st' = libraryStore syncedState.
Proof.
  eexists. split; [vm_compute; reflexivity|].
  eapply (changeGameInstallPath_frame "1" "/mnt/games/one" syncedState).
  vm_compute. reflexivity.
Defined.

(** ** The object heap *)

Lemma with_install_id {I : Type} (g : GameInfoOf I) :
  with_install (install g) g = g.
Proof. destruct g; reflexivity. Qed.

Lemma with_install_twice {I J L : Type} (j : J) (l : L) (g : GameInfoOf I) :
  with_install l (with_install j g) = with_install l g.
Proof. reflexivity. Qed.

Lemma snapshot_Some s l v :
  snapshot s l = Some v ->
  exists g i, gameHeap s !! l = Some g /\ installHeap s !! install g = Some i
              /\ v = with_install i g.
Proof.
  unfold snapshot. destruct (gameHeap s !! l) as [g|] eqn:Hg; [|discriminate].
  simpl. destruct (installHeap s !! install g) as [i|] eqn:Hi; [|discriminate].
  simpl. intros [= <-]. exists g, i. done.
Qed.

Lemma snapshot_intro s l g i :
  gameHeap s !! l = Some g -> installHeap s !! install g = Some i ->
  snapshot s l = Some (with_install i g).
Proof. unfold snapshot. intros -> . simpl. intros ->. reflexivity. Qed.

(** Objects are never freed: what a reference denotes is preserved when
    the heaps only grow. *)
Lemma snapshot_prefix s s' l v :
  gameHeap s `prefix_of` gameHeap s' ->
  installHeap s `prefix_of` installHeap s' ->
  snapshot s l = Some v -> snapshot s' l = Some v.
Proof.
  intros Hg Hi Hs. apply snapshot_Some in Hs as (g & i & Hl & Hli & ->).
  apply snapshot_intro.
  - exact (prefix_lookup_Some _ _ _ _ Hl Hg).
  - exact (prefix_lookup_Some _ _ _ _ Hli Hi).
Qed.

Lemma snapshotGame_Ok s l v :
  snapshot s l = Some v -> snapshotGame l s = Ok (v, s).
Proof.
  intros Hs. apply snapshot_Some in Hs as (g & i & Hl & Hli & ->).
  unfold snapshotGame, bind, readGame, readInstall, ret.
  rewrite Hl, Hli. reflexivity.
Qed.

Lemma mapM_snapshotGame s objs vs :
  Forall2 (fun u v => snapshot s u = Some v) objs vs ->
  mapM snapshotGame objs s = Ok (vs, s).
Proof.
  induction 1 as [|u v objs vs Hu _ IH]; [reflexivity|].
  cbn [mapM]. rewrite (bind_Ok _ _ _ _ _ (snapshotGame_Ok _ _ _ Hu)).
  rewrite (bind_Ok _ _ _ _ _ IH). reflexivity.
Qed.

(** Reading the persisted catalog array allocates one object per record;
    each new reference denotes its record. *)
Lemma mapM_reviveGame (gs : list GameInfo) s :
  exists ls s',
    mapM reviveGame gs s = Ok (ls, s')
    /\ gameHeap s `prefix_of` gameHeap s'
    /\ installHeap s `prefix_of` installHeap s'
    /\ Forall2 (fun l v => snapshot s' l = Some v) ls gs
    /\ libraryStore s' = libraryStore s
    /\ apiInfoCache s' = apiInfoCache s
    /\ installedGamesStore s' = installedGamesStore s
    /\ library s' = library s
    /\ installedGames s' = installedGames s
    /\ log s' = log s.
Proof.
  revert s. induction gs as [|g gs IH]; intros s.
  - exists [], s. cbn. repeat split; try reflexivity. constructor.
  - set (s1 := set_gameHeap
                 (gameHeap s ++ [with_install (length (installHeap s)) g])
                 (set_installHeap (installHeap s ++ [install g]) s)).
    assert (Hrev : reviveGame g s = Ok (length (gameHeap s), s1)) by reflexivity.
    destruct (IH s1) as (ls & s' & Hrun & Hg & Hi & Hall & Hrest).
    exists (length (gameHeap s) :: ls), s'.
    split; [cbn [mapM]; rewrite (bind_Ok _ _ _ _ _ Hrev),
              (bind_Ok _ _ _ _ _ Hrun); reflexivity|].
    assert (Hg1 : gameHeap s `prefix_of` gameHeap s1)
      by (cbn; apply prefix_app_r; reflexivity).
    assert (Hi1 : installHeap s `prefix_of` installHeap s1)
      by (cbn; apply prefix_app_r; reflexivity).
    split; [etrans; eassumption|]. split; [etrans; eassumption|].
    split; [|exact Hrest].
    constructor; [|exact Hall].
    apply (snapshot_prefix s1 s' _ _ Hg Hi).
    pose proof (snapshot_intro s1 (length (gameHeap s))
                  (with_install (length (installHeap s)) g) (install g)) as Hs.
    change (with_install (install g) (with_install (length (installHeap s)) g))
      with (with_install (install g) g) in Hs.
    rewrite with_install_id in Hs.
    apply Hs; cbn; apply list_lookup_middle; reflexivity.
Qed.

(** ** [sync]: the page loop *)

Lemma forOf_pages env headers pages acc st :
  forOf (fun (gameApiArray : list GOGGameInfo) page =>
           logInfo ["Getting data for page"; of_number (Z.of_nat page)] PGog;;
           let* pageData :=
             lift (axios_get defaultValidateStatus
                     (getFilteredProducts env (catalogUrl (Some page)) headers)) in
           match products (snd pageData) with
           | Some ps => ret (gameApiArray ++ ps)%list
           | None => ret gameApiArray
           end) pages acc st
  = match furtherPages env headers pages acc with
    | Ok cat => Ok (cat, set_log (log st ++ List.map pageLog pages) st)
    | Throw e => Throw e
    end.
Proof.
  revert acc st. induction pages as [|page rest IH]; intros acc st.
  - cbn. unfold ret. rewrite app_nil_r. destruct st; reflexivity.
  - cbn [forOf furtherPages]. unfold bind at 1. unfold bind at 1.
    unfold logInfo at 1, logWith at 1, modify at 1. unfold bind at 1.
    unfold lift at 1.
    destruct (axios_get defaultValidateStatus
                (getFilteredProducts env (catalogUrl (Some page)) headers))
      as [[status data]|e]; [|reflexivity].
    cbn [snd].
    destruct (products data) as [ps|]; unfold ret at 1; rewrite IH;
      (destruct (furtherPages env headers rest _); [|reflexivity]);
      cbn; rewrite <- app_assoc; reflexivity.
Qed.

Lemma fetchFurtherPages_spec env headers n ps st :
  fetchFurtherPages env headers n ps st
  = match furtherPages env headers (seq 2 (n - 1)) ps with
    | Ok cat =>
        Ok (cat, set_log (log st ++ List.map pageLog (seq 2 (n - 1))) st)
    | Throw e => Throw e
    end.
Proof. apply forOf_pages. Qed.




(** ** [sync]: one catalog entry *)

Lemma findGame_spec key (ls : list loc) (gs : list GameInfo) s :
  Forall2 (fun l v => snapshot s l = Some v) ls gs ->
  exists res,
    findGame key ls s = Ok (res, s)
    /\ match List.find (fun v => String.eqb (app_name v) key) gs with
       | Some r => exists u, res = Some u /\ snapshot s u = Some r
       | None => res = None
       end.
Proof.
  induction 1 as [|l v ls gs Hl _ IH].
  - exists None. split; reflexivity.
  - pose proof Hl as Hl'.
    apply snapshot_Some in Hl' as (g & i & Hg & Hi & ->).
    cbn [findGame List.find]. unfold bind, readGame. rewrite Hg.
    change (app_name (with_install i g)) with (app_name g).
    destruct (String.eqb (app_name g) key).
    + exists (Some l). split; [reflexivity|]. exists l. done.
    + exact IH.
Qed.

Lemma gogToUnifiedInfo_spec env info gamesdbData s :
  exists s',
    gogToUnifiedInfo env info gamesdbData s = Ok (length (gameHeap s), s')
    /\ gameHeap s'
       = (gameHeap s
          ++ [unifiedObject info (derivedValues env info gamesdbData)
                (length (installHeap s))])%list
    /\ installHeap s' = (installHeap s ++ [emptyInstall])%list
    /\ libraryStore s' = libraryStore s
    /\ apiInfoCache s' = apiInfoCache s
    /\ installedGamesStore s' = installedGamesStore s
    /\ library s' = library s
    /\ installedGames s' = installedGames s.
Proof.
  unfold gogToUnifiedInfo, derivedValues.
  destruct (gamesdbData ≫= game) as [g|].
  - eexists. split; [reflexivity|]. cbn. done.
  - destruct (getGamesData env (of_number (id info)) None
                ≫= links_boxArtImage_href) as [href|].
    + eexists. split; [reflexivity|]. cbn. done.
    + eexists. split; [reflexivity|]. cbn. done.
Qed.

Lemma writeGame_last s (h : list GameObj) (x : GameObj) f :
  gameHeap s = (h ++ [x])%list ->
  writeGame (length h) f s = Ok (tt, set_gameHeap (h ++ [f x]) s).
Proof.
  intros Hh. unfold writeGame. rewrite Hh, list_lookup_middle by reflexivity.
  rewrite insert_app_r_alt by lia. rewrite Nat.sub_diag. reflexivity.
Qed.

Lemma array_ok_prefix stored arr s s' :
  gameHeap s `prefix_of` gameHeap s' ->
  installHeap s `prefix_of` installHeap s' ->
  array_ok stored arr s -> array_ok stored arr s'.
Proof.
  intros Hg Hi. unfold array_ok.
  destruct stored as [gs|], arr as [ls|]; try done.
  intros Hall. eapply Forall2_impl; [exact Hall|].
  intros l v. apply snapshot_prefix; assumption.
Qed.

Lemma found_spec stored arr key s :
  array_ok stored arr s ->
  exists res,
    match arr with
    | Some ls => findGame key ls
    | None => ret None
    end s = Ok (res, s)
    /\ match findStored key stored with
       | Some r => exists u, res = Some u /\ snapshot s u = Some r
       | None => res = None
       end.
Proof.
  unfold array_ok, findStored.
  destruct stored as [gs|], arr as [ls|]; try done.
  - intros Hall. apply findGame_spec. exact Hall.
  - intros _. exists None. done.
Qed.

Lemma unifiedObject_with_install {I J : Type} info d (i : I) (j : J) :
  with_install j (unifiedObject info d i) = unifiedObject info d j.
Proof. destruct d as [[[? ?] ?] ?]. reflexivity. Qed.

Lemma unifiedObject_install {I : Type} info d (i : I) :
  install (unifiedObject info d i) = i.
Proof. destruct d as [[[? ?] ?] ?]. reflexivity. Qed.

Lemma unifiedObject_fields {I : Type} info d (i : I) :
  app_name (unifiedObject info d i) = of_number (id info)
  /\ is_installed (unifiedObject info d i) = false.
Proof. destruct d as [[[? ?] ?] ?]. split; reflexivity. Qed.

Lemma new_unified_spec env stored cache0 (game : GOGGameInfo) s1 :
  findStored (of_number (id game)) stored = None ->
  cache_ok env cache0 s1 ->
  exists s2,
    gogToUnifiedInfo env game
      (Some (apiDataFor env cache0 (of_number (id game)))) s1
    = Ok (length (gameHeap s1), s2)
    /\ gameHeap s1 `prefix_of` gameHeap s2
    /\ installHeap s1 `prefix_of` installHeap s2
    /\ snapshot s2 (length (gameHeap s1))
       = Some (persistedValue env stored cache0 game)
    /\ cache_ok env cache0 s2
    /\ libraryStore s2 = libraryStore s1
    /\ installedGamesStore s2 = installedGamesStore s1
    /\ installedGames s2 = installedGames s1
    /\ library s2 = library s1.
Proof.
  intros Hnone [Hp1 Ha1]. unfold persistedValue. rewrite Hnone.
  set (key := of_number (id game)).
  destruct (gogToUnifiedInfo_spec env game
              (Some (apiDataFor env cache0 key)) s1)
    as (s2 & Hrun2 & Hg2 & Hi2 & Hl2 & Hc2 & Hs2 & Hlib2 & Hig2).
  exists s2. split; [exact Hrun2|].
  split; [rewrite Hg2; apply prefix_app_r; reflexivity|].
  split; [rewrite Hi2; apply prefix_app_r; reflexivity|].
  split.
  { pose proof (snapshot_intro s2 (length (gameHeap s1))
                  (unifiedObject game
                     (derivedValues env game (Some (apiDataFor env cache0 key)))
                     (length (installHeap s1)))
                  emptyInstall) as Hsnap.
    rewrite unifiedObject_with_install, unifiedObject_install in Hsnap.
    apply Hsnap.
    - rewrite Hg2. apply list_lookup_middle. reflexivity.
    - rewrite Hi2. apply list_lookup_middle. reflexivity. }
  split.
  { split.
    - intros k d. rewrite Hc2. apply Hp1.
    - intros k. rewrite Hc2. apply Ha1. }
  repeat split; assumption.
Qed.

(** The first half of the loop body: the unified record of the entry is
    the stored record with its identifier, or a new record. *)
Lemma unified_spec env stored cache0 (game : GOGGameInfo) res s :
  cache_ok env cache0 s ->
  match findStored (of_number (id game)) stored with
  | Some r => exists u, res = Some u /\ snapshot s u = Some r
  | None => res = None
  end ->
  exists u s2,
    match res with
    | Some u => ret u
    | None =>
        let* cached := gets (fun st => apiInfoCache st !! of_number (id game)) in
        let* apiData :=
          match cached with
          | Some d => ret d
          | None =>
              let data := snd (getGamesdbData env "gog" (of_number (id game)) None) in
              modify (fun st =>
                set_apiInfoCache
                  (<[of_number (id game) := data]> (apiInfoCache st)) st);;
              ret data
          end in
        gogToUnifiedInfo env game (Some apiData)
    end s = Ok (u, s2)
    /\ gameHeap s `prefix_of` gameHeap s2
    /\ installHeap s `prefix_of` installHeap s2
    /\ snapshot s2 u = Some (persistedValue env stored cache0 game)
    /\ cache_ok env cache0 s2
    /\ libraryStore s2 = libraryStore s
    /\ installedGamesStore s2 = installedGamesStore s
    /\ installedGames s2 = installedGames s
    /\ library s2 = library s.
Proof.
  intros Hcache Hres.
  destruct (findStored (of_number (id game)) stored) as [r|] eqn:Hfind.
  - destruct Hres as (u & -> & Hu). exists u, s. unfold ret.
    unfold persistedValue. rewrite Hfind.
    repeat split; try reflexivity; try assumption; apply Hcache.
  - subst res. set (key := of_number (id game)).
    pose proof Hcache as [Hpresent Habsent].
    unfold bind at 1. unfold gets at 1.
    destruct (apiInfoCache s !! key) as [d|] eqn:Hd.
    + unfold bind at 1. unfold ret at 1.
      rewrite (Hpresent key d Hd).
      destruct (new_unified_spec env stored cache0 game s Hfind Hcache)
        as (s2 & Hrest).
      exists (length (gameHeap s)), s2. exact Hrest.
    + unfold bind at 1. unfold bind at 1. unfold modify at 1. unfold ret at 1.
      set (s1 := set_apiInfoCache _ s).
      assert (Hdata : snd (getGamesdbData env "gog" key None)
                      = apiDataFor env cache0 key).
      { unfold apiDataFor. rewrite (Habsent key Hd). reflexivity. }
      rewrite Hdata.
      assert (Hcache1 : cache_ok env cache0 s1).
      { subst s1. rewrite Hdata. unfold cache_ok.
        cbn [apiInfoCache set_apiInfoCache]. split.
        - intros k d'. destruct (decide (key = k)) as [<-|Hne].
          + rewrite lookup_insert_eq. intros [= <-]. reflexivity.
          + rewrite lookup_insert_ne by exact Hne. apply Hpresent.
        - intros k. destruct (decide (key = k)) as [<-|Hne].
          + rewrite lookup_insert_eq. discriminate.
          + rewrite lookup_insert_ne by exact Hne. apply Habsent. }
      destruct (new_unified_spec env stored cache0 game s1 Hfind Hcache1)
        as (s2 & Hrest).
      exists (length (gameHeap s1)), s2. exact Hrest.
Qed.

(** The loop body of [sync] for one entry always returns.  It pushes a
    reference that denotes the record to persist, and caches under the
    identifier a fresh copy; only the copy receives the installed state. *)
Lemma syncEntry_spec env stored cache0 arr objs (game : GOGGameInfo) s :
  array_ok stored arr s -> cache_ok env cache0 s ->
  exists u c g s',
    syncEntry env arr objs game s = Ok ((objs ++ [u])%list, s')
    /\ gameHeap s `prefix_of` gameHeap s'
    /\ installHeap s `prefix_of` installHeap s'
    /\ snapshot s' u = Some (persistedValue env stored cache0 game)
    /\ cache_ok env cache0 s'
    /\ libraryStore s' = libraryStore s
    /\ installedGamesStore s' = installedGamesStore s
    /\ installedGames s' = installedGames s
    /\ library s' = map_set (of_number (id game)) c (library s)
    /\ gameHeap s' !! c = Some g
    /\ app_name g = app_name (persistedValue env stored cache0 game)
    /\ match map_get (Some (of_number (id game))) (installedGames s) with
       | Some i => is_installed g = true /\ install g = i
       | None => snapshot s' c = Some (persistedValue env stored cache0 game)
       end.
Proof.
  intros Harr Hcache.
  destruct (found_spec stored arr (of_number (id game)) s Harr)
    as (res & Hfound & Hres).
  destruct (unified_spec env stored cache0 game res s Hcache Hres)
    as (u & s2 & Hunified & Hg2 & Hi2 & Hsnap & Hcache2 & Hl2 & Hs2 & Hig2 & Hlib2).
  pose proof Hsnap as Hsnap'.
  apply snapshot_Some in Hsnap' as (src & i0 & Hsrc & Hi0 & Hval).
  assert (Hread : readGame u s2 = Ok (src, s2))
    by (unfold readGame; rewrite Hsrc; reflexivity).
  set (s3 := set_gameHeap (gameHeap s2 ++ [src]) s2).
  assert (Halloc : allocGame src s2 = Ok (length (gameHeap s2), s3))
    by reflexivity.
  exists u, (length (gameHeap s2)).
  unfold syncEntry.
  rewrite (bind_Ok _ _ _ _ _ Hfound), (bind_Ok _ _ _ _ _ Hunified).
  unfold bind at 1. unfold gets at 1.
  rewrite (bind_Ok _ _ _ _ _ Hread), (bind_Ok _ _ _ _ _ Halloc).
  rewrite Hig2.
  destruct (map_get (Some (of_number (id game))) (installedGames s))
    as [i|] eqn:Hinst.
  - assert (Hw1 : writeGame (length (gameHeap s2)) (set_is_installed true) s3
                  = Ok (tt, set_gameHeap
                              (gameHeap s2 ++ [set_is_installed true src]) s3))
      by (apply writeGame_last; reflexivity).
    assert (Hw2 : writeGame (length (gameHeap s2)) (with_install i)
                    (set_gameHeap (gameHeap s2 ++ [set_is_installed true src]) s3)
                  = Ok (tt, set_gameHeap
                              (gameHeap s2
                               ++ [with_install i (set_is_installed true src)])
                              (set_gameHeap
                                 (gameHeap s2 ++ [set_is_installed true src]) s3)))
      by (apply writeGame_last; reflexivity).
    exists (with_install i (set_is_installed true src)). eexists.
    split.
    { unfold bind at 1. unfold bind at 1. rewrite Hw1, Hw2.
      unfold bind, modify, ret. reflexivity. }
    subst s3.
    cbn [gameHeap installHeap libraryStore installedGamesStore installedGames
         library apiInfoCache set_library set_gameHeap].
    split; [etrans; [exact Hg2 | apply prefix_app_r; reflexivity]|].
    split; [exact Hi2|].
    split.
    { eapply snapshot_prefix; [| |exact Hsnap]; cbn.
      - apply prefix_app_r. reflexivity.
      - reflexivity. }
    split; [exact Hcache2|].
    split; [exact Hl2|]. split; [exact Hs2|]. split; [exact Hig2|].
    split; [rewrite Hlib2; reflexivity|].
    split; [apply list_lookup_middle; reflexivity|].
    split; [rewrite Hval; reflexivity|].
    split; reflexivity.
  - exists src. eexists. split.
    { unfold bind, modify, ret. reflexivity. }
    subst s3.
    cbn [gameHeap installHeap libraryStore installedGamesStore installedGames
         library apiInfoCache set_library set_gameHeap].
    split; [etrans; [exact Hg2 | apply prefix_app_r; reflexivity]|].
    split; [exact Hi2|].
    split.
    { eapply snapshot_prefix; [| |exact Hsnap]; cbn.
      - apply prefix_app_r. reflexivity.
      - reflexivity. }
    split; [exact Hcache2|].
    split; [exact Hl2|]. split; [exact Hs2|]. split; [exact Hig2|].
    split; [rewrite Hlib2; reflexivity|].
    split; [apply list_lookup_middle; reflexivity|].
    split; [rewrite Hval; reflexivity|].
    rewrite Hval. apply snapshot_intro; cbn.
    + apply list_lookup_middle. reflexivity.
    + exact Hi0.
Qed.

Lemma findStored_Some key stored r :
  findStored key stored = Some r ->
  exists gs, stored = Some gs /\ r ∈ gs /\ app_name r = key.
Proof.
  unfold findStored. destruct stored as [gs|]; [|discriminate]. simpl.
  intros Hfind. apply find_some in Hfind as [Hin Heq].
  exists gs. split; [reflexivity|]. split.
  - apply list_elem_of_In. exact Hin.
  - apply String.eqb_eq. exact Heq.
Qed.

Lemma persistedValue_app_name env stored cache (game : GOGGameInfo) :
  app_name (persistedValue env stored cache game) = of_number (id game).
Proof.
  unfold persistedValue.
  destruct (findStored (of_number (id game)) stored) as [r|] eqn:Hfind.
  - apply findStored_Some in Hfind as (gs & _ & _ & Hname). exact Hname.
  - apply unifiedObject_fields.
Qed.

(** A record [sync] builds anew carries no installed state. *)
Lemma persistedValue_new env stored cache (game : GOGGameInfo) :
  findStored (of_number (id game)) stored = None ->
  is_installed (persistedValue env stored cache game) = false
  /\ install (persistedValue env stored cache game) = emptyInstall.
Proof.
  intros Hnone. unfold persistedValue, unifiedValue. rewrite Hnone. split.
  - apply unifiedObject_fields.
  - apply unifiedObject_install.
Qed.

(** The catalog part of [sync]: the merged array is [remoteCatalog]. *)
Lemma sync_catalog_spec env headers (first : CatalogPage) cat s :
  remoteCatalog env headers first = Ok cat ->
  exists s',
    match products first with
    | Some ps =>
        let numberOfPages := totalPages first in
        logInfo ["Number of library pages:";
                 of_number (Z.of_nat numberOfPages)] PGog;;
        fetchFurtherPages env headers numberOfPages ps
    | None => ret []
    end s = Ok (cat, s')
    /\ libraryStore s' = libraryStore s
    /\ apiInfoCache s' = apiInfoCache s
    /\ installedGamesStore s' = installedGamesStore s
    /\ gameHeap s' = gameHeap s
    /\ installHeap s' = installHeap s
    /\ library s' = library s
    /\ installedGames s' = installedGames s.
Proof.
  unfold remoteCatalog. destruct (products first) as [ps|].
  - intros Hcat. cbv zeta. unfold bind, logInfo, logWith, modify.
    rewrite fetchFurtherPages_spec, Hcat.
    eexists. split; [reflexivity|]. cbn. done.
  - intros [= <-]. exists s. done.
Qed.

Lemma sync_catalog_throw env headers (first : CatalogPage) e s :
  remoteCatalog env headers first = Throw e ->
  match products first with
  | Some ps =>
      let numberOfPages := totalPages first in
      logInfo ["Number of library pages:";
               of_number (Z.of_nat numberOfPages)] PGog;;
      fetchFurtherPages env headers numberOfPages ps
  | None => ret []
  end s = Throw e.
Proof.
  unfold remoteCatalog. destruct (products first) as [ps|]; [|discriminate].
  intros Hcat. cbv zeta. unfold bind, logInfo, logWith, modify.
  rewrite fetchFurtherPages_spec, Hcat. reflexivity.
Qed.

Lemma libraryStore_get_games_spec s :
  exists arr s',
    libraryStore_get_games s = Ok (arr, s')
    /\ array_ok (games (libraryStore s)) arr s'
    /\ gameHeap s `prefix_of` gameHeap s'
    /\ installHeap s `prefix_of` installHeap s'
    /\ libraryStore s' = libraryStore s
    /\ apiInfoCache s' = apiInfoCache s
    /\ installedGamesStore s' = installedGamesStore s
    /\ library s' = library s
    /\ installedGames s' = installedGames s.
Proof.
  unfold libraryStore_get_games, bind, gets.
  destruct (games (libraryStore s)) as [gs|] eqn:Hgs.
  - destruct (mapM_reviveGame gs s)
      as (ls & s' & Hrun & Hg & Hi & Hall & Hl & Hc & Hs & Hlib & Hig & _).
    exists (Some ls), s'. rewrite Hrun. unfold ret.
    split; [reflexivity|]. unfold array_ok. done.
  - exists None, s. unfold ret, array_ok. done.
Qed.

(** The reconciliation loop of [sync] always returns.  The references it
    collects denote the records to persist; every entry has a cached copy,
    which carries the installed state when the title is installed. *)
Lemma sync_loop_spec env stored cache0 arr (cat : list GOGGameInfo) s :
  array_ok stored arr s -> cache_ok env cache0 s ->
  exists objs s',
    forOf (syncEntry env arr) cat [] s = Ok (objs, s')
    /\ Forall2 (fun game u =>
                  snapshot s' u = Some (persistedValue env stored cache0 game))
         cat objs
    /\ gameHeap s `prefix_of` gameHeap s'
    /\ installHeap s `prefix_of` installHeap s'
    /\ libraryStore s' = libraryStore s
    /\ installedGamesStore s' = installedGamesStore s
    /\ installedGames s' = installedGames s
    /\ (forall game, game ∈ cat ->
          exists c g,
            map_get (of_number (id game)) (library s') = Some c
            /\ gameHeap s' !! c = Some g
            /\ app_name g = of_number (id game)
            /\ forall i,
                 map_get (Some (of_number (id game))) (installedGames s) = Some i ->
                 is_installed g = true /\ install g = i).
Proof.
  intros Harr Hcache.
  pose (I := fun (done : list GOGGameInfo) (objs : list loc) (s' : State) =>
     array_ok stored arr s' /\ cache_ok env cache0 s'
     /\ Forall2 (fun game u =>
                   snapshot s' u = Some (persistedValue env stored cache0 game))
          done objs
     /\ gameHeap s `prefix_of` gameHeap s'
     /\ installHeap s `prefix_of` installHeap s'
     /\ libraryStore s' = libraryStore s
     /\ installedGamesStore s' = installedGamesStore s
     /\ installedGames s' = installedGames s
     /\ (forall game, game ∈ done ->
           exists c g,
             map_get (of_number (id game)) (library s') = Some c
             /\ gameHeap s' !! c = Some g
             /\ app_name g = of_number (id game)
             /\ forall i,
                  map_get (Some (of_number (id game))) (installedGames s) = Some i ->
                  is_installed g = true /\ install g = i)).
  destruct (forOf_total I (syncEntry env arr) cat) with (acc := @nil loc) (st := s)
    as (objs & s' & Hrun & HI).
  - intros done x rest objs s1 _
      (Harr1 & Hcache1 & Hall1 & Hg1 & Hi1 & Hl1 & Hs1 & Hig1 & Hlib1).
    destruct (syncEntry_spec env stored cache0 arr objs x s1 Harr1 Hcache1)
      as (u & c & g & s2 & Hrun2 & Hg2 & Hi2 & Hsnap2 & Hcache2 & Hl2 & Hs2
          & Hig2 & Hlib2 & Hc2 & Hname2 & Hinst2).
    exists (objs ++ [u])%list, s2. split; [exact Hrun2|].
    unfold I.
    split; [exact (array_ok_prefix _ _ _ _ Hg2 Hi2 Harr1)|].
    split; [exact Hcache2|].
    split.
    { apply Forall2_app.
      - eapply Forall2_impl; [exact Hall1|].
        intros game' u'. apply snapshot_prefix; assumption.
      - constructor; [exact Hsnap2 | constructor]. }
    split; [etrans; eassumption|]. split; [etrans; eassumption|].
    split; [congruence|]. split; [congruence|]. split; [congruence|].
    intros game Hin.
    destruct (decide (of_number (id game) = of_number (id x))) as [Heq|Hne].
    + exists c, g. rewrite Hlib2, Heq, map_get_set_eq.
      split; [reflexivity|]. split; [exact Hc2|].
      split; [rewrite Hname2; apply persistedValue_app_name|].
      intros i Hi. rewrite Hig1, Hi in Hinst2. exact Hinst2.
    + apply elem_of_app in Hin as [Hin|Hin].
      * destruct (Hlib1 game Hin) as (c' & g' & Hc' & Hg' & Hname' & Hinst').
        exists c', g'. rewrite Hlib2, map_get_set_ne by congruence.
        split; [exact Hc'|].
        split; [exact (prefix_lookup_Some _ _ _ _ Hg' Hg2)|].
        split; [exact Hname' | exact Hinst'].
      * apply list_elem_of_singleton in Hin. subst game. contradiction.
  - unfold I. split; [exact Harr|]. split; [exact Hcache|].
    split; [constructor|]. do 5 (split; [reflexivity|]).
    intros game Hin. apply elem_of_nil in Hin. contradiction.
  - destruct HI as (_ & _ & Hall & Hg & Hi & Hl & Hs & Hig & Hlib).
    exists objs, s'. repeat split; assumption.
Qed.

Lemma installed_wf_prefix s s' :
  installedGames s' = installedGames s ->
  installHeap s `prefix_of` installHeap s' ->
  installed_wf s -> installed_wf s'.
Proof.
  intros Hig Hi [Hnd Hwf]. unfold installed_wf. rewrite Hig.
  split; [exact Hnd|]. intros k ref Hin.
  destruct (Hwf k ref Hin) as (g & Hg & Hk). exists g.
  split; [exact (prefix_lookup_Some _ _ _ _ Hg Hi) | exact Hk].
Qed.

(** ** [sync]: the whole synchronisation *)

(** With a session, credentials, and a catalog whose pages can all be
    fetched, [sync] returns.  The Library Store then holds, for each entry
    of the merged catalog in order, the stored record with the entry's
    identifier or else a newly built one; the installed map is rebuilt from
    the Installed Store; and every entry has a cached copy that carries the
    installed state when the title is installed. *)
Lemma sync_spec env st credentials status (first : CatalogPage) cat :
  isLoggedIn env = true ->
  getCredentials env = Some credentials ->
  axios_get defaultValidateStatus
    (getFilteredProducts env (catalogUrl None) (catalogHeaders credentials))
    = Ok (status, first) ->
  remoteCatalog env (catalogHeaders credentials) first = Ok cat ->
  exists st',
    sync env st = Ok (tt, st')
    /\ libraryStore st'
       = mkLibraryStore
           (Some (List.map
                    (persistedValue env (games (libraryStore st))
                       (apiInfoCache st)) cat))
           (Some (totalProducts first)) (Some (moviesCount first))
    /\ installedGamesStore st' = installedGamesStore st
    /\ installed_wf st'
    /\ (forall k ref, (k, ref) ∈ installedGames st' ->
          exists r, installHeap st' !! ref = Some r
                    /\ r ∈ default [] (installedGamesStore st)
                    /\ appName r = k)
    /\ (forall r, r ∈ default [] (installedGamesStore st) ->
          is_Some (map_get (appName r) (installedGames st')))
    /\ (forall game, game ∈ cat ->
          exists c g,
            map_get (of_number (id game)) (library st') = Some c
            /\ gameHeap st' !! c = Some g
            /\ app_name g = of_number (id game)
            /\ forall i,
                 map_get (Some (of_number (id game))) (installedGames st') = Some i ->
                 is_installed g = true /\ install g = i).
Proof.
  intros Hlogged Hcred Hpage Hcat.
  destruct (refreshInstalled_spec st)
    as (s1 & Hrefresh & Hl1 & Hc1 & Hs1 & Hg1 & Hlib1 & Hlog1 & Hh1 & Hwf1
        & Hge1 & Hcov1).
  set (s2 := set_log (log s1 ++ [mkLogEntry LInfo PGog ["Getting GOG library"]]) s1).
  destruct (sync_catalog_spec env (catalogHeaders credentials) first cat s2 Hcat)
    as (s3 & Hcatalog & Hl3 & Hc3 & Hs3 & Hg3 & Hh3 & Hlib3 & Hig3).
  destruct (libraryStore_get_games_spec s3)
    as (arr & s4 & Hget & Harr & Hg4 & Hh4 & Hl4 & Hc4 & Hs4 & Hlib4 & Hig4).
  assert (Hstore : games (libraryStore s3) = games (libraryStore st))
    by (rewrite Hl3; cbn; rewrite Hl1; reflexivity).
  rewrite Hstore in Harr.
  assert (Hcache : cache_ok env (apiInfoCache st) s4).
  { assert (Heq : apiInfoCache s4 = apiInfoCache st)
      by (rewrite Hc4, Hc3; cbn; exact Hc1).
    unfold cache_ok. rewrite Heq. split.
    - intros key d Hd. unfold apiDataFor. rewrite Hd. reflexivity.
    - intros key Hd. exact Hd. }
  destruct (sync_loop_spec env (games (libraryStore st)) (apiInfoCache st)
              arr cat s4 Harr Hcache)
    as (objs & s5 & Hloop & Hall & Hg5 & Hh5 & Hl5 & Hs5 & Hig5 & Hlib5).
  assert (Hsnap : mapM snapshotGame objs s5
                  = Ok (List.map (persistedValue env (games (libraryStore st))
                                    (apiInfoCache st)) cat, s5)).
  { apply mapM_snapshotGame. apply Forall2_flip.
    clear -Hall. induction Hall; constructor; assumption. }
  eexists. split.
  { unfold sync. rewrite Hlogged. cbn [negb].
    rewrite (bind_Ok _ _ _ _ _ Hrefresh), Hcred. cbv zeta.
    unfold bind at 1. unfold logInfo at 1, logWith at 1, modify at 1.
    fold s2. unfold bind at 1. rewrite Hpage. unfold ret at 1.
    rewrite (bind_Ok _ _ _ _ _ Hcatalog), (bind_Ok _ _ _ _ _ Hget),
      (bind_Ok _ _ _ _ _ Hloop).
    unfold libraryStore_set_games.
    unfold bind at 1. unfold bind at 1. rewrite Hsnap.
    unfold bind, modify, libraryStore_set_totalGames,
      libraryStore_set_totalMovies, logInfo, logWith, modify.
    reflexivity. }
  assert (Hig : installedGames s5 = installedGames s1)
    by (rewrite Hig5, Hig4, Hig3; reflexivity).
  assert (Hh : installHeap s1 `prefix_of` installHeap s5).
  { etrans; [|exact Hh5]. etrans; [|exact Hh4]. rewrite Hh3. reflexivity. }
  cbn [libraryStore installedGamesStore installedGames installHeap gameHeap
       library set_log set_libraryStore games totalGames totalMovies].
  split; [reflexivity|].
  split; [rewrite Hs5, Hs4, Hs3; cbn; exact Hs1|].
  split.
  { apply (installed_wf_prefix s1); [exact Hig | exact Hh | exact Hwf1]. }
  split.
  { intros k ref Hin. rewrite Hig in Hin.
    destruct Hwf1 as [_ Hwf1]. destruct (Hwf1 k ref Hin) as (r & Hr & Hk).
    exists r. split; [exact (prefix_lookup_Some _ _ _ _ Hr Hh)|].
    split; [|exact Hk].
    pose proof (Hge1 k ref Hin) as Hge.
    rewrite Hh1, lookup_app_r in Hr by exact Hge.
    apply list_elem_of_lookup. eauto. }
  split.
  { intros r Hr. rewrite Hig. exact (Hcov1 r Hr). }
  intros game Hin. destruct (Hlib5 game Hin) as (c & g & Hc & Hg & Hname & Hinst).
  exists c, g. split; [exact Hc|]. split; [exact Hg|]. split; [exact Hname|].
  intros i Hi. apply Hinst. rewrite <- Hig5. exact Hi.
Qed.

(** A failure on a later page is not caught: [sync] throws the error of
    the request, and nothing is returned to the caller. *)
Lemma sync_further_page_failure (env : Env) (st : State)
    (credentials : Credentials) (status : nat) (first : CatalogPage)
    (e : JsError) :
  isLoggedIn env = true ->
  getCredentials env = Some credentials ->
  axios_get defaultValidateStatus
    (getFilteredProducts env (catalogUrl None) (catalogHeaders credentials))
    = Ok (status, first) ->
  remoteCatalog env (catalogHeaders credentials) first = Throw e ->
  sync env st = Throw e.
Proof.
  intros Hlogged Hcred Hpage Hcat.
  destruct (refreshInstalled_spec st) as (s1 & Hrefresh & _).
  unfold sync. rewrite Hlogged. cbn [negb].
  rewrite (bind_Ok _ _ _ _ _ Hrefresh), Hcred. cbv zeta.
  unfold bind at 1. unfold logInfo at 1, logWith at 1, modify at 1.
  unfold bind at 1. rewrite Hpage. unfold ret at 1.
  unfold bind at 1.
  rewrite (sync_catalog_throw env (catalogHeaders credentials) first e _ Hcat).
  reflexivity.
Qed.




(** C1 as stated fails: title 1 is in the Installed Store and in the
    catalog, and after [sync] its entry in the persisted catalog array has
    [is_installed = false] and the empty [install] literal. *)
Lemma persisted_entry_not_marked_installed :
  sync syncEnv syncState = Ok (tt, syncedState)
  /\ windowsTitle "1" "v1" ∈ default [] (installedGamesStore syncState)
  /\ appName (windowsTitle "1" "v1") = Some (entryKey (catalogEntry 1 "One"))
  /\ remoteCatalog syncEnv (catalogHeaders (mkCredentials "token"))
       (mkCatalogPage (Some [catalogEntry 1 "One"]) 2 3 0)
     = Ok [catalogEntry 1 "One"; catalogEntry 2 "Two"; catalogEntry 3 "Three"]
  /\ exists v rest,
       games (libraryStore syncedState) = Some (v :: rest)
       /\ app_name v = entryKey (catalogEntry 1 "One")
       /\ is_installed v = false
       /\ install v = emptyInstall
       /\ Forall (fun v' => app_name v' <> entryKey (catalogEntry 1 "One")) rest.
Proof.
  split; [vm_compute; reflexivity|].
  split; [left|]. split; [reflexivity|]. split; [vm_compute; reflexivity|].
  eexists. eexists. split; [reflexivity|].
  split; [reflexivity|]. split; [reflexivity|]. split; [reflexivity|].
  repeat constructor; discriminate.
Qed.

(** C1, amended: for a title of the Installed Store that is in the merged
    catalog, after [sync] the cached in-memory record of the title has
    [is_installed = true] and its [install] field is the object the
    installed map holds for the title, a record of the Installed Store
    with that identifier.  The persisted catalog array has an entry with
    the identifier, and no such entry is given this installed state: it is
    the record stored under the identifier before the call, unchanged, or
    else a newly built record, with [is_installed = false] and the empty
    [install] literal. *)
Theorem sync_marks_cached_record_installed (env : Env) (st : State)
    (credentials : Credentials) (status : nat) (first : CatalogPage)
    (cat : list GOGGameInfo) (game : GOGGameInfo) (r : InstalledInfo) :
  isLoggedIn env = true ->
  getCredentials env = Some credentials ->
  axios_get defaultValidateStatus
    (getFilteredProducts env (catalogUrl None) (catalogHeaders credentials))
    = Ok (status, first) ->
  remoteCatalog env (catalogHeaders credentials) first = Ok cat ->
  game ∈ cat ->
  r ∈ default [] (installedGamesStore st) ->
  appName r = Some (entryKey game) ->
  exists st' c g r' gs,
    sync env st = Ok (tt, st')
    /\ getGameInfo (entryKey game) st' = Ok (Some c, st')
    /\ gameHeap st' !! c = Some g
    /\ app_name g = entryKey game
    /\ is_installed g = true
    /\ map_get (Some (entryKey game)) (installedGames st') = Some (install g)
    /\ installHeap st' !! install g = Some r'
    /\ r' ∈ default [] (installedGamesStore st)
    /\ appName r' = Some (entryKey game)
    /\ games (libraryStore st') = Some gs
    /\ (exists v, v ∈ gs /\ app_name v = entryKey game)
    /\ forall v, v ∈ gs -> app_name v = entryKey game ->
         match findStored (entryKey game) (games (libraryStore st)) with
         | Some stored => v = stored
         | None => is_installed v = false /\ install v = emptyInstall
         end.
Proof.
  intros Hlogged Hcred Hpage Hcat Hgame Hr Hname.
  destruct (sync_spec env st credentials status first cat
              Hlogged Hcred Hpage Hcat)
    as (st' & Hrun & Hstore & _ & _ & Hrefs & Hcov & Hlib).
  destruct (Hlib game Hgame) as (c & g & Hc & Hg & Happ & Hinst).
  destruct (Hcov r Hr) as (i & Hi). rewrite Hname in Hi.
  destruct (Hinst i Hi) as (Htrue & Hinstall).
  destruct (Hrefs (Some (entryKey game)) i (map_get_Some_elem _ _ _ Hi))
    as (r' & Hr' & Hin' & Hname').
  exists st', c, g, r'. eexists. split; [exact Hrun|].
  split; [unfold getGameInfo, gets; unfold entryKey; rewrite Hc; reflexivity|].
  rewrite Hinstall.
  do 7 (split; [done|]).
  split; [rewrite Hstore; reflexivity|]. split.
  - exists (persistedValue env (games (libraryStore st)) (apiInfoCache st) game).
    split; [|apply persistedValue_app_name].
    apply list_elem_of_In, in_map, list_elem_of_In. exact Hgame.
  - intros v Hv Hkey.
    apply list_elem_of_In, in_map_iff in Hv as (game' & <- & _).
    rewrite persistedValue_app_name in Hkey. unfold entryKey in *.
    rewrite <- Hkey.
    destruct (findStored (of_number (id game')) (games (libraryStore st)))
      as [stored|] eqn:Hfind.
    + unfold persistedValue. rewrite Hfind. reflexivity.
    + apply persistedValue_new. exact Hfind.
Qed.

Lemma sync_marks_cached_record_installed_witness :
  exists st' c g,
    sync syncEnv syncState = Ok (tt, st')
    /\ getGameInfo "1" st' = Ok (Some c, st')
    /\ gameHeap st' !! c = Some g
    /\ is_installed g = true.
Proof.
  destruct (sync_marks_cached_record_installed syncEnv syncState
              (mkCredentials "token") 200
              (mkCatalogPage (Some [catalogEntry 1 "One"]) 2 3 0)
              [catalogEntry 1 "One"; catalogEntry 2 "Two"; catalogEntry 3 "Three"]
              (catalogEntry 1 "One") (windowsTitle "1" "v1")
              eq_refl eq_refl eq_refl eq_refl)
    as (st' & c & g & r' & gs & Hrun & Hget & Hg & _ & Htrue & _).
  - left.
  - left.
  - reflexivity.
  - exists st', c, g. done.
Defined.

(** C2: the array [sync] writes to the Library Store holds, for each
    catalog entry, the record the entry was reconciled with: the stored
    record with the entry's identifier, exactly as it was stored, or else a
    newly built record, whose [is_installed] is false and whose [install]
    is the empty literal.  The installed state goes to the cached copies
    only, which carry it for every installed title: the array written is
    the same whatever the Installed Store and the in-memory state are. *)
Theorem sync_persists_original_records (env : Env) (st : State)
    (credentials : Credentials) (status : nat) (first : CatalogPage)
    (cat : list GOGGameInfo) :
  isLoggedIn env = true ->
  getCredentials env = Some credentials ->
  axios_get defaultValidateStatus
    (getFilteredProducts env (catalogUrl None) (catalogHeaders credentials))
    = Ok (status, first) ->
  remoteCatalog env (catalogHeaders credentials) first = Ok cat ->
  exists st' gs,
    sync env st = Ok (tt, st')
    /\ games (libraryStore st') = Some gs
    /\ Forall2
         (fun game v =>
            app_name v = entryKey game
            /\ match findStored (entryKey game) (games (libraryStore st)) with
               | Some r => v = r
               | None =>
                   v = unifiedValue env game
                         (Some (apiDataFor env (apiInfoCache st) (entryKey game)))
                   /\ is_installed v = false
                   /\ install v = emptyInstall
               end)
         cat gs
    /\ (forall game, game ∈ cat ->
          exists c g,
            getGameInfo (entryKey game) st' = Ok (Some c, st')
            /\ gameHeap st' !! c = Some g
            /\ app_name g = entryKey game
            /\ forall i,
                 map_get (Some (entryKey game)) (installedGames st') = Some i ->
                 is_installed g = true /\ install g = i)
    /\ forall st2 : State,
         libraryStore st2 = libraryStore st ->
         apiInfoCache st2 = apiInfoCache st ->
         exists st2', sync env st2 = Ok (tt, st2')
                      /\ libraryStore st2' = libraryStore st'.
Proof.
  intros Hlogged Hcred Hpage Hcat.
  destruct (sync_spec env st credentials status first cat
              Hlogged Hcred Hpage Hcat)
    as (st' & Hrun & Hstore & _ & _ & _ & _ & Hlib).
  exists st'. eexists. split; [exact Hrun|].
  split; [rewrite Hstore; reflexivity|]. split; [|split].
  - apply Forall2_fmap_r, Forall_Forall2_diag, List.Forall_forall.
    intros game _. split; [apply persistedValue_app_name|].
    unfold entryKey.
    destruct (findStored (of_number (id game)) (games (libraryStore st)))
      as [r|] eqn:Hfind.
    + unfold persistedValue. rewrite Hfind. reflexivity.
    + split; [unfold persistedValue; rewrite Hfind; reflexivity|].
      apply persistedValue_new. exact Hfind.
  - intros game Hin. destruct (Hlib game Hin) as (c & g & Hc & Hrest).
    exists c, g. split; [|exact Hrest].
    unfold getGameInfo, gets, entryKey. rewrite Hc. reflexivity.
  - intros st2 Hl2 Hc2.
    destruct (sync_spec env st2 credentials status first cat
                Hlogged Hcred Hpage Hcat) as (st2' & Hrun2 & Hstore2 & _).
    exists st2'. split; [exact Hrun2|].
    rewrite Hstore2, Hstore, Hl2, Hc2. reflexivity.
Qed.

Lemma sync_persists_original_records_witness :
  exists st' gs,
    sync syncEnv syncState = Ok (tt, st')
    /\ games (libraryStore st') = Some gs
    /\ Forall (fun v => is_installed v = false /\ install v = emptyInstall) gs.
Proof.
  destruct (sync_persists_original_records syncEnv syncState
              (mkCredentials "token") 200
              (mkCatalogPage (Some [catalogEntry 1 "One"]) 2 3 0)
              [catalogEntry 1 "One"; catalogEntry 2 "Two"; catalogEntry 3 "Three"]
              eq_refl eq_refl eq_refl eq_refl)
    as (st' & gs & Hrun & Hgs & Hall & _ & _).
  exists st', gs. split; [exact Hrun|]. split; [exact Hgs|].
  clear -Hall. induction Hall as [|game v cat gs [_ Hv] _ IH]; constructor.
  - apply Hv.
  - exact IH.
Defined.

(** ** [sync]: repeated synchronisation *)

(** With distinct identifiers, every entry finds its own record in the
    array a previous synchronisation persisted. *)
Lemma find_own_record (f : GOGGameInfo -> GameInfo) (cat : list GOGGameInfo)
    (game : GOGGameInfo) :
  (forall x, app_name (f x) = entryKey x) ->
  NoDup (List.map entryKey cat) -> game ∈ cat ->
  List.find (fun v => String.eqb (app_name v) (entryKey game)) (List.map f cat)
  = Some (f game).
Proof.
  intros Hf. induction cat as [|x cat IH]; intros Hnd Hin.
  - apply elem_of_nil in Hin. contradiction.
  - cbn [List.map] in Hnd. apply NoDup_cons in Hnd as [Hx Hnd].
    cbn [List.map List.find]. rewrite Hf.
    destruct (String.eqb_spec (entryKey x) (entryKey game)) as [Heq|Hne].
    + apply elem_of_cons in Hin as [->|Hin]; [reflexivity|].
      exfalso. apply Hx. rewrite Heq.
      apply list_elem_of_In, in_map, list_elem_of_In. exact Hin.
    + apply elem_of_cons in Hin as [->|Hin]; [congruence|].
      exact (IH Hnd Hin).
Qed.

Lemma persistedValue_fixpoint env stored cache cache' (cat : list GOGGameInfo) :
  NoDup (List.map entryKey cat) ->
  List.map
    (persistedValue env
       (Some (List.map (persistedValue env stored cache) cat)) cache') cat
  = List.map (persistedValue env stored cache) cat.
Proof.
  intros Hnd. apply List.map_ext_in. intros game Hin.
  unfold persistedValue at 1. unfold findStored. cbn [mbind option_bind].
  fold (entryKey game).
  rewrite (find_own_record (persistedValue env stored cache) cat game).
  - reflexivity.
  - intros x. apply persistedValue_app_name.
  - exact Hnd.
  - apply list_elem_of_In. exact Hin.
Qed.

(** C3 as stated fails for a catalog that lists an identifier twice: the
    first synchronisation builds one record per entry, the second finds the
    first of them for both entries. *)
Lemma sync_twice_duplicate_identifier :
  exists st1 st2,
    sync duplicateEnv emptyState = Ok (tt, st1)
    /\ sync duplicateEnv st1 = Ok (tt, st2)
    /\ installedGamesStore st1 = installedGamesStore emptyState
    /\ storedTitles st1 = Some ["One"; "Uno"]
    /\ storedTitles st2 = Some ["One"; "One"]
    /\ games (libraryStore st2) <> games (libraryStore st1).
Proof.
  eexists. eexists.
  split; [vm_compute; reflexivity|]. split; [vm_compute; reflexivity|].
  split; [reflexivity|]. split; [reflexivity|]. split; [reflexivity|].
  intros Heq. apply (f_equal (fmap (List.map title))) in Heq.
  vm_compute in Heq. discriminate Heq.
Qed.

(** C3, amended: when the identifiers of the merged catalog are pairwise
    distinct, a second [sync] against the same remote answers writes the
    Library Store the first one wrote; and in any case an entry whose
    identifier is found in the previously persisted array is given that
    record unmodified. *)
Theorem sync_idempotent_distinct_identifiers (env : Env) (st : State)
    (credentials : Credentials) (status : nat) (first : CatalogPage)
    (cat : list GOGGameInfo) :
  isLoggedIn env = true ->
  getCredentials env = Some credentials ->
  axios_get defaultValidateStatus
    (getFilteredProducts env (catalogUrl None) (catalogHeaders credentials))
    = Ok (status, first) ->
  remoteCatalog env (catalogHeaders credentials) first = Ok cat ->
  exists st1 gs1,
    sync env st = Ok (tt, st1)
    /\ games (libraryStore st1) = Some gs1
    /\ (forall k game r,
          cat !! k = Some game ->
          findStored (entryKey game) (games (libraryStore st)) = Some r ->
          gs1 !! k = Some r)
    /\ (NoDup (List.map entryKey cat) ->
        exists st2,
          sync env st1 = Ok (tt, st2)
          /\ libraryStore st2 = libraryStore st1
          /\ installedGamesStore st2 = installedGamesStore st1).
Proof.
  intros Hlogged Hcred Hpage Hcat.
  destruct (sync_spec env st credentials status first cat
              Hlogged Hcred Hpage Hcat) as (st1 & Hrun1 & Hstore1 & Hs1 & _).
  exists st1. eexists. split; [exact Hrun1|].
  split; [rewrite Hstore1; reflexivity|]. split.
  - intros k game r Hk Hfind.
    rewrite list_lookup_fmap, Hk. cbn. f_equal.
    unfold persistedValue. unfold entryKey in Hfind. rewrite Hfind.
    reflexivity.
  - intros Hnd.
    destruct (sync_spec env st1 credentials status first cat
                Hlogged Hcred Hpage Hcat) as (st2 & Hrun2 & Hstore2 & Hs2 & _).
    exists st2. split; [exact Hrun2|]. split; [|exact Hs2].
    rewrite Hstore2, Hstore1. cbn [games].
    rewrite persistedValue_fixpoint by exact Hnd. reflexivity.
Qed.

Lemma sync_idempotent_distinct_identifiers_witness :
  exists st1 st2,
    sync syncEnv syncState = Ok (tt, st1)
    /\ sync syncEnv st1 = Ok (tt, st2)
    /\ libraryStore st2 = libraryStore st1.
Proof.
  destruct (sync_idempotent_distinct_identifiers syncEnv syncState
              (mkCredentials "token") 200
              (mkCatalogPage (Some [catalogEntry 1 "One"]) 2 3 0)
              [catalogEntry 1 "One"; catalogEntry 2 "Two"; catalogEntry 3 "Three"]
              eq_refl eq_refl eq_refl eq_refl)
    as (st1 & gs1 & Hrun1 & _ & _ & Hsecond).
  destruct Hsecond as (st2 & Hrun2 & Hstore & _).
  { vm_compute. repeat constructor; intros Hin;
      repeat (apply elem_of_cons in Hin as [Hin|Hin]; [discriminate Hin|]);
      apply elem_of_nil in Hin; exact Hin. }
  exists st1, st2. done.
Defined.


(** * Further properties *)

(** ** [getGogdlCommand] *)

Lemma includes_quoteIfSpaced_eq (sub path : string) :
  ascii_of_nat 34 ∉ chars sub -> sub <> EmptyString ->
  includes (quoteIfSpaced path) sub = includes path sub.
Proof.
  intros Hq Hne. unfold quoteIfSpaced.
  destruct (includes path space); [|reflexivity].
  change (dquote ++ path ++ dquote)
    with (EmptyString ++ String (ascii_of_nat 34) (path ++ String (ascii_of_nat 34) EmptyString)).
  rewrite !includes_app_sep by assumption.
  rewrite includes_empty by assumption.
  rewrite orb_false_r. reflexivity.
Qed.

(** X1: for a text without space or double quote, the command contains
    the text exactly when the binary path does or an argument that is
    echoed (non-empty, not starting with [--token]) does. *)
Theorem getGogdlCommand_echo (path text : string) (parts : list string) :
  text <> EmptyString ->
  ascii_of_nat 32 ∉ chars text -> ascii_of_nat 34 ∉ chars text ->
  includes (getGogdlCommand path parts) text
  = includes path text
    || existsb (fun a => keepPart a && includes a text) parts.
Proof.
  intros Hne Hsp Hq. unfold getGogdlCommand.
  rewrite includes_join_space by assumption.
  cbn [existsb]. rewrite includes_quoteIfSpaced_eq by assumption.
  f_equal. induction parts as [|a parts IH]; [reflexivity|].
  cbn [List.filter existsb]. destruct (keepPart a); cbn [existsb andb].
  - rewrite IH. reflexivity.
  - exact IH.
Qed.

Lemma getGogdlCommand_echo_witness :
  includes (getGogdlCommand "/opt/gogdl" ["info"; "--token=abc"; "--os"]) "abc"
  = false.
Proof.
  rewrite (getGogdlCommand_echo "/opt/gogdl" "abc").
  - reflexivity.
  - discriminate.
  - vm_compute. intros H.
    repeat (apply elem_of_cons in H as [H|H]; [discriminate|]).
    apply elem_of_nil in H. exact H.
  - vm_compute. intros H.
    repeat (apply elem_of_cons in H as [H|H]; [discriminate|]).
    apply elem_of_nil in H. exact H.
Defined.

Lemma prefix_app_self (s b : string) : String.prefix s (s ++ b) = true.
Proof.
  induction s as [|c s IH]; [destruct b; reflexivity|].
  change (String c s ++ b) with (String c (s ++ b)). cbn [String.prefix].
  destruct (ascii_dec c c); [exact IH | congruence].
Qed.

Lemma includes_prefix (s t : string) :
  String.prefix s t = true -> includes t s = true.
Proof.
  destruct t as [|c t]; cbn [includes]; intros ->; reflexivity.
Qed.

Lemma includes_skip (a t s : string) :
  includes t s = true -> includes (a ++ t) s = true.
Proof.
  intros Ht. induction a as [|c a IH]; [exact Ht|].
  change (String c a ++ t) with (String c (a ++ t)). cbn [includes].
  rewrite IH. apply orb_true_r.
Qed.

Lemma includes_middle (a s b : string) : includes (a ++ s ++ b) s = true.
Proof. apply includes_skip, includes_prefix, prefix_app_self. Qed.

Lemma join_elem (sep a : string) (l : list string) :
  In a l -> exists x y, join sep l = x ++ a ++ y.
Proof.
  induction l as [|b l IH]; [intros []|].
  intros [->|Hin].
  - destruct l as [|c l].
    + exists EmptyString, EmptyString. cbn.
      change (EmptyString ++ a ++ EmptyString) with (a ++ EmptyString).
      clear. induction a as [|c a IH]; [reflexivity|].
      change (String c a ++ EmptyString) with (String c (a ++ EmptyString)).
      rewrite <- IH. reflexivity.
    + exists EmptyString, (sep ++ join sep (c :: l)). reflexivity.
  - destruct (IH Hin) as (x & y & Heq).
    destruct l as [|c l]; [destruct Hin|].
    exists (b ++ sep ++ x), y.
    change (join sep (b :: c :: l)) with (b ++ sep ++ join sep (c :: l)).
    rewrite Heq. clear.
    induction b as [|c0 b IHb].
    + change (EmptyString ++ sep ++ x ++ a ++ y) with (sep ++ x ++ a ++ y).
      change ((EmptyString ++ sep ++ x) ++ a ++ y) with ((sep ++ x) ++ a ++ y).
      induction sep as [|c1 sep IHs]; [reflexivity|].
      change (String c1 sep ++ x ++ a ++ y) with (String c1 (sep ++ x ++ a ++ y)).
      change ((String c1 sep ++ x) ++ a ++ y) with (String c1 ((sep ++ x) ++ a ++ y)).
      rewrite IHs. reflexivity.
    + change (String c0 b ++ sep ++ x ++ a ++ y)
        with (String c0 (b ++ sep ++ x ++ a ++ y)).
      change ((String c0 b ++ sep ++ x) ++ a ++ y)
        with (String c0 ((b ++ sep ++ x) ++ a ++ y)).
      rewrite IHb. reflexivity.
Qed.

(** X2: the redaction looks at each argument on its own.  A secret given
    as a separate argument after a bare [--token] is echoed, and so is
    every echoed argument, whatever the binary path. *)
Theorem getGogdlCommand_echoes_kept_argument (path a : string)
    (parts : list string) :
  In a parts -> a <> EmptyString -> startsWith a "--token" = false ->
  includes (getGogdlCommand path parts) a = true.
Proof.
  intros Hin Hne Hs. unfold getGogdlCommand.
  assert (Hkept : In a (quoteIfSpaced path :: List.filter keepPart parts)).
  { right. apply filter_In. split; [exact Hin|]. unfold keepPart.
    rewrite Hs. destruct a; [congruence | reflexivity]. }
  destruct (join_elem space a _ Hkept) as (x & y & ->).
  apply includes_middle.
Qed.

Lemma getGogdlCommand_echoes_kept_argument_witness :
  includes (getGogdlCommand "/opt/gogdl" ["info"; "--token"; "SECRET"]) "SECRET"
  = true.
Proof.
  apply (getGogdlCommand_echoes_kept_argument "/opt/gogdl" "SECRET"
           ["info"; "--token"; "SECRET"]).
  - right. right. left. reflexivity.
  - discriminate.
  - reflexivity.
Defined.

(** ** [runGogdlCommand] *)

Lemma string_app_assoc (a b c : string) : (a ++ b) ++ c = a ++ b ++ c.
Proof.
  induction a as [|x a IH]; [reflexivity|].
  change ((String x a ++ b) ++ c) with (String x ((a ++ b) ++ c)).
  rewrite IH. reflexivity.
Qed.

Lemma string_app_empty_r (a : string) : a ++ EmptyString = a.
Proof.
  induction a as [|x a IH]; [reflexivity|].
  change (String x a ++ EmptyString) with (String x (a ++ EmptyString)).
  rewrite IH. reflexivity.
Qed.

Lemma filter_keepPart_truthy (parts : list string) :
  List.filter keepPart (List.filter truthy parts) = List.filter keepPart parts.
Proof.
  induction parts as [|a parts IH]; [reflexivity|].
  cbn [List.filter]. destruct a as [|c a]; cbn [truthy].
  - exact IH.
  - cbn [List.filter]. rewrite IH. reflexivity.
Qed.

Lemma getGogdlCommand_truthy (path : string) (parts : list string) :
  getGogdlCommand path (List.filter truthy parts) = getGogdlCommand path parts.
Proof. unfold getGogdlCommand. rewrite filter_keepPart_truthy. reflexivity. Qed.

(** The entries [runGogdlCommand] adds to the log before the child runs. *)
Lemma chunkData_cons (event : Stream * string) (events : list (Stream * string)) :
  chunkData (event :: events) = snd event ++ chunkData events.
Proof.
  unfold chunkData. cbn [List.map].
  destruct (List.map snd events) as [|d ds] eqn:Hd.
  - cbn. rewrite string_app_empty_r. reflexivity.
  - reflexivity.
Qed.

(** What the handlers that write the log file leave in the files. *)
Lemma logChunks_content (host : Host) (p : string)
    (events : list (Stream * string)) (files : gmap string string) :
  logChunks host p events files
  = match events with
    | [] => Ok files
    | _ :: _ =>
        if canWrite host p
        then Ok (<[p := default EmptyString (files !! p) ++ chunkData events]>
                   files)
        else Throw (fsError host p)
    end.
Proof.
  revert files. induction events as [|event events IH]; intros files;
    [reflexivity|].
  cbn [logChunks]. unfold appendFileSync.
  destruct (canWrite host p); [|reflexivity].
  rewrite IH. destruct events as [|event' events].
  - rewrite chunkData_cons. unfold chunkData at 1. cbn.
    rewrite string_app_empty_r. reflexivity.
  - rewrite lookup_insert_eq, insert_insert_eq.
    change (default EmptyString (Some ?x)) with x.
    rewrite (chunkData_cons event), string_app_assoc. reflexivity.
Qed.

(** What a call of [runGogdlCommand] does once the log file is emptied
    and written: [files'] are the files the handlers leave. *)
Lemma runGogdlCommand_run (host : Host) (commandParts : list string)
    (logFile : option string) (env : option (list (string * string)))
    (files files1 files' : gmap string string) (st : State) :
  let child :=
    spawn host (gogdlBin host) (List.filter truthy commandParts)
      (gogdlDir host) (default (process_env host) env) in
  (if existsSync host files logFile
   then writeFileSync host (interpolate logFile) EmptyString files
   else Ok files) = Ok files1 ->
  (if truthy_opt logFile
   then logChunks host (interpolate logFile) (chunks child) files1
   else Ok files1) = Ok files' ->
  exists res entries,
    runGogdlCommand host commandParts logFile env files st
    = Resolved ((res, files'), set_log (log st ++ entries) st)
    /\ fullCommand res = getGogdlCommand (gogdlFullPath host) commandParts
    /\ match ending child with
       | Closed =>
           error res = None
           /\ stdout res = join newline (collected host Stdout (chunks child))
           /\ stderr res = join newline (collected host Stderr (chunks child))
       | Failed e =>
           error res = Some e
           /\ stdout res = EmptyString /\ stderr res = EmptyString
           /\ exists before, entries
                = app before
                    [mkLogEntry LError PLegendary
                       ["Error running GOGDL command " ++ dquote
                        ++ getGogdlCommand (gogdlFullPath host) commandParts
                        ++ dquote ++ ": " ++ e]]
       end.
Proof.
  intros child Hempty Hlog. unfold runGogdlCommand.
  rewrite getGogdlCommand_truthy. fold child.
  set (safe := getGogdlCommand (gogdlFullPath host) commandParts).
  set (running := mkLogEntry LDebug PGog ["Running GOGDL command:"; safe]).
  set (logging := mkLogEntry LDebug PGog
                    ["Logging to file"; dquote ++ interpolate logFile ++ dquote]).
  destruct (truthy_opt logFile) eqn:Htruthy;
    destruct (existsSync host files logFile) eqn:Hexists;
    cbv beta iota in Hempty, Hlog;
    unfold await, run, listen, resolve, bind, lift, logDebug, logError, logWith,
      modify, ret;
    rewrite ?Hexists; cbv beta iota;
    try rewrite Hempty; try (injection Hempty as <-);
    cbv beta iota; try rewrite Hlog; try (injection Hlog as <-);
    destruct (ending child) as [|e]; cbn [log set_log].
  1, 3: eexists; exists [running; logging];
    (split; [rewrite <- app_assoc; destruct st; reflexivity|]);
    (split; [reflexivity|]); repeat split.
  1, 2: eexists;
    exists [running; logging;
            mkLogEntry LError PLegendary
              ["Error running GOGDL command " ++ dquote ++ safe ++ dquote
               ++ ": " ++ e]];
    (split; [rewrite <- !app_assoc; destruct st; reflexivity|]);
    (split; [reflexivity|]); repeat split;
    exists [running; logging]; reflexivity.
  1, 3: eexists; exists [running];
    (split; [destruct st; reflexivity|]);
    (split; [reflexivity|]); repeat split.
  1, 2: eexists;
    exists [running;
            mkLogEntry LError PLegendary
              ["Error running GOGDL command " ++ dquote ++ safe ++ dquote
               ++ ": " ++ e]];
    (split; [rewrite <- !app_assoc; destruct st; reflexivity|]);
    (split; [reflexivity|]); repeat split;
    exists [running]; reflexivity.
Qed.

(** X3: [runGogdlCommand] touches the module state only through the log.
    Its promise is rejected, with the error of the file system, exactly
    when the log file exists and cannot be written: the file is emptied
    before the promise with the [catch] is made.  Otherwise it never
    settles exactly when a log file is given that cannot be written and
    the child sends data: the handler that appends to the file throws.
    In every other case, and always without a log file, it is resolved:
    [fullCommand] is the redacted command of the arguments; when the child
    closes, [stdout] and [stderr] are the trimmed chunks of each stream
    joined by newlines; when the child cannot be run the result carries the
    error and empty [stdout] and [stderr], whatever had arrived, and the
    error is logged. *)
Theorem runGogdlCommand_result (host : Host) (commandParts : list string)
    (logFile : option string) (env : option (list (string * string)))
    (files : gmap string string) (st : State) :
  let child :=
    spawn host (gogdlBin host) (List.filter truthy commandParts)
      (gogdlDir host) (default (process_env host) env) in
  let path := interpolate logFile in
  if existsSync host files logFile && negb (canWrite host path)
  then runGogdlCommand host commandParts logFile env files st
       = Rejected (fsError host path)
  else if truthy_opt logFile && negb (canWrite host path)
          && match chunks child with [] => false | _ :: _ => true end
  then runGogdlCommand host commandParts logFile env files st = Pending
  else
    exists res files' entries,
      runGogdlCommand host commandParts logFile env files st
      = Resolved ((res, files'), set_log (log st ++ entries) st)
      /\ fullCommand res = getGogdlCommand (gogdlFullPath host) commandParts
      /\ match ending child with
         | Closed =>
             error res = None
             /\ stdout res = join newline (collected host Stdout (chunks child))
             /\ stderr res = join newline (collected host Stderr (chunks child))
         | Failed e =>
             error res = Some e
             /\ stdout res = EmptyString /\ stderr res = EmptyString
             /\ exists before, entries
                  = app before
                      [mkLogEntry LError PLegendary
                         ["Error running GOGDL command " ++ dquote
                          ++ getGogdlCommand (gogdlFullPath host) commandParts
                          ++ dquote ++ ": " ++ e]]
         end.
Proof.
  intros child path.
  destruct (existsSync host files logFile) eqn:Hexists;
    destruct (canWrite host path) eqn:Hwrite; cbn [andb negb].
  - (* the log file is emptied and written *)
    rewrite andb_false_r. cbn [andb].
    destruct (runGogdlCommand_run host commandParts logFile env files
                (<[path := EmptyString]> files)
                (if truthy_opt logFile
                 then match chunks child with
                      | [] => <[path := EmptyString]> files
                      | _ :: _ =>
                          <[path := default EmptyString
                                      (<[path := EmptyString]> files !! path)
                                    ++ chunkData (chunks child)]>
                            (<[path := EmptyString]> files)
                      end
                 else <[path := EmptyString]> files) st)
      as (res & entries & Hrun).
    + rewrite Hexists. unfold writeFileSync. fold path. rewrite Hwrite.
      reflexivity.
    + fold child. fold path. rewrite logChunks_content, Hwrite.
      destruct (truthy_opt logFile); [|reflexivity].
      destruct (chunks child); reflexivity.
    + exists res. eexists. exists entries. exact Hrun.
  - (* the log file exists and cannot be emptied *)
    unfold runGogdlCommand, await, run, bind, lift, logDebug, logWith, modify,
      ret.
    rewrite Hexists. unfold writeFileSync. fold path. rewrite Hwrite.
    destruct (truthy_opt logFile); reflexivity.
  - (* there is no log file to empty, and the path can be written *)
    rewrite andb_false_r. cbn [andb].
    destruct (runGogdlCommand_run host commandParts logFile env files files
                (if truthy_opt logFile
                 then match chunks child with
                      | [] => files
                      | _ :: _ =>
                          <[path := default EmptyString (files !! path)
                                    ++ chunkData (chunks child)]> files
                      end
                 else files) st)
      as (res & entries & Hrun).
    + rewrite Hexists. reflexivity.
    + fold child. fold path. rewrite logChunks_content, Hwrite.
      destruct (truthy_opt logFile); [|reflexivity].
      destruct (chunks child); reflexivity.
    + exists res. eexists. exists entries. exact Hrun.
  - (* there is no log file to empty, and the path cannot be written *)
    rewrite andb_true_r.
    destruct (truthy_opt logFile) eqn:Hlog; cbn [andb].
    + destruct (chunks child) as [|event events] eqn:Hchunks.
      * destruct (runGogdlCommand_run host commandParts logFile env files files
                    files st) as (res & entries & Hrun).
        -- rewrite Hexists. reflexivity.
        -- fold child. rewrite Hlog, Hchunks. reflexivity.
        -- fold child in Hrun. rewrite Hchunks in Hrun.
           exists res. eexists. exists entries. exact Hrun.
      * unfold runGogdlCommand, await, run, listen, bind, lift, logDebug,
          logWith, modify, ret.
        rewrite Hexists, Hlog. fold child. fold path.
        rewrite logChunks_content, Hchunks, Hwrite. reflexivity.
    + destruct (runGogdlCommand_run host commandParts logFile env files files
                  files st) as (res & entries & Hrun).
      * rewrite Hexists. reflexivity.
      * rewrite Hlog. reflexivity.
      * exists res. eexists. exists entries. exact Hrun.
Qed.

(** On [sampleHost] the log path [/var/log] is a directory, and
    [/etc/gogdl.log] cannot be created. *)
Example runGogdlCommand_directory_log :
  runGogdlCommand sampleHost ["info"; "2"] (Some "/var/log") None ∅ emptyState
  = Rejected (fsError sampleHost "/var/log").
Proof. reflexivity. Qed.

Example runGogdlCommand_unwritable_log :
  runGogdlCommand sampleHost ["info"; "2"] (Some "/etc/gogdl.log") None ∅
    emptyState
  = Pending.
Proof. reflexivity. Qed.

(** X4: with a log file that can be written, after [runGogdlCommand] the
    file holds exactly the data of the child's events in the order they
    arrived (its previous content is discarded; without events a missing
    file is not created); no other file changes.  Without a log file the
    promise is resolved and no file changes. *)
Theorem runGogdlCommand_log_file (host : Host) (commandParts : list string)
    (logFile : option string) (env : option (list (string * string)))
    (files : gmap string string) (st : State) :
  let child :=
    spawn host (gogdlBin host) (List.filter truthy commandParts)
      (gogdlDir host) (default (process_env host) env) in
  (truthy_opt logFile = true -> canWrite host (interpolate logFile) = true) ->
  exists res files' st',
    runGogdlCommand host commandParts logFile env files st
    = Resolved ((res, files'), st')
    /\ match logFile with
       | Some (String c p) =>
           files' !! String c p
           = match chunks child, files !! String c p with
             | [], None => None
             | events, _ => Some (chunkData events)
             end
           /\ forall q, q <> String c p -> files' !! q = files !! q
       | _ => files' = files
       end.
Proof.
  intros child Hwritable.
  destruct logFile as [[|c p]|].
  - (* the empty path *)
    destruct (runGogdlCommand_run host commandParts (Some EmptyString) env
                files files files st) as (res & entries & Hrun & _);
      [reflexivity | reflexivity |].
    exists res, files. eexists. split; [exact Hrun | reflexivity].
  - specialize (Hwritable eq_refl). cbn [interpolate] in Hwritable.
    set (path := String c p) in *.
    assert (Hexists : existsSync host files (Some path)
                      = bool_decide (is_Some (files !! path))).
    { unfold existsSync, canWrite in *. cbn [truthy path andb].
      apply andb_true_iff in Hwritable as [Hdir _].
      apply negb_true_iff in Hdir. rewrite Hdir, orb_false_r. reflexivity. }
    set (files1 := if bool_decide (is_Some (files !! path))
                   then <[path := EmptyString]> files else files).
    assert (Hfiles1 : default EmptyString (files1 !! path) = EmptyString).
    { unfold files1. destruct (files !! path) as [old|] eqn:Hold.
      - rewrite bool_decide_eq_true_2 by eauto.
        rewrite lookup_insert_eq. reflexivity.
      - rewrite bool_decide_eq_false_2 by (intros [? ?]; discriminate).
        rewrite Hold. reflexivity. }
    destruct (runGogdlCommand_run host commandParts (Some path) env files files1
                (match chunks child with
                 | [] => files1
                 | _ :: _ => <[path := chunkData (chunks child)]> files1
                 end) st) as (res & entries & Hrun & _).
    + rewrite Hexists. unfold files1, writeFileSync. cbn [interpolate].
      rewrite Hwritable.
      destruct (bool_decide (is_Some (files !! path))); reflexivity.
    + fold child. cbn [truthy_opt truthy path interpolate].
      fold path. rewrite logChunks_content, Hwritable, Hfiles1.
      destruct (chunks child); reflexivity.
    + exists res. eexists. eexists. split; [exact Hrun|].
      assert (Hother : forall q, q <> path -> files1 !! q = files !! q).
      { intros q Hq. unfold files1.
        destruct (bool_decide (is_Some (files !! path)));
          [apply lookup_insert_ne; congruence | reflexivity]. }
      destruct (chunks child) as [|event events].
      * split; [|exact Hother]. unfold files1.
        destruct (files !! path) as [old|] eqn:Hold.
        -- rewrite bool_decide_eq_true_2 by eauto.
           rewrite lookup_insert_eq. reflexivity.
        -- rewrite bool_decide_eq_false_2 by (intros [? ?]; discriminate).
           exact Hold.
      * split.
        -- rewrite lookup_insert_eq. destruct (files !! path); reflexivity.
        -- intros q Hq. rewrite lookup_insert_ne by congruence.
           apply Hother. exact Hq.
  - destruct (runGogdlCommand_run host commandParts None env files files files st)
      as (res & entries & Hrun & _); [reflexivity | reflexivity |].
    exists res, files. eexists. split; [exact Hrun | reflexivity].
Qed.

Lemma runGogdlCommand_log_file_witness :
  exists res files' st',
    runGogdlCommand sampleHost ["info"; "2"; "--token=abc"] (Some "/tmp/log")
      None {[ "/tmp/log" := "old" ]} emptyState
    = Resolved ((res, files'), st')
    /\ files' !! "/tmp/log" = Some ("warming up" ++ sampleInfoJson).
Proof.
  destruct (runGogdlCommand_log_file sampleHost ["info"; "2"; "--token=abc"]
              (Some "/tmp/log") None {[ "/tmp/log" := "old" ]} emptyState)
    as (res & files' & st' & Hrun & Hfile & _).
  - intros _. reflexivity.
  - exists res, files', st'. split; [exact Hrun | exact Hfile].
Defined.



(** ** [refreshInstalled]: the map it builds *)

Lemma refresh_loop (rs : list InstalledInfo) :
  forall (base : nat) (s : State),
    (forall i r, rs !! i = Some r -> installHeap s !! (base + i) = Some r) ->
    forOf (fun _ value =>
             let* v := readInstall value in
             modify (fun st =>
               set_installedGames
                 (map_set (appName v) value (installedGames st)) st))
          (seq base (length rs)) tt s
    = Ok (tt, set_installedGames (buildInstalled base rs (installedGames s)) s).
Proof.
  induction rs as [|r rs IH]; intros base s Hheap.
  - cbn. unfold ret. destruct s; reflexivity.
  - cbn [length seq forOf buildInstalled].
    assert (Hr : installHeap s !! base = Some r).
    { rewrite <- (Nat.add_0_r base). apply Hheap. reflexivity. }
    unfold bind at 1. unfold bind at 1. unfold readInstall at 1.
    rewrite Hr. unfold modify at 1.
    rewrite IH.
    + destruct s; reflexivity.
    + intros i r' Hi. cbn [installHeap set_installedGames].
      replace (S base + i) with (base + S i) by lia. apply Hheap. exact Hi.
Qed.

Lemma refreshInstalled_eq (st : State) :
  refreshInstalled st
  = Ok (tt,
        set_installedGames
          (buildInstalled (length (installHeap st))
             (default [] (installedGamesStore st)) [])
          (set_installHeap
             (installHeap st ++ default [] (installedGamesStore st)) st)).
Proof.
  unfold refreshInstalled, installedGamesStore_get_objects.
  unfold bind at 1. unfold bind at 1. unfold gets at 1.
  rewrite mapM_allocInstall.
  unfold bind at 1. unfold modify at 1.
  rewrite refresh_loop.
  - destruct st; reflexivity.
  - intros i r Hi. cbn [installHeap set_installedGames set_installHeap].
    rewrite lookup_app_r by lia.
    replace (length (installHeap st) + i - length (installHeap st)) with i by lia.
    exact Hi.
Qed.

Lemma lastIndex_lt k rs i : lastIndex k rs = Some i -> i < length rs.
Proof.
  revert i. induction rs as [|r rs IH]; intros i; cbn [lastIndex length];
    [discriminate|].
  destruct (lastIndex k rs) as [j|].
  - intros [= <-]. specialize (IH j eq_refl). lia.
  - destruct (decide (appName r = k)); [|discriminate].
    intros [= <-]. lia.
Qed.

Lemma map_get_buildInstalled k rs :
  forall base m,
    map_get k (buildInstalled base rs m)
    = match lastIndex k rs with
      | Some i => Some (base + i)
      | None => map_get k m
      end.
Proof.
  induction rs as [|r rs IH]; intros base m; cbn [buildInstalled lastIndex];
    [reflexivity|].
  rewrite IH. destruct (lastIndex k rs) as [i|].
  - f_equal. lia.
  - destruct (decide (appName r = k)) as [<-|Hne].
    + rewrite map_get_set_eq, Nat.add_0_r. reflexivity.
    + apply map_get_set_ne. exact Hne.
Qed.

(** X6: [refreshInstalled] always returns, and afterwards the record the
    installed map holds for an identifier is the last record of the
    Installed Store with that [appName] (none when there is none): among
    duplicates the last one wins. *)
Theorem refreshInstalled_last_record_wins (st : State) :
  exists st',
    refreshInstalled st = Ok (tt, st')
    /\ forall k,
         installedRecord st' k
         = (i ← lastIndex k (default [] (installedGamesStore st));
            default [] (installedGamesStore st) !! i).
Proof.
  eexists. split; [apply refreshInstalled_eq|].
  intros k. unfold installedRecord.
  cbn [installedGames installHeap set_installedGames set_installHeap].
  rewrite map_get_buildInstalled. cbn [map_get].
  destruct (lastIndex k (default [] (installedGamesStore st))) as [i|] eqn:Hi;
    [|reflexivity].
  cbn. rewrite lookup_app_r by lia.
  f_equal. lia.
Qed.

Lemma map_set_fresh {K V : Type} `{EqDecision K} (k : K) (v : V)
    (m : JSMap K V) :
  k ∉ map_keys m -> map_set k v m = (m ++ [(k, v)])%list.
Proof.
  induction m as [|[k' v'] m IH]; intros Hk; [reflexivity|].
  cbn [map_set]. unfold map_keys in Hk. cbn [List.map fst] in Hk.
  apply not_elem_of_cons in Hk as [Hne Hk].
  rewrite decide_False by congruence. rewrite IH by exact Hk. reflexivity.
Qed.

Lemma buildInstalled_distinct (rs : list InstalledInfo) :
  forall base m,
    NoDup (List.map appName rs) ->
    (forall r, r ∈ rs -> appName r ∉ map_keys m) ->
    map_values (buildInstalled base rs m)
    = (map_values m ++ seq base (length rs))%list.
Proof.
  induction rs as [|r rs IH]; intros base m Hnd Hm; cbn [buildInstalled length seq].
  - rewrite app_nil_r. reflexivity.
  - cbn [List.map] in Hnd. apply NoDup_cons in Hnd as [Hr Hnd].
    rewrite IH.
    + rewrite map_set_fresh by (apply Hm; left).
      unfold map_values. rewrite map_app, <- app_assoc. reflexivity.
    + exact Hnd.
    + intros r' Hr'. rewrite map_set_fresh by (apply Hm; left).
      unfold map_keys. rewrite map_app. cbn [List.map fst].
      intros Hin. apply elem_of_app in Hin as [Hin|Hin].
      * apply (Hm r'); [right; exact Hr' | exact Hin].
      * apply list_elem_of_singleton in Hin. apply Hr. rewrite <- Hin.
        apply list_elem_of_In, in_map, list_elem_of_In. exact Hr'.
Qed.

Lemma mapM_readInstall (rs : list InstalledInfo) :
  forall base s,
    (forall i r, rs !! i = Some r -> installHeap s !! (base + i) = Some r) ->
    mapM readInstall (seq base (length rs)) s = Ok (rs, s).
Proof.
  induction rs as [|r rs IH]; intros base s Hheap; [reflexivity|].
  cbn [length seq mapM].
  assert (Hr : installHeap s !! base = Some r).
  { rewrite <- (Nat.add_0_r base). apply Hheap. reflexivity. }
  unfold bind at 1. unfold readInstall at 1. rewrite Hr.
  unfold bind at 1. rewrite IH; [reflexivity|].
  intros i r' Hi. replace (S base + i) with (base + S i) by lia.
  apply Hheap. exact Hi.
Qed.

Lemma map_keys_buildInstalled_distinct (rs : list InstalledInfo) :
  forall base m,
    NoDup (List.map appName rs) ->
    (forall r, r ∈ rs -> appName r ∉ map_keys m) ->
    map_keys (buildInstalled base rs m)
    = (map_keys m ++ List.map appName rs)%list.
Proof.
  induction rs as [|r rs IH]; intros base m Hnd Hm; cbn [buildInstalled List.map].
  - rewrite app_nil_r. reflexivity.
  - apply NoDup_cons in Hnd as [Hr Hnd].
    rewrite IH.
    + rewrite map_set_fresh by (apply Hm; left).
      unfold map_keys. rewrite map_app, <- app_assoc. reflexivity.
    + exact Hnd.
    + intros r' Hr'. rewrite map_set_fresh by (apply Hm; left).
      unfold map_keys. rewrite map_app. cbn [List.map fst].
      intros Hin. apply elem_of_app in Hin as [Hin|Hin].
      * apply (Hm r'); [right; exact Hr' | exact Hin].
      * apply list_elem_of_singleton in Hin. apply Hr. rewrite <- Hin.
        apply list_elem_of_In, in_map, list_elem_of_In. exact Hr'.
Qed.

(** X7: when the records of the Installed Store have distinct [appName]s,
    rebuilding the installed map and writing its values back, as
    [importGame] does, leaves the Installed Store as it was: the map lists
    the records in their stored order. *)
Theorem refreshInstalled_write_back (st : State) :
  NoDup (List.map appName (default [] (installedGamesStore st))) ->
  exists st',
    (refreshInstalled;; installedGamesStore_set_from_map) st = Ok (tt, st')
    /\ installedGamesStore st' = Some (default [] (installedGamesStore st))
    /\ map_keys (installedGames st')
       = List.map appName (default [] (installedGamesStore st)).
Proof.
  intros Hnd. set (rs := default [] (installedGamesStore st)) in *.
  rewrite (bind_Ok _ _ _ _ _ (refreshInstalled_eq st)). fold rs.
  unfold installedGamesStore_set_from_map.
  unfold bind at 1. unfold gets at 1.
  cbn [installedGames set_installedGames].
  rewrite buildInstalled_distinct;
    [|exact Hnd | intros r _ Hin; apply elem_of_nil in Hin; exact Hin].
  cbn [map_values List.map app].
  eexists. split.
  { unfold bind at 1. rewrite mapM_readInstall; [unfold modify; reflexivity|].
    intros i r Hi. cbn [installHeap set_installedGames set_installHeap].
    rewrite lookup_app_r by lia.
    replace (length (installHeap st) + i - length (installHeap st)) with i by lia.
    exact Hi. }
  split; [reflexivity|].
  cbn [installedGames set_installedGamesStore set_installedGames].
  rewrite map_keys_buildInstalled_distinct;
    [reflexivity | exact Hnd |].
  intros r _ Hin. apply elem_of_nil in Hin. exact Hin.
Qed.

Lemma refreshInstalled_write_back_witness :
  exists st',
    (refreshInstalled;; installedGamesStore_set_from_map)
      (set_installedGamesStore (Some updateStore) emptyState) = Ok (tt, st')
    /\ installedGamesStore st' = Some updateStore.
Proof.
  destruct (refreshInstalled_write_back
              (set_installedGamesStore (Some updateStore) emptyState))
    as (st' & Hrun & Hstore & _).
  - vm_compute. repeat constructor; intros Hin;
      repeat (apply elem_of_cons in Hin as [Hin|Hin]; [discriminate Hin|]);
      apply elem_of_nil in Hin; exact Hin.
  - exists st'. split; [exact Hrun | exact Hstore].
Defined.


(** ** [sync]: sessions and failing pages *)

(** X8: without a session [sync] does nothing at all; with a session but
    without credentials it only rebuilds the installed map: the stores,
    the cached records and the log are as before. *)
Theorem sync_without_credentials (env : Env) (st : State) :
  (isLoggedIn env = false -> sync env st = Ok (tt, st))
  /\ (isLoggedIn env = true -> getCredentials env = None ->
      exists st',
        sync env st = Ok (tt, st')
        /\ libraryStore st' = libraryStore st
        /\ apiInfoCache st' = apiInfoCache st
        /\ installedGamesStore st' = installedGamesStore st
        /\ library st' = library st
        /\ gameHeap st' = gameHeap st
        /\ log st' = log st
        /\ installed_wf st').
Proof.
  split.
  - intros Hout. unfold sync. rewrite Hout. reflexivity.
  - intros Hin Hcred.
    destruct (refreshInstalled_spec st)
      as (st' & Hrun & Hl & Hc & Hs & Hg & Hlib & Hlog & _ & Hwf & _).
    exists st'. split.
    + unfold sync. rewrite Hin. cbn [negb].
      rewrite (bind_Ok _ _ _ _ _ Hrun), Hcred. reflexivity.
    + repeat split; try assumption; apply Hwf.
Qed.

Lemma sync_without_credentials_witness :
  sync (withSession false None syncEnv) syncState = Ok (tt, syncState)
  /\ exists st', sync (withSession true None syncEnv) syncState = Ok (tt, st')
                 /\ libraryStore st' = libraryStore syncState.
Proof.
  split.
  - apply (sync_without_credentials (withSession false None syncEnv) syncState).
    reflexivity.
  - destruct (proj2 (sync_without_credentials
                       (withSession true None syncEnv) syncState)
                eq_refl eq_refl) as (st' & Hrun & Hstore & _).
    exists st'. split; assumption.
Defined.

Lemma furtherPages_throw env headers (pages : list nat) acc page e0 :
  page ∈ pages ->
  axios_get defaultValidateStatus
    (getFilteredProducts env (catalogUrl (Some page)) headers) = Throw e0 ->
  exists e, furtherPages env headers pages acc = Throw e.
Proof.
  intros Hin Hfail. revert acc.
  induction pages as [|p pages IH]; intros acc.
  - apply elem_of_nil in Hin. contradiction.
  - cbn [furtherPages].
    destruct (axios_get defaultValidateStatus
                (getFilteredProducts env (catalogUrl (Some p)) headers))
      as [[status data]|e] eqn:Hp; [|eauto].
    apply elem_of_cons in Hin as [->|Hin]; [congruence|].
    apply (IH Hin).
Qed.

(** X9: a failure on any page after the first is not caught: when the
    first page carries products and the request for some page from 2 to
    [totalPages] fails, [sync] throws. *)
Theorem sync_later_page_failure_throws (env : Env) (st : State)
    (credentials : Credentials) (status : nat) (first : CatalogPage)
    (ps : list GOGGameInfo) (page : nat) (e0 : JsError) :
  isLoggedIn env = true ->
  getCredentials env = Some credentials ->
  axios_get defaultValidateStatus
    (getFilteredProducts env (catalogUrl None) (catalogHeaders credentials))
    = Ok (status, first) ->
  products first = Some ps ->
  2 <= page <= totalPages first ->
  axios_get defaultValidateStatus
    (getFilteredProducts env (catalogUrl (Some page))
       (catalogHeaders credentials)) = Throw e0 ->
  exists e, sync env st = Throw e.
Proof.
  intros Hlogged Hcred Hpage Hps Hrange Hfail.
  destruct (furtherPages_throw env (catalogHeaders credentials)
              (seq 2 (totalPages first - 1)) ps page e0) as (e & He).
  - apply elem_of_seq. lia.
  - exact Hfail.
  - exists e.
    apply (sync_further_page_failure env st credentials status first e
             Hlogged Hcred Hpage).
    unfold remoteCatalog. rewrite Hps. exact He.
Qed.

Lemma sync_later_page_failure_throws_witness :
  exists e, sync truncatedEnv syncState = Throw e.
Proof.
  apply (sync_later_page_failure_throws truncatedEnv syncState
           (mkCredentials "token") 200
           (mkCatalogPage (Some [catalogEntry 1 "One"]) 3 3 0)
           [catalogEntry 1 "One"] 3 (AxiosError "no such page"));
    try reflexivity.
  cbn. lia.
Defined.

(** ** [sync]: what it leaves in the caches *)

Lemma findGame_state key (ls : list loc) s res s' :
  findGame key ls s = Ok (res, s') -> s' = s.
Proof.
  induction ls as [|l ls IH]; cbn [findGame].
  - intros [= _ <-]. reflexivity.
  - unfold bind, readGame. destruct (gameHeap s !! l) as [g|]; [|discriminate].
    destruct (String.eqb (app_name g) key).
    + intros [= _ <-]. reflexivity.
    + exact IH.
Qed.

(** The metadata cache after one pass of the loop body. *)
Lemma syncEntry_cache env arr objs (game : GOGGameInfo) s r s' :
  syncEntry env arr objs game s = Ok (r, s') ->
  exists found,
    match arr with
    | Some ls => findGame (of_number (id game)) ls
    | None => ret None
    end s = Ok (found, s)
    /\ apiInfoCache s'
       = match found, apiInfoCache s !! of_number (id game) with
         | None, None =>
             <[of_number (id game)
               := snd (getGamesdbData env "gog" (of_number (id game)) None)]>
               (apiInfoCache s)
         | _, _ => apiInfoCache s
         end.
Proof.
  unfold syncEntry. intros Hrun.
  apply bind_Ok_inv in Hrun as (found & s1 & Hfound & Hrun).
  assert (s1 = s) as ->.
  { destruct arr as [ls|].
    - exact (findGame_state _ _ _ _ _ Hfound).
    - injection Hfound as _ <-. reflexivity. }
  exists found. split; [exact Hfound|].
  apply bind_Ok_inv in Hrun as (u & s2 & Hunified & Hrun).
  assert (Hc2 : apiInfoCache s2
                = match found, apiInfoCache s !! of_number (id game) with
                  | None, None =>
                      <[of_number (id game)
                        := snd (getGamesdbData env "gog" (of_number (id game)) None)]>
                        (apiInfoCache s)
                  | _, _ => apiInfoCache s
                  end).
  { destruct found as [u'|].
    - injection Hunified as _ <-. reflexivity.
    - unfold bind at 1, gets at 1 in Hunified.
      destruct (apiInfoCache s !! of_number (id game)) as [d|].
      + unfold bind at 1, ret at 1 in Hunified.
        destruct (gogToUnifiedInfo_spec env game (Some d) s)
          as (s2' & Hrun2 & _ & _ & _ & Hc & _).
        rewrite Hrun2 in Hunified. injection Hunified as _ <-. exact Hc.
      + unfold bind at 1, bind at 1, modify at 1, ret at 1 in Hunified.
        match type of Hunified with
        | gogToUnifiedInfo _ _ ?d ?s0 = _ =>
            destruct (gogToUnifiedInfo_spec env game d s0)
              as (s2' & Hrun2 & _ & _ & _ & Hc & _)
        end.
        rewrite Hrun2 in Hunified. injection Hunified as _ <-. exact Hc. }
  rewrite <- Hc2. clear Hc2 Hunified Hfound.
  unfold bind, gets, readGame, allocGame, writeGame, modify, ret in Hrun.
  repeat case_match; simplify_eq; reflexivity.
Qed.

(** The reconciliation loop, seen from the caches: which identifiers it
    adds to the metadata cache and which cached records it replaces. *)
Lemma sync_loop_frame env stored cache0 arr (cat : list GOGGameInfo) s :
  array_ok stored arr s -> cache_ok env cache0 s ->
  exists objs s',
    forOf (syncEntry env arr) cat [] s = Ok (objs, s')
    /\ cache_ok env cache0 s'
    /\ gameHeap s `prefix_of` gameHeap s'
    /\ (forall game, game ∈ cat ->
          findStored (entryKey game) stored = None ->
          is_Some (apiInfoCache s' !! entryKey game))
    /\ (forall k, is_Some (apiInfoCache s' !! k) ->
          is_Some (apiInfoCache s !! k)
          \/ exists game, game ∈ cat /\ entryKey game = k
                          /\ findStored k stored = None)
    /\ (forall k, (forall game, game ∈ cat -> entryKey game <> k) ->
          map_get k (library s') = map_get k (library s))
    /\ (forall k, is_Some (map_get k (library s)) ->
          is_Some (map_get k (library s'))).
Proof.
  intros Harr Hcache.
  pose (I := fun (done : list GOGGameInfo) (objs : list loc) (s' : State) =>
     array_ok stored arr s' /\ cache_ok env cache0 s'
     /\ gameHeap s `prefix_of` gameHeap s'
     /\ (forall game, game ∈ done ->
           findStored (entryKey game) stored = None ->
           is_Some (apiInfoCache s' !! entryKey game))
     /\ (forall k, is_Some (apiInfoCache s' !! k) ->
           is_Some (apiInfoCache s !! k)
           \/ exists game, game ∈ done /\ entryKey game = k
                           /\ findStored k stored = None)
     /\ (forall k, (forall game, game ∈ done -> entryKey game <> k) ->
           map_get k (library s') = map_get k (library s))
     /\ (forall k, is_Some (map_get k (library s)) ->
           is_Some (map_get k (library s')))).
  destruct (forOf_total I (syncEntry env arr) cat) with (acc := @nil loc) (st := s)
    as (objs & s' & Hrun & HI).
  - intros done x rest objs s1 _ (Harr1 & Hcache1 & Hg1 & Hnew1 & Hold1 & Hlib1 & Hkeep1).
    destruct (syncEntry_spec env stored cache0 arr objs x s1 Harr1 Hcache1)
      as (u & c & g & s2 & Hrun2 & Hg2 & Hi2 & _ & Hcache2 & _ & _ & _ & Hlib2 & _).
    destruct (syncEntry_cache _ _ _ _ _ _ _ Hrun2) as (found & Hfound & Hc2).
    destruct (found_spec stored arr (of_number (id x)) s1 Harr1)
      as (res & Hfound' & Hres).
    rewrite Hfound in Hfound'. injection Hfound' as <-.
    exists (objs ++ [u])%list, s2. split; [exact Hrun2|].
    unfold I.
    split; [exact (array_ok_prefix _ _ _ _ Hg2 Hi2 Harr1)|].
    split; [exact Hcache2|].
    split; [etrans; eassumption|].
    assert (Hmono : forall k, is_Some (apiInfoCache s1 !! k) ->
                              is_Some (apiInfoCache s2 !! k)).
    { intros k Hk. rewrite Hc2.
      destruct found; [exact Hk|].
      destruct (apiInfoCache s1 !! of_number (id x)) eqn:Hx; [exact Hk|].
      destruct (decide (of_number (id x) = k)) as [<-|Hne].
      - rewrite lookup_insert_eq. eauto.
      - rewrite lookup_insert_ne by exact Hne. exact Hk. }
    split.
    { intros game Hin Hnone. apply elem_of_app in Hin as [Hin|Hin].
      - apply Hmono, Hnew1; assumption.
      - apply list_elem_of_singleton in Hin. subst game.
        unfold entryKey in *. rewrite Hnone in Hres. subst found.
        rewrite Hc2.
        destruct (apiInfoCache s1 !! of_number (id x)) eqn:Hx.
        + rewrite Hx. eauto.
        + rewrite lookup_insert_eq. eauto. }
    split.
    { intros k Hk.
      assert (Hcases : is_Some (apiInfoCache s1 !! k)
                       \/ (k = of_number (id x)
                           /\ findStored (of_number (id x)) stored = None)).
      { rewrite Hc2 in Hk. destruct found as [u'|]; [left; exact Hk|].
        destruct (apiInfoCache s1 !! of_number (id x)) eqn:Hx; [left; exact Hk|].
        destruct (decide (of_number (id x) = k)) as [<-|Hne].
        - right. split; [reflexivity|].
          destruct (findStored (of_number (id x)) stored); [|reflexivity].
          destruct Hres as (u' & Hu' & _). discriminate.
        - left. rewrite lookup_insert_ne in Hk by exact Hne. exact Hk. }
      destruct Hcases as [Hk1|[-> Hnone]].
      - destruct (Hold1 k Hk1) as [Hs|(game & Hin & Hkey & Hnone)];
          [left; exact Hs|].
        right. exists game. split; [|split; assumption].
        apply elem_of_app. left. exact Hin.
      - right. exists x. split; [|split; [reflexivity | exact Hnone]].
        apply elem_of_app. right. apply list_elem_of_singleton. reflexivity. }
    split.
    { intros k Hk. rewrite Hlib2, map_get_set_ne.
      - apply Hlib1. intros game Hin. apply Hk, elem_of_app. left. exact Hin.
      - apply (Hk x). apply elem_of_app. right.
        apply list_elem_of_singleton. reflexivity. }
    intros k Hk. rewrite Hlib2.
    destruct (decide (of_number (id x) = k)) as [<-|Hne].
    + rewrite map_get_set_eq. eauto.
    + rewrite map_get_set_ne by exact Hne. apply Hkeep1, Hk.
  - unfold I. split; [exact Harr|]. split; [exact Hcache|].
    split; [reflexivity|].
    split; [intros game Hin; apply elem_of_nil in Hin; contradiction|].
    split; [intros k Hk; left; exact Hk|].
    split; [reflexivity|]. intros k Hk. exact Hk.
  - destruct HI as (_ & HI).
    exists objs, s'. split; [exact Hrun | exact HI].
Qed.

(** [sync] seen from the caches, under the conditions of [sync_spec]. *)
Lemma sync_frame env st credentials status (first : CatalogPage) cat :
  isLoggedIn env = true ->
  getCredentials env = Some credentials ->
  axios_get defaultValidateStatus
    (getFilteredProducts env (catalogUrl None) (catalogHeaders credentials))
    = Ok (status, first) ->
  remoteCatalog env (catalogHeaders credentials) first = Ok cat ->
  exists st',
    sync env st = Ok (tt, st')
    /\ cache_ok env (apiInfoCache st) st'
    /\ gameHeap st `prefix_of` gameHeap st'
    /\ (forall game, game ∈ cat ->
          findStored (entryKey game) (games (libraryStore st)) = None ->
          is_Some (apiInfoCache st' !! entryKey game))
    /\ (forall k, is_Some (apiInfoCache st' !! k) ->
          is_Some (apiInfoCache st !! k)
          \/ exists game, game ∈ cat /\ entryKey game = k
                          /\ findStored k (games (libraryStore st)) = None)
    /\ (forall k, (forall game, game ∈ cat -> entryKey game <> k) ->
          map_get k (library st') = map_get k (library st))
    /\ (forall k, is_Some (map_get k (library st)) ->
          is_Some (map_get k (library st'))).
Proof.
  intros Hlogged Hcred Hpage Hcat.
  destruct (refreshInstalled_spec st)
    as (s1 & Hrefresh & Hl1 & Hc1 & Hs1 & Hg1 & Hlib1 & Hlog1 & Hh1 & Hwf1
        & Hge1 & Hcov1).
  set (s2 := set_log (log s1 ++ [mkLogEntry LInfo PGog ["Getting GOG library"]]) s1).
  destruct (sync_catalog_spec env (catalogHeaders credentials) first cat s2 Hcat)
    as (s3 & Hcatalog & Hl3 & Hc3 & Hs3 & Hg3 & Hh3 & Hlib3 & Hig3).
  destruct (libraryStore_get_games_spec s3)
    as (arr & s4 & Hget & Harr & Hg4 & Hh4 & Hl4 & Hc4 & Hs4 & Hlib4 & Hig4).
  assert (Hstore : games (libraryStore s3) = games (libraryStore st))
    by (rewrite Hl3; cbn; rewrite Hl1; reflexivity).
  rewrite Hstore in Harr.
  assert (Hceq : apiInfoCache s4 = apiInfoCache st)
    by (rewrite Hc4, Hc3; cbn; exact Hc1).
  assert (Hcache : cache_ok env (apiInfoCache st) s4).
  { unfold cache_ok. rewrite Hceq. split.
    - intros key d Hd. unfold apiDataFor. rewrite Hd. reflexivity.
    - intros key Hd. exact Hd. }
  destruct (sync_loop_spec env (games (libraryStore st)) (apiInfoCache st)
              arr cat s4 Harr Hcache)
    as (objs & s5 & Hloop & Hall & _).
  destruct (sync_loop_frame env (games (libraryStore st)) (apiInfoCache st)
              arr cat s4 Harr Hcache)
    as (objs' & s5' & Hloop' & Hcache5 & Hg5 & Hnew & Hold & Hlib & Hkeep).
  rewrite Hloop in Hloop'. injection Hloop' as <- <-.
  assert (Hsnap : mapM snapshotGame objs s5
                  = Ok (List.map (persistedValue env (games (libraryStore st))
                                    (apiInfoCache st)) cat, s5)).
  { apply mapM_snapshotGame. apply Forall2_flip.
    clear -Hall. induction Hall; constructor; assumption. }
  eexists. split.
  { unfold sync. rewrite Hlogged. cbn [negb].
    rewrite (bind_Ok _ _ _ _ _ Hrefresh), Hcred. cbv zeta.
    unfold bind at 1. unfold logInfo at 1, logWith at 1, modify at 1.
    fold s2. unfold bind at 1. rewrite Hpage. unfold ret at 1.
    rewrite (bind_Ok _ _ _ _ _ Hcatalog), (bind_Ok _ _ _ _ _ Hget),
      (bind_Ok _ _ _ _ _ Hloop).
    unfold libraryStore_set_games.
    unfold bind at 1. unfold bind at 1. rewrite Hsnap.
    unfold bind, modify, libraryStore_set_totalGames,
      libraryStore_set_totalMovies, logInfo, logWith, modify.
    reflexivity. }
  assert (Hlibeq : library s4 = library st)
    by (rewrite Hlib4, Hlib3; cbn; exact Hlib1).
  assert (Hgpre : gameHeap st `prefix_of` gameHeap s5).
  { etrans; [|exact Hg5]. etrans; [|exact Hg4]. rewrite Hg3. cbn.
    rewrite Hg1. reflexivity. }
  rewrite Hceq in Hold. rewrite Hlibeq in Hlib, Hkeep.
  split; [exact Hcache5|]. split; [exact Hgpre|].
  split; [exact Hnew|]. split; [exact Hold|]. split; [exact Hlib | exact Hkeep].
Qed.

(** X10: a successful [sync] fetches secondary metadata only for the
    catalog titles that have no record in the Library Store: afterwards
    every such title has a cache entry, namely the entry it had before or
    else the payload just fetched for it; entries that existed before keep
    their payload; and no other identifier is added to the cache. *)
Theorem sync_metadata_cache (env : Env) (st : State)
    (credentials : Credentials) (status : nat) (first : CatalogPage)
    (cat : list GOGGameInfo) :
  isLoggedIn env = true ->
  getCredentials env = Some credentials ->
  axios_get defaultValidateStatus
    (getFilteredProducts env (catalogUrl None) (catalogHeaders credentials))
    = Ok (status, first) ->
  remoteCatalog env (catalogHeaders credentials) first = Ok cat ->
  exists st',
    sync env st = Ok (tt, st')
    /\ (forall k d, apiInfoCache st !! k = Some d ->
                    apiInfoCache st' !! k = Some d)
    /\ (forall game, game ∈ cat ->
          findStored (entryKey game) (games (libraryStore st)) = None ->
          apiInfoCache st' !! entryKey game
          = Some (match apiInfoCache st !! entryKey game with
                  | Some d => d
                  | None => snd (getGamesdbData env "gog" (entryKey game) None)
                  end))
    /\ (forall k, apiInfoCache st !! k = None ->
          (forall game, game ∈ cat -> entryKey game = k ->
             is_Some (findStored k (games (libraryStore st)))) ->
          apiInfoCache st' !! k = None).
Proof.
  intros Hlogged Hcred Hpage Hcat.
  destruct (sync_frame env st credentials status first cat
              Hlogged Hcred Hpage Hcat)
    as (st' & Hrun & [Hpresent Habsent] & _ & Hnew & Hold & _).
  exists st'. split; [exact Hrun|]. split; [|split].
  - intros k d Hk.
    destruct (apiInfoCache st' !! k) as [d'|] eqn:Hk'.
    + rewrite (Hpresent k d' Hk'). unfold apiDataFor. rewrite Hk. reflexivity.
    + rewrite (Habsent k Hk') in Hk. discriminate.
  - intros game Hin Hnone.
    destruct (Hnew game Hin Hnone) as (d & Hd).
    rewrite Hd, (Hpresent _ d Hd). reflexivity.
  - intros k Hk Hstored.
    destruct (apiInfoCache st' !! k) as [d'|] eqn:Hk'; [|reflexivity].
    destruct (Hold k) as [[d Hd]|(game & Hin & Hkey & Hnone)].
    + rewrite Hk'. eauto.
    + congruence.
    + destruct (Hstored game Hin Hkey) as (r & Hr). congruence.
Qed.

Lemma sync_metadata_cache_witness :
  exists st',
    sync syncEnv syncState = Ok (tt, st')
    /\ apiInfoCache st' !! "1"
       = Some (snd (getGamesdbData syncEnv "gog" "1" None)).
Proof.
  destruct (sync_metadata_cache syncEnv syncState (mkCredentials "token") 200
              (mkCatalogPage (Some [catalogEntry 1 "One"]) 2 3 0)
              [catalogEntry 1 "One"; catalogEntry 2 "Two"; catalogEntry 3 "Three"]
              eq_refl eq_refl eq_refl eq_refl)
    as (st' & Hrun & _ & Hnew & _).
  exists st'. split; [exact Hrun|].
  apply (Hnew (catalogEntry 1 "One")).
  - apply list_elem_of_here.
  - reflexivity.
Defined.

(** X11: [sync] never removes a title from the in-memory library: every
    identifier cached before is still cached, and a cached record whose
    identifier is absent from the merged catalog is the same object with
    the same content. *)
Theorem sync_keeps_stale_records (env : Env) (st : State)
    (credentials : Credentials) (status : nat) (first : CatalogPage)
    (cat : list GOGGameInfo) :
  isLoggedIn env = true ->
  getCredentials env = Some credentials ->
  axios_get defaultValidateStatus
    (getFilteredProducts env (catalogUrl None) (catalogHeaders credentials))
    = Ok (status, first) ->
  remoteCatalog env (catalogHeaders credentials) first = Ok cat ->
  exists st',
    sync env st = Ok (tt, st')
    /\ (forall k, is_Some (map_get k (library st)) ->
                  is_Some (map_get k (library st')))
    /\ (forall k c g,
          (forall game, game ∈ cat -> entryKey game <> k) ->
          map_get k (library st) = Some c ->
          gameHeap st !! c = Some g ->
          map_get k (library st') = Some c /\ gameHeap st' !! c = Some g).
Proof.
  intros Hlogged Hcred Hpage Hcat.
  destruct (sync_frame env st credentials status first cat
              Hlogged Hcred Hpage Hcat)
    as (st' & Hrun & _ & Hg & _ & _ & Hlib & Hkeep).
  exists st'. split; [exact Hrun|]. split; [exact Hkeep|].
  intros k c g Hk Hc Hgc. split.
  - rewrite (Hlib k Hk). exact Hc.
  - exact (prefix_lookup_Some _ _ _ _ Hgc Hg).
Qed.

Lemma sync_keeps_stale_records_witness :
  exists st',
    sync duplicateEnv syncedState = Ok (tt, st')
    /\ is_Some (map_get "2" (library st')).
Proof.
  destruct (sync_keeps_stale_records duplicateEnv syncedState
              (mkCredentials "token") 200
              (mkCatalogPage (Some [catalogEntry 1 "One"; catalogEntry 1 "Uno"])
                 1 2 0)
              [catalogEntry 1 "One"; catalogEntry 1 "Uno"]
              eq_refl eq_refl eq_refl eq_refl)
    as (st' & Hrun & Hkeep & _).
  exists st'. split; [exact Hrun|].
  apply Hkeep. vm_compute. eexists. reflexivity.
Defined.

(** ** [listUpdateableGames]: the whole listing *)

Lemma forOf_checkInstalled_run env (m : JSMap (option string) loc) acc st :
  (forall k ref, (k, ref) ∈ m ->
     exists g b, installHeap st !! ref = Some g /\ appName g = k
                 /\ needsUpdate env g = Ok b) ->
  forOf (checkInstalled env) (map_values m) acc st
  = Ok ((acc ++ List.map fst (List.filter (fun kv => wantsUpdate env st (snd kv)) m))%list,
        st).
Proof.
  revert acc. induction m as [|[k ref] m IH]; intros acc Hall.
  - cbn. rewrite app_nil_r. reflexivity.
  - destruct (Hall k ref) as (g & b & Hg & Hk & Hb); [left|].
    change (map_values ((k, ref) :: m)) with (ref :: map_values m).
    cbn [forOf List.filter snd]. unfold bind at 1.
    rewrite checkInstalled_needsUpdate, Hg, Hb.
    unfold wantsUpdate at 1. rewrite Hg, Hb.
    destruct b.
    + rewrite IH by (intros k' ref' Hin; apply Hall; right; exact Hin).
      cbn [List.map fst]. rewrite <- app_assoc, Hk. reflexivity.
    + apply IH. intros k' ref' Hin. apply Hall. right. exact Hin.
Qed.

Lemma sublist_map_filter {A B : Type} (f : A -> B) (p : A -> bool) (l : list A) :
  List.map f (List.filter p l) `sublist_of` List.map f l.
Proof.
  induction l as [|x l IH]; cbn [List.map List.filter].
  - constructor.
  - destruct (p x); cbn [List.map]; constructor; exact IH.
Qed.

(** X12: when the installed map is well formed and the check of every
    installed title returns, [listUpdateableGames] returns the identifiers
    of the titles whose check asks for an update, in the order of the
    installed map and without repetition; it logs their number and changes
    nothing else. *)
Theorem listUpdateableGames_result (env : Env) (st : State) :
  installed_wf st ->
  (forall k ref g, (k, ref) ∈ installedGames st ->
     installHeap st !! ref = Some g ->
     exists b, needsUpdate env g = Ok b) ->
  let l := updateableKeys env st in
  listUpdateableGames env st
  = Ok (l, set_log (log st
                    ++ [mkLogEntry LInfo PGog
                          ["Found " ++ of_number (Z.of_nat (length l))
                           ++ " game(s) to update"]]) st)
  /\ NoDup l
  /\ l `sublist_of` map_keys (installedGames st).
Proof.
  intros [Hnd Hwf] Hchecks l.
  assert (Hsub : l `sublist_of` map_keys (installedGames st)).
  { unfold l, updateableKeys, map_keys. apply sublist_map_filter. }
  split; [|split; [|exact Hsub]].
  - unfold listUpdateableGames. unfold bind at 1, gets at 1.
    unfold bind at 1.
    rewrite forOf_checkInstalled_run.
    + reflexivity.
    + intros k ref Hin. destruct (Hwf k ref Hin) as (g & Hg & Hk).
      destruct (Hchecks k ref g Hin Hg) as (b & Hb). exists g, b. done.
  - exact (sublist_NoDup _ _ Hnd Hsub).
Qed.

Lemma listUpdateableGames_result_witness :
  listUpdateableGames updateEnv updateState
  = Ok ([Some "11"; Some "12"; Some "13"; Some "21"],
        set_log [mkLogEntry LInfo PGog ["Found 4 game(s) to update"]] updateState)
  /\ NoDup (updateableKeys updateEnv updateState).
Proof.
  assert (Hwf : installed_wf updateState).
  { destruct (refreshInstalled_spec
                (set_installedGamesStore (Some updateStore) emptyState))
      as (st' & Hrun & _ & _ & _ & _ & _ & _ & _ & Hwf & _).
    assert (Heq : refreshInstalled
                    (set_installedGamesStore (Some updateStore) emptyState)
                  = Ok (tt, updateState)) by reflexivity.
    rewrite Heq in Hrun. injection Hrun as <-. exact Hwf. }
  destruct (listUpdateableGames_result updateEnv updateState Hwf)
    as (Hrun & Hnd & _).
  - intros k ref g Hin Hg.
    unfold updateState in Hin. cbn [installedGames] in Hin.
    repeat (apply elem_of_cons in Hin as [[= -> ->]|Hin]);
      [..|apply elem_of_nil in Hin; contradiction];
      vm_compute in Hg; injection Hg as <-; eexists; vm_compute; reflexivity.
  - split; [exact Hrun | exact Hnd].
Defined.

Lemma forOf_checkInstalled_throw env refs acc st ref g e0 :
  ref ∈ refs -> installHeap st !! ref = Some g ->
  needsUpdate env g = Throw e0 ->
  exists e, forOf (checkInstalled env) refs acc st = Throw e.
Proof.
  intros Hin Hg Hthrow. revert acc.
  induction refs as [|r refs IH]; intros acc.
  - apply elem_of_nil in Hin. contradiction.
  - cbn [forOf]. unfold bind at 1. rewrite checkInstalled_needsUpdate.
    destruct (installHeap st !! r) as [g'|] eqn:Hr; [|eauto].
    destruct (needsUpdate env g') as [[]|e'] eqn:Hn; [| |eauto].
    + apply elem_of_cons in Hin as [->|Hin]; [congruence|]. apply (IH Hin).
    + apply elem_of_cons in Hin as [->|Hin]; [congruence|]. apply (IH Hin).
Qed.

(** X13: one failing check aborts the whole listing: when the check of
    some installed title throws, [listUpdateableGames] throws and returns
    no identifier at all.  This is the case of a title for another
    platform than Linux whose build listing cannot be fetched. *)
Theorem listUpdateableGames_check_failure (env : Env) (st : State)
    (k : option string) (ref : loc) (g : InstalledInfo) :
  (k, ref) ∈ installedGames st ->
  installHeap st !! ref = Some g ->
  (exists e0, needsUpdate env g = Throw e0)
  \/ (platform g <> "linux"
      /\ exists e0, buildsApi env (buildsUrl (appName g) (platform g))
                    = NetworkError e0) ->
  exists e, listUpdateableGames env st = Throw e.
Proof.
  intros Hin Hg Hfail.
  assert (Hthrow : exists e0, needsUpdate env g = Throw e0).
  { destruct Hfail as [Hthrow|[Hplat (e0 & Hnet)]]; [exact Hthrow|].
    unfold needsUpdate. apply String.eqb_neq in Hplat. rewrite Hplat.
    unfold checkForGameUpdate. rewrite Hnet. cbn. eauto. }
  destruct Hthrow as (e0 & Hthrow).
  destruct (forOf_checkInstalled_throw env (map_values (installedGames st)) []
              st ref g e0) as (e & He).
  - apply elem_map_values. exists k. exact Hin.
  - exact Hg.
  - exact Hthrow.
  - exists e. unfold listUpdateableGames. unfold bind at 1, gets at 1.
    unfold bind at 1. rewrite He. reflexivity.
Qed.

Lemma listUpdateableGames_check_failure_witness :
  exists e, listUpdateableGames syncEnv updateState = Throw e.
Proof.
  apply (listUpdateableGames_check_failure syncEnv updateState
           (Some "20") 4 (windowsTitle "20" "v2")).
  - do 4 right. left.
  - reflexivity.
  - right. split; [discriminate|]. exists "offline". reflexivity.
Defined.

(** ** [changeGameInstallPath]: unknown titles, and a later refresh *)

(** X14: [changeGameInstallPath] works only for a title that has a record
    in the Installed Store and a cached record with its [install] object:
    for any other title it throws instead of doing nothing. *)
Theorem changeGameInstallPath_unknown_title (appName' newInstallPath : string)
    (st : State) :
  (exists e, changeGameInstallPath appName' newInstallPath st = Throw e)
  <-> (findIndex (appName_is appName') (default [] (installedGamesStore st)) = None
       \/ (cachedRecord st appName' ≫= fun g => installHeap st !! install g) = None).
Proof.
  unfold cachedRecord.
  destruct (changeGameInstallPath appName' newInstallPath st) as [[[] st']|e]
    eqn:Hrun.
  - apply changeGameInstallPath_effect in Hrun
      as (arr & i & c & g & o & Hstore & Hidx & Hc & Hg & Ho & _).
    rewrite Hstore, Hc. cbn. rewrite Hidx, Hg. cbn. rewrite Ho.
    split; [intros (e & He); discriminate | intros [H|H]; discriminate].
  - split; [|eauto]. intros _.
    destruct (findIndex (appName_is appName')
                (default [] (installedGamesStore st))) as [i|] eqn:Hidx;
      [|left; reflexivity].
    right.
    destruct (map_get appName' (library st)) as [c|] eqn:Hc; [|reflexivity].
    cbn. destruct (gameHeap st !! c) as [g|] eqn:Hg; [|reflexivity].
    cbn. destruct (installHeap st !! install g) as [o|] eqn:Ho; [|reflexivity].
    destruct (installedGamesStore st) as [arr|] eqn:Hstore; [|discriminate].
    assert (Hok : exists st', changeGameInstallPath appName' newInstallPath st
                              = Ok (tt, st')).
    { eexists. apply changeGameInstallPath_effect.
      exists arr, i, c, g, o. repeat split; eassumption. }
    destruct Hok as (st' & Hok). congruence.
Qed.

Lemma changeGameInstallPath_unknown_title_witness :
  exists e, changeGameInstallPath "99" "/mnt/games" syncedState = Throw e.
Proof.
  apply (changeGameInstallPath_unknown_title "99" "/mnt/games" syncedState).
  left. reflexivity.
Defined.

Lemma lastIndex_Some k rs i :
  lastIndex k rs = Some i -> exists r, rs !! i = Some r /\ appName r = k.
Proof.
  revert i. induction rs as [|r rs IH]; intros i; cbn [lastIndex];
    [discriminate|].
  destruct (lastIndex k rs) as [j|].
  - intros [= <-]. exact (IH j eq_refl).
  - destruct (decide (appName r = k)) as [Hk|]; [|discriminate].
    intros [= <-]. exists r. split; [reflexivity | exact Hk].
Qed.

Lemma lastIndex_alter k (f : InstalledInfo -> InstalledInfo) i rs :
  (forall r, appName (f r) = appName r) ->
  lastIndex k (alter f i rs) = lastIndex k rs.
Proof.
  intros Hf. revert i. induction rs as [|r rs IH]; intros i; [reflexivity|].
  destruct i as [|i]; cbn [alter list_alter lastIndex].
  - rewrite Hf. reflexivity.
  - change (list_alter f i rs) with (alter f i rs). rewrite IH. reflexivity.
Qed.

Lemma lastIndex_findIndex a rs i :
  NoDup (List.map appName rs) ->
  findIndex (appName_is a) rs = Some i ->
  lastIndex (Some a) rs = Some i.
Proof.
  revert i. induction rs as [|r rs IH]; intros i Hnd; cbn [findIndex lastIndex];
    [discriminate|].
  cbn [List.map] in Hnd. apply NoDup_cons in Hnd as [Hnotin Hnd].
  unfold appName_is at 1.
  destruct (decide (appName r = Some a)) as [Hr|Hr].
  - rewrite bool_decide_eq_true_2 by exact Hr. intros [= <-].
    destruct (lastIndex (Some a) rs) as [j|] eqn:Hj; [|reflexivity].
    exfalso. apply Hnotin.
    apply lastIndex_Some in Hj as (r' & Hr' & Hname).
    rewrite Hr, <- Hname. apply list_elem_of_In, in_map, list_elem_of_In.
    apply list_elem_of_lookup. eauto.
  - rewrite bool_decide_eq_false_2 by exact Hr.
    destruct (findIndex (appName_is a) rs) as [j|]; [|discriminate].
    intros [= <-]. rewrite (IH j Hnd eq_refl). reflexivity.
Qed.

(** X15: when the Installed Store holds one record per identifier, a
    successful [changeGameInstallPath] followed by [refreshInstalled] gives
    an installed map that denotes, under every key, the record it would
    have denoted without the call, except that the record of the title has
    the new install path. *)
Theorem changeGameInstallPath_then_refreshInstalled
    (appName' newInstallPath : string) (st st1 : State) :
  NoDup (List.map appName (default [] (installedGamesStore st))) ->
  changeGameInstallPath appName' newInstallPath st = Ok (tt, st1) ->
  exists st0 st2,
    refreshInstalled st = Ok (tt, st0)
    /\ refreshInstalled st1 = Ok (tt, st2)
    /\ (exists r, installedRecord st0 (Some appName') = Some r
                  /\ installedRecord st2 (Some appName')
                     = Some (set_install_path newInstallPath r))
    /\ forall k, k <> Some appName' ->
         installedRecord st2 k = installedRecord st0 k.
Proof.
  intros Hnd Hrun.
  apply changeGameInstallPath_effect in Hrun
    as (arr & i0 & c & g & o & Hstore & Hidx & Hc & Hg & Ho & ->).
  rewrite Hstore in Hnd. cbv [default from_option Datatypes.id] in Hnd.
  pose proof (lastIndex_findIndex _ _ _ Hnd Hidx) as Hlast.
  destruct (findIndex_Some _ _ _ Hidx) as (r0 & Hr0 & Hname0 & _).
  eexists. eexists. split; [apply refreshInstalled_eq|].
  split; [apply refreshInstalled_eq|].
  assert (Hrec : forall k arr' (s : State),
             installedGamesStore s = Some arr' ->
             installedRecord
               (set_installedGames
                  (buildInstalled (length (installHeap s)) arr' [])
                  (set_installHeap (installHeap s ++ arr') s)) k
             = (i ← lastIndex k arr'; arr' !! i)).
  { intros k arr' s _. unfold installedRecord.
    cbn [installedGames installHeap set_installedGames set_installHeap].
    rewrite map_get_buildInstalled. cbn [map_get].
    destruct (lastIndex k arr') as [i|] eqn:Hi; [|reflexivity].
    cbn. rewrite lookup_app_r by lia. f_equal. lia. }
  rewrite Hstore. cbn [installedGamesStore].
  cbv [default from_option Datatypes.id].
  split.
  - exists r0. rewrite !Hrec by (reflexivity || exact Hstore).
    rewrite lastIndex_alter by reflexivity. rewrite Hlast. cbn.
    split; [exact Hr0|].
    rewrite list_lookup_alter_eq, Hr0. reflexivity.
  - intros k Hk. rewrite !Hrec by (reflexivity || exact Hstore).
    rewrite lastIndex_alter by reflexivity.
    destruct (lastIndex k arr) as [i|] eqn:Hi; [|reflexivity]. cbn.
    apply list_lookup_alter_ne. intros ->.
    apply lastIndex_Some in Hi as (r & Hr & Hname).
    rewrite Hr0 in Hr. injection Hr as <-.
    unfold appName_is in Hname0. apply bool_decide_eq_true_1 in Hname0.
    congruence.
Qed.

Lemma changeGameInstallPath_then_refreshInstalled_witness :
  exists st2 r,
    refreshInstalled movedState = Ok (tt, st2)
    /\ installedRecord st2 (Some "1")
       = Some (set_install_path "/mnt/games/one" r).
Proof.
  destruct (changeGameInstallPath_then_refreshInstalled
              "1" "/mnt/games/one" syncedState movedState)
    as (st0 & st2 & _ & Hrefresh & (r & _ & Hr) & _).
  - apply NoDup_singleton.
  - reflexivity.
  - exists st2, r. split; assumption.
Defined.

(** ** The installer listing of a title *)

Lemma firstLinuxInstaller_version installers version' :
  firstLinuxInstaller installers version'
  = match firstLinuxVersion installers with
    | InstallerVersion v => Some (bool_decide (v = version'))
    | InstallerNull | InstallerUndefined => None
    end.
Proof.
  induction installers as [|i rest IH]; cbn [firstLinuxInstaller firstLinuxVersion];
    [reflexivity|].
  destruct (String.eqb (os i) "linux"); [reflexivity | exact IH].
Qed.

Lemma firstLinuxVersion_filter installers :
  match firstLinuxVersion installers with
  | InstallerVersion v =>
      exists i rest,
        List.filter (fun value => String.eqb (os value) "linux") installers
        = i :: rest /\ installer_version i = v
  | InstallerUndefined =>
      List.filter (fun value => String.eqb (os value) "linux") installers = []
  | InstallerNull => False
  end.
Proof.
  induction installers as [|i rest IH]; cbn [firstLinuxVersion List.filter];
    [reflexivity|].
  destruct (String.eqb (os i) "linux"); [|exact IH].
  exists i, (List.filter (fun value => String.eqb (os value) "linux") rest).
  split; reflexivity.
Qed.

(** X16: [checkForLinuxInstallerUpdate] agrees with
    [getLinuxInstallerInfo] on every title: it compares the installed
    version with the version the latter reports, so a title installed at
    the reported version is up to date; it answers [undefined] when the
    latter finds no Linux installer, [false] when the latter answers
    [null], and both throw on a listing without installers.
    [getLinuxInstallerInfo] changes nothing but the log. *)
Theorem checkForLinuxInstallerUpdate_agrees_with_info (env : Env)
    (appName' version' : option string) (st : State) :
  match getLinuxInstallerInfo env appName' st with
  | Ok (info, st') =>
      checkForLinuxInstallerUpdate env appName' version'
      = Ok (match info with
            | InstallerVersion v => Some (bool_decide (v = version'))
            | InstallerNull => Some false
            | InstallerUndefined => None
            end)
      /\ (forall v, info = InstallerVersion v ->
            checkForLinuxInstallerUpdate env appName' v = Ok (Some true))
      /\ exists entries, st' = set_log (log st ++ entries) st
  | Throw e => checkForLinuxInstallerUpdate env appName' version' = Throw e
  end.
Proof.
  unfold getLinuxInstallerInfo, checkForLinuxInstallerUpdate.
  destruct (getProductApi env appName' (Some ["downloads"])) as [[s data]|].
  - destruct (downloads_installers data) as [installers|]; [|reflexivity].
    unfold ret. rewrite !firstLinuxInstaller_version. split; [|split].
    + pose proof (firstLinuxVersion_filter installers) as Hfilter.
      destruct (firstLinuxVersion installers); [reflexivity | contradiction
                                               | reflexivity].
    + intros v Hv. rewrite firstLinuxInstaller_version, Hv.
      rewrite bool_decide_eq_true_2 by reflexivity. reflexivity.
    + exists []. rewrite app_nil_r. destruct st; reflexivity.
  - cbn. split; [reflexivity|]. split; [discriminate|].
    eexists. reflexivity.
Qed.

(** X17: [getLinuxInstallersLanguages] offers a language exactly when
    [getLinuxInstallerInfo] finds a Linux installer, and its first language
    is the language of the installer whose version is reported; without
    any Linux installer the list is empty.  Only when the listing cannot be
    fetched is the list the fallback [en-US], and then the installer
    information is [null]. *)
Theorem getLinuxInstallersLanguages_agrees_with_info (env : Env)
    (appName' : option string) (st : State) :
  match getLinuxInstallerInfo env appName' st with
  | Ok (InstallerVersion v, _) =>
      exists s data installers i rest,
        getProductApi env appName' (Some ["downloads"]) = Some (s, data)
        /\ downloads_installers data = Some installers
        /\ List.find (fun value => String.eqb (os value) "linux") installers
           = Some i
        /\ installer_version i = v
        /\ getLinuxInstallersLanguages env appName' = Ok (language i :: rest)
  | Ok (InstallerUndefined, _) =>
      getLinuxInstallersLanguages env appName' = Ok []
  | Ok (InstallerNull, _) =>
      getProductApi env appName' (Some ["downloads"]) = None
      /\ getLinuxInstallersLanguages env appName' = Ok ["en-US"]
  | Throw _ => exists e, getLinuxInstallersLanguages env appName' = Throw e
  end.
Proof.
  unfold getLinuxInstallerInfo, getLinuxInstallersLanguages.
  destruct (getProductApi env appName' (Some ["downloads"])) as [[s data]|].
  - destruct (downloads_installers data) as [installers|] eqn:Hins; [|cbn; eauto].
    unfold ret.
    pose proof (firstLinuxVersion_filter installers) as Hfilter.
    destruct (firstLinuxVersion installers) as [v| |]; [| contradiction |].
    + destruct Hfilter as (i & rest & Hfilter & Hv).
      exists s, data, installers, i, (List.map language rest).
      split; [reflexivity|]. split; [exact Hins|].
      split; [|split; [exact Hv | rewrite Hfilter; reflexivity]].
      clear -Hfilter. induction installers as [|j l IH]; [discriminate|].
      cbn [List.filter List.find] in *.
      destruct (String.eqb (os j) "linux"); [congruence | exact (IH Hfilter)].
    + rewrite Hfilter. reflexivity.
  - cbn. split; reflexivity.
Qed.

(** ** System requirements *)

Lemma reqsFrom_minimum i minimum recommended :
  List.map req_minimum (reqsFrom i minimum recommended)
  = List.filter truthy (omap item_description minimum).
Proof.
  revert i. induction minimum as [|item rest IH]; intros i; [reflexivity|].
  cbn [reqsFrom omap list_omap].
  destruct (item_description item) as [d|]; [|apply IH].
  cbn [List.filter]. destruct (truthy d); [|apply IH].
  cbn [List.map req_minimum]. rewrite IH. reflexivity.
Qed.

Lemma reqsFrom_elem i minimum recommended r :
  r ∈ reqsFrom i minimum recommended <->
  exists j item d,
    minimum !! j = Some item
    /\ item_description item = Some d /\ truthy d = true
    /\ r = mkRequirement (replace (item_name item) ":" EmptyString) d
             (recommendedAt recommended (i + j)).
Proof.
  revert i. induction minimum as [|item rest IH]; intros i.
  - cbn. split.
    + intros Hin. apply elem_of_nil in Hin. contradiction.
    + intros (j & item & d & Hj & _). discriminate.
  - assert (Hrec : match recommended with
                   | Some r0 =>
                       match set_requirements r0 !! i with
                       | Some item' => item_description item'
                       | None => None
                       end
                   | None => None
                   end = recommendedAt recommended (i + 0)).
    { rewrite Nat.add_0_r. unfold recommendedAt.
      destruct recommended as [r0|]; [|reflexivity]. cbn.
      destruct (set_requirements r0 !! i); reflexivity. }
    assert (Htail : r ∈ reqsFrom (S i) rest recommended <->
              exists j item' d,
                (item :: rest) !! S j = Some item'
                /\ item_description item' = Some d /\ truthy d = true
                /\ r = mkRequirement (replace (item_name item') ":" EmptyString) d
                         (recommendedAt recommended (i + S j))).
    { rewrite IH. split; intros (j & item' & d & Hj & Hd & Ht & ->);
        exists j, item', d; (split; [exact Hj|]); (split; [exact Hd|]);
        (split; [exact Ht|]); f_equal; f_equal; lia. }
    assert (Hskip : (item_description item = None
                     \/ exists d, item_description item = Some d
                                  /\ truthy d = false) ->
              (r ∈ reqsFrom (S i) rest recommended <->
               exists j item' d,
                 (item :: rest) !! j = Some item'
                 /\ item_description item' = Some d /\ truthy d = true
                 /\ r = mkRequirement (replace (item_name item') ":" EmptyString) d
                          (recommendedAt recommended (i + j)))).
    { intros Hno. rewrite Htail. split.
      - intros (j & item' & d & Hrest). exists (S j), item', d. exact Hrest.
      - intros ([|j] & item' & d & Hj & Hd & Ht & Hr).
        + injection Hj as <-. destruct Hno as [Hno|(d' & Hd' & Hf)]; congruence.
        + exists j, item', d. done. }
    cbn [reqsFrom]. rewrite Hrec.
    destruct (item_description item) as [d0|] eqn:Hd0; [|apply Hskip; eauto].
    destruct (truthy d0) eqn:Ht0; [|apply Hskip; eauto].
    rewrite elem_of_cons, Htail. split.
    + intros [->|(j & item' & d & Hrest)].
      * exists 0, item, d0. done.
      * exists (S j), item', d. exact Hrest.
    + intros ([|j] & item' & d & Hj & Hd & Ht & Hr).
      * injection Hj as <-. left. congruence.
      * right. exists j, item', d. done.
Qed.

(** X18: for a payload that lists requirements for the operating system,
    [createReqsArray] returns one entry per minimum requirement with a
    non-empty description, in order.  The recommended text of an entry is
    the description at the same index of the second requirement set, the
    index being counted in the full list of minimum requirements, skipped
    ones included; it is undefined beyond the end of that set. *)
Theorem createReqsArray_entries (env : Env)
    (embedded : string -> option (list SupportedOperatingSystem))
    (appName' os' : string) (data : GamesData)
    (operatingSystems : list SupportedOperatingSystem)
    (requirements : SupportedOperatingSystem)
    (minimum : RequirementSet) (others : list RequirementSet) :
  getGamesData env appName' None = Some data ->
  embedded (gamesDataUrl appName' None) = Some operatingSystems ->
  List.find (fun value => String.eqb (operatingSystem_name value) os')
    operatingSystems = Some requirements ->
  systemRequirements requirements = minimum :: others ->
  exists reqs,
    createReqsArray env embedded appName' os' = Ok reqs
    /\ List.map req_minimum reqs
       = List.filter truthy (omap item_description (set_requirements minimum))
    /\ forall r, r ∈ reqs <->
         exists j item d,
           set_requirements minimum !! j = Some item
           /\ item_description item = Some d /\ truthy d = true
           /\ r = mkRequirement (replace (item_name item) ":" EmptyString) d
                    (recommendedAt (head others) j).
Proof.
  intros Hdata Hembedded Hfind Hsys.
  exists (reqsFrom 0 (set_requirements minimum) (head others)).
  split; [|split].
  - unfold createReqsArray. rewrite Hdata, Hembedded, Hfind, Hsys. reflexivity.
  - apply reqsFrom_minimum.
  - intros r. apply reqsFrom_elem.
Qed.

Lemma createReqsArray_entries_witness :
  exists reqs,
    createReqsArray reqsEnv sampleEmbedded "1" "windows" = Ok reqs
    /\ List.map req_minimum reqs = ["Windows 7"; "2 GB"].
Proof.
  destruct (createReqsArray_entries reqsEnv sampleEmbedded "1" "windows"
              (mkGamesData None)
              [mkSupportedOperatingSystem "osx" [];
               mkSupportedOperatingSystem "windows"
                 [sampleMinimum; sampleRecommended]]
              (mkSupportedOperatingSystem "windows"
                 [sampleMinimum; sampleRecommended])
              sampleMinimum [sampleRecommended]
              eq_refl eq_refl eq_refl eq_refl) as (reqs & Hrun & Hmin & _).
  exists reqs. split; [exact Hrun|]. rewrite Hmin. reflexivity.
Defined.

(** ** [getInstallInfo] *)

Lemma map_set_same {K V : Type} `{EqDecision K} (m : JSMap K V) k v :
  map_get k m = Some v -> map_set k v m = m.
Proof.
  induction m as [|[k' v'] m IH]; cbn [map_get map_set]; [discriminate|].
  destruct (decide (k' = k)).
  - intros [= ->]. reflexivity.
  - intros Hm. rewrite (IH Hm). reflexivity.
Qed.

Lemma getGogdlCommand_infoCommandParts (path appName' token os' : string) :
  getGogdlCommand path (infoCommandParts appName' token os')
  = getGogdlCommand path ["info"; appName'; "--lang=en-US"; "--os"; os'].
Proof.
  unfold getGogdlCommand. cbv zeta. f_equal.
Qed.

Lemma await_run {A B : Type} (c : M A) (k : A -> Async B) st a st1 :
  c st = Ok (a, st1) -> await (run c) k st = k a st1.
Proof. unfold await, run. intros ->. reflexivity. Qed.

Lemma await_Resolved {A B : Type} (c : Async A) (k : A -> Async B) st a st1 :
  c st = Resolved (a, st1) -> await c k st = k a st1.
Proof. unfold await. intros ->. reflexivity. Qed.

(** A run of the downloader without a log file, when the child closes. *)
Lemma runGogdlCommand_closed (host : Host) (commandParts : list string)
    (files : gmap string string) (st : State) :
  let child :=
    spawn host (gogdlBin host) (List.filter truthy commandParts)
      (gogdlDir host) (process_env host) in
  let command := getGogdlCommand (gogdlFullPath host) commandParts in
  runGogdlCommand host commandParts None None files st
  = match ending child with
    | Closed =>
        Resolved
          (({| stdout := join newline (collected host Stdout (chunks child));
               stderr := join newline (collected host Stderr (chunks child));
               fullCommand := command;
               error := None |}, files),
           set_log (log st
                    ++ [mkLogEntry LDebug PGog ["Running GOGDL command:"; command]])
             st)
    | Failed error' =>
        Resolved
          (({| stdout := EmptyString; stderr := EmptyString;
               fullCommand := command; error := Some error' |}, files),
           set_log (log st
                    ++ [mkLogEntry LDebug PGog ["Running GOGDL command:"; command];
                        mkLogEntry LError PLegendary
                          ["Error running GOGDL command " ++ dquote ++ command
                           ++ dquote ++ ": " ++ error']])
             st)
    end.
Proof.
  intros child command. unfold runGogdlCommand.
  rewrite getGogdlCommand_truthy. fold command.
  cbn [truthy_opt existsSync default]. fold child.
  unfold await, run, resolve, bind, lift, logDebug, logError, logWith, modify,
    ret.
  destruct (ending child) as [|error']; cbn [log set_log].
  - reflexivity.
  - rewrite <- app_assoc. destruct st; reflexivity.
Qed.

(** X19: with credentials, a cached and persisted title, a downloader run
    that closes and an output that parses, [getInstallInfo] returns the
    install information read from the output and the title of the cached
    record.  On a host that is not a Mac it asks for the Windows build.
    It assigns [folder_name] in the first persisted record with the
    identifier and in the cached record, and logs the command without the
    token; the files, the cache map, the installed titles and every other
    record are as before. *)
Theorem getInstallInfo_result (host : Host) (env : Env) (appName' : string)
    (files : gmap string string) (st : State) (credentials : Credentials)
    (c : loc) (g : GameObj) (gogInfo : GogdlInfo) (arr : list GameInfo)
    (i : nat) :
  let os' := if isMac host && is_mac_native g then "osx" else "windows" in
  let child :=
    spawn host (gogdlBin host)
      (List.filter truthy
         (infoCommandParts appName' (access_token credentials) os'))
      (gogdlDir host) (process_env host) in
  let command :=
    getGogdlCommand (gogdlFullPath host)
      ["info"; appName'; "--lang=en-US"; "--os"; os'] in
  getCredentials env = Some credentials ->
  map_get appName' (library st) = Some c ->
  gameHeap st !! c = Some g ->
  ending child = Closed ->
  JSON_parse_info host (join newline (collected host Stdout (chunks child)))
  = Ok gogInfo ->
  games (libraryStore st) = Some arr ->
  findIndex (fun value => String.eqb (app_name value) appName') arr = Some i ->
  exists info st',
    getInstallInfo host env appName' files st
    = Resolved ((Some info, files), st')
    /\ info_game info
       = mkInstallInfoGame appName' (title g) (info_dlcs gogInfo)
           (info_versionName gogInfo) [] (info_buildId gogInfo)
    /\ info_manifest info
       = mkInstallInfoManifest (info_disk_size gogInfo)
           (info_download_size gogInfo) appName' [] EmptyString
           (info_languages gogInfo) (info_versionEtag gogInfo)
    /\ libraryStore st'
       = mkLibraryStore
           (Some (alter (set_folder_name (info_folder_name gogInfo)) i arr))
           (totalGames (libraryStore st)) (totalMovies (libraryStore st))
    /\ gameHeap st'
       = <[c := set_folder_name (info_folder_name gogInfo) g]> (gameHeap st)
    /\ library st' = library st
    /\ apiInfoCache st' = apiInfoCache st
    /\ installedGamesStore st' = installedGamesStore st
    /\ installHeap st' = installHeap st
    /\ installedGames st' = installedGames st
    /\ log st'
       = (log st
          ++ [mkLogEntry LInfo PGog ["Getting game metadata:"; command];
              mkLogEntry LDebug PGog ["Running GOGDL command:"; command]])%list.
Proof.
  intros os' child command Hcred Hc Hg Hend Hparse Hstore Hidx.
  unfold getInstallInfo. rewrite Hcred.
  erewrite await_run by (unfold gets; rewrite Hc; reflexivity).
  assert (Hos : (if isMac host
                 then (let* o := readGame c in
                       ret (if is_mac_native o then "osx" else "windows"))
                 else ret "windows") st = Ok (os', st)).
  { unfold os'. destruct (isMac host); [|reflexivity].
    unfold bind, readGame. rewrite Hg. reflexivity. }
  rewrite (await_run _ _ _ _ _ Hos).
  rewrite getGogdlCommand_infoCommandParts. fold command.
  erewrite await_run by reflexivity.
  erewrite await_Resolved
    by (rewrite runGogdlCommand_closed; fold child; rewrite Hend;
        rewrite getGogdlCommand_infoCommandParts; fold command; reflexivity).
  cbn [fst snd error stdout].
  erewrite await_run by reflexivity.
  erewrite await_run by (unfold lift; rewrite Hparse; reflexivity).
  erewrite await_run
    by (unfold gets; cbn [libraryStore set_log]; rewrite Hstore; reflexivity).
  erewrite await_run by reflexivity.
  rewrite Hidx.
  erewrite await_run by reflexivity.
  erewrite await_run by reflexivity.
  erewrite await_run
    by (unfold readGame; cbn [gameHeap set_log]; rewrite Hg; reflexivity).
  erewrite await_run
    by (unfold writeGame; cbn [gameHeap set_log]; rewrite Hg; reflexivity).
  erewrite await_run by reflexivity.
  erewrite await_run by reflexivity.
  unfold resolve.
  eexists. eexists. split; [reflexivity|].
  cbn [info_game info_manifest libraryStore gameHeap library apiInfoCache
       installedGamesStore installHeap installedGames log set_log set_gameHeap
       set_libraryStore set_library totalGames totalMovies].
  rewrite (map_set_same _ _ _ Hc), <- app_assoc.
  repeat split.
Qed.

Lemma getInstallInfo_result_witness :
  exists info st',
    getInstallInfo sampleHost syncEnv "2" ∅ syncedState
    = Resolved ((Some info, ∅), st')
    /\ im_disk_size (info_manifest info) = 2048%Z
    /\ log st'
       = (log syncedState
          ++ [mkLogEntry LInfo PGog
                ["Getting game metadata:";
                 "/opt/heroic/bin/gogdl info 2 --lang=en-US --os windows"];
              mkLogEntry LDebug PGog
                ["Running GOGDL command:";
                 "/opt/heroic/bin/gogdl info 2 --lang=en-US --os windows"]])%list.
Proof.
  destruct (getInstallInfo_result sampleHost syncEnv "2" ∅ syncedState
              (mkCredentials "token") _ _ sampleGogdlInfo _ 1
              eq_refl eq_refl eq_refl eq_refl eq_refl eq_refl eq_refl)
    as (info & st' & Hrun & _ & Hmanifest & _ & _ & _ & _ & _ & _ & _ & Hlog).
  exists info, st'. split; [exact Hrun|]. split.
  - rewrite Hmanifest. reflexivity.
  - exact Hlog.
Defined.

(** X20: when the downloader cannot be run, [getInstallInfo] on a host
    that is not a Mac does not report the process error to its caller: it
    goes on to parse the empty output, and is rejected with whatever
    [JSON.parse] throws for the empty string. *)
Theorem getInstallInfo_failed_run (host : Host) (env : Env)
    (appName' : string) (files : gmap string string) (st : State)
    (credentials : Credentials) (error' : string) (e : JsError) :
  isMac host = false ->
  getCredentials env = Some credentials ->
  ending (spawn host (gogdlBin host)
            (List.filter truthy
               (infoCommandParts appName' (access_token credentials) "windows"))
            (gogdlDir host) (process_env host)) = Failed error' ->
  JSON_parse_info host EmptyString = Throw e ->
  getInstallInfo host env appName' files st = Rejected e.
Proof.
  intros Hmac Hcred Hend Hparse.
  unfold getInstallInfo. rewrite Hcred, Hmac.
  erewrite await_run by reflexivity.
  erewrite await_run by reflexivity.
  erewrite await_run by reflexivity.
  erewrite await_Resolved
    by (rewrite runGogdlCommand_closed, Hend; reflexivity).
  cbn [fst snd error stdout].
  erewrite await_run by reflexivity.
  unfold await at 1, run at 1, lift at 1. rewrite Hparse. reflexivity.
Qed.

Lemma getInstallInfo_failed_run_witness :
  getInstallInfo failingHost syncEnv "2" ∅ syncedState
  = Rejected (TypeError "Unexpected end of JSON input").
Proof.
  apply (getInstallInfo_failed_run failingHost syncEnv "2" ∅ syncedState
           (mkCredentials "token") "spawn ENOENT");
    reflexivity.
Defined.





(** ** [importGame] *)

Lemma mapM_readInstall_refs {K : Type} (m : JSMap K loc) s :
  (forall k ref, (k, ref) ∈ m -> is_Some (installHeap s !! ref)) ->
  exists vs,
    mapM readInstall (map_values m) s = Ok (vs, s)
    /\ Forall2 (fun kr v => installHeap s !! snd kr = Some v) m vs.
Proof.
  induction m as [|[k ref] m IH]; intros Hall.
  - exists []. split; [reflexivity | constructor].
  - destruct (Hall k ref) as (v & Hv); [left|].
    destruct IH as (vs & Hrun & Hvs).
    { intros k' ref' Hin. apply (Hall k' ref'). right. exact Hin. }
    exists (v :: vs). split.
    + change (map_values ((k, ref) :: m)) with (ref :: map_values m).
      cbn [mapM]. unfold bind at 1. unfold readInstall at 1. rewrite Hv.
      unfold bind at 1. rewrite Hrun. reflexivity.
    + constructor; assumption.
Qed.

(** What a successful [importGame] does. *)
Lemma importGame_run (host : Host) (env : Env) (data : GOGImportData)
    (path : string) (files files1 : gmap string string) (st st1 : State)
    (info : InstallInfo) (c : loc) (g : GameObj) :
  let record :=
    {| appName := Some (import_appName data);
       install_path := path;
       executable := EmptyString;
       install_size := prettyBytes host (im_disk_size (info_manifest info));
       is_dlc := false;
       version := Some (import_versionName data);
       platform := import_platform data;
       buildId := Some (import_buildId data);
       installedWithDLCs := Some (import_installedWithDlcs data);
       versionEtag := None |} in
  getInstallInfo host env (import_appName data) files st
  = Resolved ((Some info, files1), st1) ->
  installed_wf st1 ->
  map_get (import_appName data) (library st1) = Some c ->
  gameHeap st1 !! c = Some g ->
  exists st' records ref,
    importGame host env data path files st
    = Resolved ((tt, files1), st')
    /\ installed_wf st'
    /\ map_get (Some (import_appName data)) (installedGames st') = Some ref
    /\ installHeap st' !! ref = Some record
    /\ (forall k, k <> Some (import_appName data) ->
          installedRecord st' k = installedRecord st1 k)
    /\ cachedRecord st' (import_appName data)
       = Some (set_is_installed true (with_install ref g))
    /\ installedGamesStore st' = Some records
    /\ Forall2 (fun kr v => installHeap st' !! snd kr = Some v)
         (installedGames st') records
    /\ libraryStore st' = libraryStore st1
    /\ library st' = library st1
    /\ apiInfoCache st' = apiInfoCache st1.
Proof.
  intros record Hinfo [Hnd Hwf] Hc Hg.
  set (a := import_appName data) in *.
  set (ref := length (installHeap st1)).
  set (heap' := (installHeap st1 ++ [record])%list).
  set (m' := map_set (Some a) ref (installedGames st1)).
  set (games' := <[c := set_is_installed true (with_install ref g)]> (gameHeap st1)).
  set (s4 := mkState (libraryStore st1) (apiInfoCache st1)
               (installedGamesStore st1) games' heap' (library st1) m' (log st1)).
  assert (Hheap : forall k r, (k, r) ∈ m' ->
             exists v, installHeap s4 !! r = Some v /\ appName v = k).
  { intros k r Hin. apply elem_of_map_set in Hin as [[-> ->]|Hin].
    - exists record. split; [|reflexivity].
      apply list_lookup_middle. reflexivity.
    - destruct (Hwf k r Hin) as (v & Hv & Hk). exists v. split; [|exact Hk].
      apply lookup_app_l_Some. exact Hv. }
  destruct (mapM_readInstall_refs m' s4) as (records & Hread & Hrecords).
  { intros k r Hin. destruct (Hheap k r Hin) as (v & Hv & _). eauto. }
  exists (set_installedGamesStore (Some records) s4), records, ref.
  split.
  { unfold importGame. fold a.
    rewrite (await_Resolved _ _ _ _ _ Hinfo). cbn [fst snd].
    erewrite await_run by reflexivity.
    erewrite await_run by reflexivity.
    erewrite await_run by reflexivity.
    erewrite await_run
      by (unfold gets; cbn [library set_installedGames set_installHeap];
          rewrite Hc; reflexivity).
    cbv beta iota.
    erewrite await_run
      by (unfold writeGame; cbn [gameHeap set_installedGames set_installHeap];
          rewrite Hg; reflexivity).
    erewrite await_run
      by (unfold writeGame; cbn [gameHeap set_gameHeap];
          rewrite list_lookup_insert_eq by (eapply lookup_lt_Some; exact Hg);
          rewrite list_insert_insert_eq; reflexivity).
    erewrite await_run
      by (unfold modify;
          cbn [library set_gameHeap set_installedGames set_installHeap];
          rewrite (map_set_same _ _ _ Hc); reflexivity).
    fold ref. fold heap'. fold m'.
    match goal with
    | |- context [set_library ?l ?s0] =>
        replace (set_library l s0) with s4 by (destruct st1; reflexivity)
    end.
    erewrite await_run
      by (unfold installedGamesStore_set_from_map;
          unfold bind at 1; unfold gets at 1;
          cbn [installedGames s4];
          rewrite (bind_Ok _ _ _ _ _ Hread); reflexivity).
    reflexivity. }
  cbn [installedGames installHeap installedGamesStore libraryStore library
       apiInfoCache gameHeap set_installedGamesStore s4].
  split.
  { split; [apply map_set_NoDup; exact Hnd | exact Hheap]. }
  split; [apply map_get_set_eq|].
  split; [apply list_lookup_middle; reflexivity|].
  split.
  { intros k Hk. unfold installedRecord.
    cbn [installedGames installHeap set_installedGamesStore s4].
    unfold m'. rewrite map_get_set_ne by congruence.
    destruct (map_get k (installedGames st1)) as [r|] eqn:Hr; [|reflexivity].
    cbn. apply map_get_Some_elem in Hr.
    destruct (Hwf k r Hr) as (v & Hv & _).
    rewrite Hv. apply lookup_app_l_Some. exact Hv. }
  split.
  { unfold cachedRecord. cbn [library gameHeap set_installedGamesStore s4].
    rewrite Hc. cbn. unfold games'.
    apply list_lookup_insert_eq. eapply lookup_lt_Some. exact Hg. }
  repeat split; try reflexivity. exact Hrecords.
Qed.

(** X22: when [getInstallInfo] succeeds for the title and the title is
    cached, [importGame] returns.  The installed map then holds for the
    title a new record with the given path and the pretty-printed disk
    size, and the records of the other titles are untouched; the cached
    record is marked installed and shares that very object; the Installed
    Store is rewritten with the values of the installed map in order.  The
    Library Store is left as [getInstallInfo] wrote it. *)
Theorem importGame_result (host : Host) (env : Env) (data : GOGImportData)
    (path : string) (files files1 : gmap string string) (st st1 : State)
    (info : InstallInfo) (c : loc) (g : GameObj) :
  let record :=
    {| appName := Some (import_appName data);
       install_path := path;
       executable := EmptyString;
       install_size := prettyBytes host (im_disk_size (info_manifest info));
       is_dlc := false;
       version := Some (import_versionName data);
       platform := import_platform data;
       buildId := Some (import_buildId data);
       installedWithDLCs := Some (import_installedWithDlcs data);
       versionEtag := None |} in
  getInstallInfo host env (import_appName data) files st
  = Resolved ((Some info, files1), st1) ->
  installed_wf st1 ->
  map_get (import_appName data) (library st1) = Some c ->
  gameHeap st1 !! c = Some g ->
  exists st' records ref,
    importGame host env data path files st
    = Resolved ((tt, files1), st')
    /\ installed_wf st'
    /\ map_get (Some (import_appName data)) (installedGames st') = Some ref
    /\ installHeap st' !! ref = Some record
    /\ (forall k, k <> Some (import_appName data) ->
          installedRecord st' k = installedRecord st1 k)
    /\ cachedRecord st' (import_appName data)
       = Some (set_is_installed true (with_install ref g))
    /\ installedGamesStore st' = Some records
    /\ Forall2 (fun kr v => installHeap st' !! snd kr = Some v)
         (installedGames st') records
    /\ libraryStore st' = libraryStore st1
    /\ library st' = library st1
    /\ apiInfoCache st' = apiInfoCache st1.
Proof. exact (importGame_run host env data path files files1 st st1 info c g). Qed.


Lemma importGame_result_witness :
  exists st' ref,
    importGame sampleHost syncEnv sampleImport "/games/two" ∅ syncedState
    = Resolved ((tt, ∅), st')
    /\ map_get (Some "2") (installedGames st') = Some ref
    /\ install_path <$> installHeap st' !! ref = Some "/games/two".
Proof.
  assert (Hwf : installed_wf infoState).
  { split; [apply NoDup_singleton|].
    intros k ref Hin. apply list_elem_of_singleton in Hin.
    injection Hin as -> ->. eexists. split; reflexivity. }
  destruct (importGame_result sampleHost syncEnv sampleImport "/games/two"
              ∅ ∅ syncedState infoState _ _ _ eq_refl Hwf eq_refl eq_refl)
    as (st' & records & ref & Hrun & _ & Href & Hrecord & _).
  exists st', ref. split; [exact Hrun|]. split; [exact Href|].
  rewrite Hrecord. reflexivity.
Defined.

(** X23: a title that was just imported can be moved: after a successful
    [importGame], [changeGameInstallPath] for the same title returns, and
    the new path is then seen through the installed map, in the record of
    the title in the Installed Store and through the cached record, which
    all went through the one shared object. *)
Theorem importGame_then_changeGameInstallPath (host : Host) (env : Env)
    (data : GOGImportData) (path newInstallPath : string)
    (files files1 : gmap string string) (st st1 : State)
    (info : InstallInfo) (c : loc) (g : GameObj) :
  getInstallInfo host env (import_appName data) files st
  = Resolved ((Some info, files1), st1) ->
  installed_wf st1 ->
  map_get (import_appName data) (library st1) = Some c ->
  gameHeap st1 !! c = Some g ->
  exists st' st'' record,
    importGame host env data path files st
    = Resolved ((tt, files1), st')
    /\ installedRecord st' (Some (import_appName data)) = Some record
    /\ install_path record = path
    /\ changeGameInstallPath (import_appName data) newInstallPath st'
       = Ok (tt, st'')
    /\ installedRecord st'' (Some (import_appName data))
       = Some (set_install_path newInstallPath record)
    /\ (cachedRecord st'' (import_appName data)
        ≫= fun g' => installHeap st'' !! install g')
       = Some (set_install_path newInstallPath record)
    /\ exists records i,
         installedGamesStore st'' = Some records
         /\ findIndex (appName_is (import_appName data)) records = Some i
         /\ records !! i = Some (set_install_path newInstallPath record).
Proof.
  intros Hinfo Hwf1 Hc Hg.
  destruct (importGame_run host env data path files files1 st st1 info c g
              Hinfo Hwf1 Hc Hg)
    as (st' & records & ref & Hrun & [Hnd Hwf] & Href & Hrecord & _ & Hcached
        & Hstore & Hrecords & _ & Hlib & _).
  set (a := import_appName data) in *.
  match type of Hrecord with _ = Some ?r => set (record := r) in * end.
  pose proof (map_get_Some_elem _ _ _ Href) as Hin.
  assert (Hidx : exists i, findIndex (appName_is a) records = Some i
                           /\ records !! i = Some record).
  { destruct (findIndex (appName_is a) records) as [i|] eqn:Hidx.
    - exists i. split; [reflexivity|].
      destruct (findIndex_Some _ _ _ Hidx) as (x & Hx & Hname & _).
      destruct (Forall2_lookup_r _ _ _ _ _ Hrecords Hx)
        as ([k r] & Hkr & Hr).
      cbn [snd] in Hr.
      assert (Hin' : (k, r) ∈ installedGames st')
        by (apply list_elem_of_lookup; eauto).
      destruct (Hwf k r Hin') as (v & Hv & Hk).
      assert (v = x) by congruence. subst v.
      unfold appName_is in Hname. apply bool_decide_eq_true_1 in Hname.
      rewrite Hk in Hname. subst k.
      rewrite (NoDup_keys_functional _ _ _ _ Hnd Hin' Hin) in Hr.
      congruence.
    - exfalso. apply list_elem_of_lookup in Hin as (j & Hj).
      destruct (Forall2_lookup_l _ _ _ _ _ Hrecords Hj) as (x & Hx & Hr).
      cbn [snd] in Hr.
      assert (x = record) by congruence. subst x.
      assert (Hx' : record ∈ records) by (apply list_elem_of_lookup; eauto).
      pose proof (findIndex_None _ _ Hidx record Hx') as Hfalse.
      unfold appName_is in Hfalse.
      rewrite bool_decide_eq_true_2 in Hfalse by reflexivity. discriminate. }
  destruct Hidx as (i & Hidx & Hi).
  unfold cachedRecord in Hcached.
  destruct (map_get a (library st')) as [c'|] eqn:Hc'; [|discriminate].
  cbn in Hcached.
  eexists st', _, record. split; [exact Hrun|].
  split; [unfold installedRecord; rewrite Href; exact Hrecord|].
  split; [reflexivity|].
  split.
  { apply changeGameInstallPath_effect.
    exists records, i, c', (set_is_installed true (with_install ref g)), record.
    split; [exact Hstore|]. split; [exact Hidx|]. split; [exact Hc'|].
    split; [exact Hcached|]. split; [exact Hrecord|]. reflexivity. }
  assert (Hlt : ref < length (installHeap st'))
    by (eapply lookup_lt_Some; exact Hrecord).
  split.
  { unfold installedRecord. cbn [installedGames installHeap]. rewrite Href.
    cbn. apply list_lookup_insert_eq. exact Hlt. }
  split.
  { unfold cachedRecord. cbn [library gameHeap installHeap]. rewrite Hc'.
    cbn. rewrite Hcached. cbn. apply list_lookup_insert_eq. exact Hlt. }
  exists (alter (set_install_path newInstallPath) i records), i.
  split; [reflexivity|]. split.
  - clear -Hidx. revert i Hidx.
    induction records as [|r rs IH]; intros i; cbn [findIndex]; [discriminate|].
    destruct (appName_is a r) eqn:Hr.
    + intros [= <-]. cbn [alter list_alter findIndex].
      unfold appName_is in *. cbn [appName set_install_path]. rewrite Hr.
      reflexivity.
    + destruct (findIndex (appName_is a) rs) as [j|] eqn:Hj; [|discriminate].
      intros [= <-]. cbn [alter list_alter findIndex]. rewrite Hr.
      change (list_alter (set_install_path newInstallPath) j rs)
        with (alter (set_install_path newInstallPath) j rs).
      rewrite (IH j eq_refl). reflexivity.
  - rewrite list_lookup_alter_eq, Hi. reflexivity.
Qed.

Lemma importGame_then_changeGameInstallPath_witness :
  exists st' st'' record,
    importGame sampleHost syncEnv sampleImport "/games/two" ∅ syncedState
    = Resolved ((tt, ∅), st')
    /\ changeGameInstallPath "2" "/mnt/two" st' = Ok (tt, st'')
    /\ installedRecord st'' (Some "2")
       = Some (set_install_path "/mnt/two" record).
Proof.
  assert (Hwf : installed_wf infoState).
  { split; [apply NoDup_singleton|].
    intros k ref Hin. apply list_elem_of_singleton in Hin.
    injection Hin as -> ->. eexists. split; reflexivity. }
  destruct (importGame_then_changeGameInstallPath sampleHost syncEnv
              sampleImport "/games/two" "/mnt/two" ∅ ∅ syncedState infoState
              _ _ _ eq_refl Hwf eq_refl eq_refl)
    as (st' & st'' & record & Hrun & _ & _ & Hchange & Hrecord & _).
  exists st', st'', record. split; [exact Hrun|]. split; assumption.
Defined.

(** ** [getExecutable] *)

(** X24: for a cached title, [getExecutable] reads the file
    [goggame-<id>.info] in the install path of the title.  When nothing
    exists at that path it returns the empty string and changes nothing.  With it, the
    executable is the path of the first primary play task, joined to its
    working directory when it has a non-empty one, and only the log
    changes; when no play task is primary it throws. *)
Theorem getExecutable_result (host : Host) (appName' : string)
    (files : gmap string string) (st : State) (c : loc) (g : GameObj)
    (i : InstalledInfo) :
  map_get appName' (library st) = Some c ->
  gameHeap st !! c = Some g ->
  installHeap st !! install g = Some i ->
  let infoFilePath :=
    path_join host (install_path i) ("goggame-" ++ appName' ++ ".info") in
  (existsSync host files (Some infoFilePath) = false ->
   getExecutable host appName' files st = Ok (EmptyString, st))
  /\ forall content tasks,
       truthy infoFilePath = true ->
       files !! infoFilePath = Some content ->
       JSON_parse_infoFile host content = Ok (mkInfoFile (Some tasks)) ->
       match List.find isPrimary tasks with
       | Some primary =>
           getExecutable host appName' files st
           = Ok (if truthy_opt (workingDir primary)
                 then path_join host (or_empty (workingDir primary))
                        (task_path primary)
                 else task_path primary,
                 set_log (log st
                          ++ [mkLogEntry LInfo PBackend
                                ["Loading playTask data from " ++ infoFilePath]])
                   st)
       | None => exists e, getExecutable host appName' files st = Throw e
       end.
Proof.
  intros Hc Hg Hi infoFilePath.
  assert (Hhead : getExecutable host appName' files st
            = (if existsSync host files (Some infoFilePath) then
                 logInfo ["Loading playTask data from " ++ infoFilePath] PBackend;;
                 let* fileData := lift (readFileSync host files infoFilePath) in
                 let* jsonData := lift (JSON_parse_infoFile host fileData) in
                 let* tasks :=
                   match playTasks jsonData with
                   | Some l => ret l
                   | None => throw (TypeError "Cannot read properties of undefined")
                   end in
                 match List.find isPrimary tasks with
                 | Some primary =>
                     match workingDir primary with
                     | Some dir =>
                         if truthy dir
                         then ret (path_join host dir (task_path primary))
                         else ret (task_path primary)
                     | None => ret (task_path primary)
                     end
                 | None => throw (TypeError "Cannot read properties of undefined")
                 end
               else ret EmptyString) st).
  { unfold getExecutable. unfold bind at 1. unfold getGameInfo, gets at 1.
    rewrite Hc. unfold bind at 1. unfold readGame at 1. rewrite Hg.
    unfold bind at 1. unfold readInstall at 1. rewrite Hi. reflexivity. }
  split.
  - intros Hmissing. rewrite Hhead, Hmissing. reflexivity.
  - intros content tasks Htruthy Hfile Hparse.
    assert (Hexists : existsSync host files (Some infoFilePath) = true).
    { unfold existsSync. rewrite Htruthy, Hfile.
      rewrite bool_decide_eq_true_2 by eauto. reflexivity. }
    assert (Hrun : getExecutable host appName' files st
              = (match List.find isPrimary tasks with
                 | Some primary =>
                     match workingDir primary with
                     | Some dir =>
                         if truthy dir
                         then ret (path_join host dir (task_path primary))
                         else ret (task_path primary)
                     | None => ret (task_path primary)
                     end
                 | None => throw (TypeError "Cannot read properties of undefined")
                 end)
                  (set_log (log st
                            ++ [mkLogEntry LInfo PBackend
                                  ["Loading playTask data from " ++ infoFilePath]])
                     st)).
    { rewrite Hhead, Hexists.
      unfold bind at 1. unfold logInfo at 1, logWith at 1, modify at 1.
      unfold bind at 1. unfold lift at 1, readFileSync at 1. rewrite Hfile.
      unfold bind at 1. unfold lift at 1. rewrite Hparse.
      cbn [playTasks]. unfold bind at 1. unfold ret at 1. reflexivity. }
    destruct (List.find isPrimary tasks) as [primary|];
      [|rewrite Hrun; cbn; eauto].
    rewrite Hrun.
    destruct (workingDir primary) as [dir|]; [|reflexivity].
    cbn [truthy_opt or_empty]. destruct (truthy dir); reflexivity.
Qed.

Lemma getExecutable_result_witness :
  exists st', getExecutable sampleHost "2" infoFiles importedState
              = Ok ("bin/game.exe", st').
Proof.
  destruct (getExecutable_result sampleHost "2" infoFiles importedState
              _ _ _ eq_refl eq_refl eq_refl) as [_ Hfile].
  eexists.
  exact (Hfile "tasks"
           [mkPlayTask false None "readme.txt";
            mkPlayTask true (Some "bin") "game.exe";
            mkPlayTask true None "other.exe"]
           eq_refl eq_refl eq_refl).
Defined.

(** ** [getGamesdbData] and the conditional request *)

(** X25: against a server that honours [If-None-Match], answering 304 to
    the current entity tag and the payload otherwise, [getGamesdbData]
    never reports [isUpdated]: with the current tag the 304 answer is
    rejected by the default status check and the empty object is returned;
    with another tag, or none, the payload comes back under the server's
    tag, which differs from the one sent. *)
Theorem getGamesdbData_conditional_server (env : Env)
    (store game_id recorded current : string)
    (notModified : GamesdbResponse) (payload : GamesdbData) :
  recorded <> EmptyString ->
  (forall header,
     gamesdbRelease env
       ("https://gamesdb.gog.com/platforms/" ++ store
        ++ "/external_releases/" ++ game_id) header
     = if bool_decide (header = Some current)
       then HttpResponse 304 notModified
       else HttpResponse 200 (mkGamesdbResponse (Some current) payload)) ->
  getGamesdbData env store game_id (Some recorded)
  = (false,
     if bool_decide (recorded = current) then mkGamesdbData None None
     else mkGamesdbData (game payload) (Some current))
  /\ getGamesdbData env store game_id None
     = (false, mkGamesdbData (game payload) (Some current)).
Proof.
  intros Hne Hserver. unfold getGamesdbData. rewrite !Hserver. split.
  - destruct recorded as [|a recorded]; [congruence|].
    cbn [truthy_opt truthy].
    destruct (decide (String a recorded = current)) as [Heq|Hneq].
    + rewrite !bool_decide_eq_true_2 by congruence. reflexivity.
    + rewrite !bool_decide_eq_false_2 by congruence.
      cbn. rewrite bool_decide_eq_false_2 by congruence. reflexivity.
  - cbn [truthy_opt]. rewrite bool_decide_eq_false_2 by discriminate.
    cbn. rewrite bool_decide_eq_false_2 by discriminate. reflexivity.
Qed.

Lemma getGamesdbData_conditional_server_witness :
  getGamesdbData conditionalEnv "gog" "1" (Some "e2")
  = (false, mkGamesdbData None None).
Proof.
  apply (getGamesdbData_conditional_server conditionalEnv "gog" "1" "e2" "e2"
           (mkGamesdbResponse (Some "e2") (mkGamesdbData None None))
           (mkGamesdbData
              (Some (mkGamesdbGame ["A"] "https://covers/x.{ext}" None)) None)).
  - discriminate.
  - intros header. reflexivity.
Defined.

(** ** [refreshInstalled] and [listUpdateableGames] *)

Lemma forOf_checkInstalled_keys env (m : JSMap (option string) loc) acc st l st' :
  (forall k ref, (k, ref) ∈ m ->
     exists g, installHeap st !! ref = Some g /\ appName g = k) ->
  forOf (checkInstalled env) (map_values m) acc st = Ok (l, st') ->
  l = (acc ++ List.map fst
                (List.filter (fun kv => wantsUpdate env st (snd kv)) m))%list.
Proof.
  revert acc. induction m as [|[k ref] m IH]; intros acc Hall Hrun.
  - cbn in Hrun. injection Hrun as <- _. rewrite app_nil_r. reflexivity.
  - destruct (Hall k ref) as (g & Hg & Hk); [left|].
    change (map_values ((k, ref) :: m)) with (ref :: map_values m) in Hrun.
    cbn [forOf] in Hrun.
    apply bind_Ok_inv in Hrun as (acc' & st1 & Hb & Hrun).
    rewrite checkInstalled_needsUpdate, Hg in Hb.
    cbn [List.filter snd]. unfold wantsUpdate at 1. rewrite Hg.
    destruct (needsUpdate env g) as [[]|e]; [| |discriminate];
      injection Hb as <- <-;
      apply IH in Hrun;
      try (intros k' ref' Hin; apply Hall; right; exact Hin).
    + rewrite Hrun. cbn [List.map fst]. rewrite <- app_assoc, Hk. reflexivity.
    + exact Hrun.
Qed.

(** X26: after [refreshInstalled], a list returned by
    [listUpdateableGames] names no identifier twice, even when the
    Installed Store holds several records with one identifier, and every
    identifier it names is that of a record of the Installed Store. *)
Theorem refreshInstalled_then_listUpdateableGames (env : Env) (st : State) :
  exists st1,
    refreshInstalled st = Ok (tt, st1)
    /\ forall l st2,
         listUpdateableGames env st1 = Ok (l, st2) ->
         l = updateableKeys env st1
         /\ NoDup l
         /\ forall k, k ∈ l ->
              exists r, r ∈ default [] (installedGamesStore st) /\ appName r = k.
Proof.
  destruct (refreshInstalled_spec st)
    as (st1 & Hrefresh & _ & _ & _ & _ & _ & _ & Hh1 & [Hnd Hwf] & Hge1 & _).
  exists st1. split; [exact Hrefresh|]. intros l st2 Hrun.
  assert (Hl : l = updateableKeys env st1).
  { unfold listUpdateableGames in Hrun.
    apply bind_Ok_inv in Hrun as (installed & s & Hgets & Hrun).
    unfold gets in Hgets. injection Hgets as <- <-.
    apply bind_Ok_inv in Hrun as (upd & s & Hloop & Hrun).
    apply forOf_checkInstalled_keys in Hloop; [|exact Hwf].
    apply bind_Ok_inv in Hrun as ([] & s' & _ & Hrun).
    unfold ret in Hrun. injection Hrun as <- _. exact Hloop. }
  assert (Hsub : l `sublist_of` map_keys (installedGames st1)).
  { rewrite Hl. unfold updateableKeys, map_keys. apply sublist_map_filter. }
  split; [exact Hl|]. split; [exact (sublist_NoDup _ _ Hnd Hsub)|].
  intros k Hk.
  pose proof (elem_of_sublist _ _ _ Hk Hsub) as Hkey.
  unfold map_keys in Hkey.
  apply list_elem_of_In, in_map_iff in Hkey as ([k' ref] & Heq & Hin).
  cbn in Heq. subst k'. apply list_elem_of_In in Hin.
  destruct (Hwf k ref Hin) as (r & Hr & Hname).
  exists r. split; [|exact Hname].
  pose proof (Hge1 k ref Hin) as Hge.
  rewrite Hh1, lookup_app_r in Hr by exact Hge.
  apply list_elem_of_lookup. eauto.
Qed.
